(** * PDF-Wizard: size-targeted encoding search and parallel page pipeline

    A shallow embedding of the engine functions of [pdf_wizard]:
    - [pdf_wizard/engine/image_processor.py]: [resize_image], [pdf_to_images]
    - [pdf_wizard/engine/compressor.py]: [compress_pdf]
    - [pdf_wizard/engine/academic.py]: [_scan_page_brightness],
      [remove_blank_pages]

    Conventions.  Files are byte strings held in a finite map from paths to
    contents.  Calls into PyMuPDF, Pillow, [shutil] and the terminal are
    recorded as events in a log, so that statements about what was encoded,
    saved or reported are statements about that log.  Python's floats are
    idealised as exact rationals ([Q]); Python's [int] is [Z] or [nat]. *)

From Stdlib Require Import ZArith QArith Lia Lqa List Init.Byte Strings.Ascii.
From Stdlib Require Strings.String DecimalString DecimalZ.
From stdpp Require Import base option list gmap strings.

Local Open Scope nat_scope.

(** ** Python's [range(start, stop, step)] for a positive step *)

Module PyRange.

(** [for i in range(start, stop, step)]: the indices visited, oldest first.
    The fuel bounds the number of iterations; [stop - start] is enough for
    any positive step. *)
Fixpoint range_loop (fuel i stop step : nat) : list nat :=
  match fuel with
  | O => []
  | S fuel' =>
      if i <? stop then i :: range_loop fuel' (i + step) stop step else []
  end.

Definition range3 (start stop step : nat) : list nat :=
  range_loop (stop - start) start stop step.

(** [range(n)] *)
Definition range (n : nat) : list nat := range3 0 n 1.

(** [len(range(0, stop, step))]: the ceiling of [stop / step]. *)
Definition ceil_div (stop step : nat) : nat := (stop + step - 1) / step.

End PyRange.

(** ** [pdf_to_images]: cutting the page indices into chunks *)

Module PageChunks.
Import PyRange.

(** [os.cpu_count() or 4]: [None] and [0] are both falsy. *)
Definition num_cores (cpu_count : option nat) : nat :=
  match cpu_count with
  | Some (S n) => S n
  | _ => 4
  end.

(** [chunk_size = max(1, page_count // num_cores)] *)
Definition chunk_size (page_count cores : nat) : nat :=
  Nat.max 1 (page_count / cores).

(** [list(range(i, min(i + chunk_size, page_count)))] *)
Definition page_indices (page_count size i : nat) : list nat :=
  seq i (Nat.min (i + size) page_count - i).

(** The loop [for i in range(0, page_count, chunk_size)] that appends one
    list of page indices per iteration. *)
Definition make_chunks (page_count size : nat) : list (list nat) :=
  map (page_indices page_count size) (range3 0 page_count size).

(** The chunks [pdf_to_images] submits to the pool. *)
Definition pdf_to_images_chunks (page_count : nat) (cpu_count : option nat)
  : list (list nat) :=
  make_chunks page_count (chunk_size page_count (num_cores cpu_count)).

End PageChunks.


(** ** Effects: files, exceptions and the log of library calls *)

Module Effects.

Inductive exn :=
| FileNotFoundError
| UnidentifiedImageError
| FileDataError
| ZeroDivisionError
| SameFileError
| KeyError
| IndexError.

(** [str(e)], as spliced into the error messages. *)
Definition exn_str (e : exn) : string :=
  match e with
  | FileNotFoundError => "No such file or directory"
  | UnidentifiedImageError => "cannot identify image file"
  | FileDataError => "Failed to open file"
  | ZeroDivisionError => "float division by zero"
  | SameFileError => "are the same file"
  | KeyError => "unknown format"
  | IndexError => "page not in document"
  end.

(** Where [Image.save] writes. *)
Inductive dest :=
| Buffer
| File (path : string).

(** Keyword arguments of Pillow's [Image.save]. *)
Record image_save_args := {
  format : string;
  quality : option Z;
  optimize : bool;
  compress_level : option Z
}.

(** Keyword arguments of PyMuPDF's [Document.save], as the compressor
    passes them. *)
Record doc_save_args := {
  garbage : Z;
  deflate : bool;
  deflate_images : bool;
  deflate_fonts : bool;
  clean : bool;
  pretty : bool
}.

(** Terminal messages carry the fixed part of their format string. *)
Inductive event :=
| Info (m : string)
| Warning (m : string)
| Success (m : string)
| Error (m : string)
| ImageSave (d : dest) (a : image_save_args)
| DocSave (path : string) (a : doc_save_args)
| Copy2 (src dst : string).

Record world := {
  fs : gmap string (list byte);
  log : list event
}.

Inductive res (A : Type) :=
| Ret (a : A)
| Raise (e : exn).
Global Arguments Ret {A} a.
Global Arguments Raise {A} e.

(** State and exceptions: an exception keeps the effects done so far. *)
Definition M (A : Type) : Type := world -> res A * world.

Definition ret {A} (a : A) : M A := fun w => (Ret a, w).

Definition bind {A B} (m : M A) (k : A -> M B) : M B :=
  fun w => match m w with
           | (Ret a, w') => k a w'
           | (Raise e, w') => (Raise e, w')
           end.

Definition raise {A} (e : exn) : M A := fun w => (Raise e, w).

(** [try: body except Exception as e: handler(e)] *)
Definition try_except {A} (body : M A) (handler : exn -> M A) : M A :=
  fun w => match body w with
           | (Ret a, w') => (Ret a, w')
           | (Raise e, w') => handler e w'
           end.

(** The world after further events have been logged. *)
Definition add_log (w : world) (l : list event) : world :=
  {| fs := fs w; log := log w ++ l |}.

Definition emit (e : event) : M unit :=
  fun w => (Ret tt, add_log w [e]).

Definition info (m : string) : M unit := emit (Info m).
Definition warning (m : string) : M unit := emit (Warning m).
Definition success (m : string) : M unit := emit (Success m).
Definition error (m : string) : M unit := emit (Error m).

Definition read_file (path : string) : M (list byte) :=
  fun w => match fs w !! path with
           | Some b => (Ret b, w)
           | None => (Raise FileNotFoundError, w)
           end.

Definition write_file (path : string) (b : list byte) : M unit :=
  fun w => (Ret tt, {| fs := <[path := b]> (fs w); log := log w |}).

(** [utils.get_file_size]: [file_path.stat().st_size] *)
Definition get_file_size (path : string) : M Z :=
  bind (read_file path) (fun b => ret (Z.of_nat (length b))).

(** [shutil.copy2(src, dst)] *)
Definition copy2 (src dst : string) : M unit :=
  bind (emit (Copy2 src dst)) (fun _ =>
  bind (read_file src) (fun b =>
  if String.eqb src dst then raise SameFileError else write_file dst b)).

End Effects.

Declare Scope py_scope.
Delimit Scope py_scope with py.
Notation "x <- m ;; k" := (Effects.bind m (fun x => k))
  (at level 100, m at next level, right associativity) : py_scope.
Notation "m ;;; k" := (Effects.bind m (fun _ => k))
  (at level 100, right associativity) : py_scope.

(** ** Strings: [str.upper] on ASCII text *)

Module PyStr.

Definition upper_ascii (c : ascii) : ascii :=
  let n := nat_of_ascii c in
  if (97 <=? n) && (n <=? 122) then ascii_of_nat (n - 32) else c.

Fixpoint upper (s : string) : string :=
  match s with
  | String.EmptyString => String.EmptyString
  | String.String c s' => String.String (upper_ascii c) (upper s')
  end.

(** [x in (a, b, ...)] on strings *)
Definition str_in (x : string) (l : list string) : bool :=
  existsb (String.eqb x) l.

End PyStr.


(** ** [image_processor.resize_image] *)

Module ImageProcessor.
Import Effects PyStr.
Local Open Scope py_scope.
Local Open Scope Z_scope.

(** The part of Pillow the function calls.  Encoding is a function of the
    image and the parameters: the same image at the same quality gives the
    same bytes. *)
Class Pillow := {
  Image : Type;
  (** [Image.open] on the bytes of a file; [None] when they are no image *)
  decode : list byte -> option Image;
  mode : Image -> string;
  size : Image -> Z * Z;
  convert : Image -> string -> Image;
  (** a white RGB canvas with the image pasted on it, through its alpha
      channel as mask when [with_mask] *)
  paste_on_white : Image -> bool -> Image;
  (** [img.resize(dimensions, LANCZOS)] *)
  resize : Image -> Z * Z -> Image;
  (** [img.save(format='JPEG', quality=q, optimize=True)] *)
  jpeg_encode : Image -> Z -> list byte;
  (** [img.save(format='PNG', optimize=True, compress_level=c)] *)
  png_encode : Image -> Z -> list byte;
  (** [img.save(format=f, quality=q, optimize=True)] for a format given at
      run time; [None] when Pillow does not know the format *)
  encode_as : Image -> string -> Z -> option (list byte)
}.

Section WithPillow.
Context `{Pillow}.

Definition image_open (path : string) : M Image :=
  b <- read_file path ;;
  match decode b with
  | Some img => ret img
  | None => raise UnidentifiedImageError
  end.

Definition jpeg_args (q : Z) : image_save_args :=
  {| format := "JPEG"; quality := Some q; optimize := true;
     compress_level := None |}.

Definition png_args (c : Z) : image_save_args :=
  {| format := "PNG"; quality := None; optimize := true;
     compress_level := Some c |}.

(** [buffer = io.BytesIO(); img.save(buffer, format='JPEG', quality=q,
    optimize=True)] *)
Definition save_jpeg_buffer (img : Image) (q : Z) : M (list byte) :=
  emit (ImageSave Buffer (jpeg_args q)) ;;;
  ret (jpeg_encode img q).

Definition save_jpeg_file (img : Image) (path : string) (q : Z) : M unit :=
  emit (ImageSave (File path) (jpeg_args q)) ;;;
  write_file path (jpeg_encode img q).

Definition save_png_file (img : Image) (path : string) (c : Z) : M unit :=
  emit (ImageSave (File path) (png_args c)) ;;;
  write_file path (png_encode img c).

Definition save_as_file (img : Image) (path : string) (f : string) (q : Z)
  : M unit :=
  emit (ImageSave (File path)
          {| format := f; quality := Some q; optimize := true;
             compress_level := None |}) ;;;
  match encode_as img f q with
  | Some b => write_file path b
  | None => raise KeyError
  end.

(** The transparency handling at the top of [resize_image]. *)
Definition normalize_mode (output_format : string) (img : Image) : Image :=
  if String.eqb (upper output_format) "JPEG"
     && str_in (mode img) ["RGBA"; "LA"; "P"]%string
  then
    let img1 := if String.eqb (mode img) "P" then convert img "RGBA" else img in
    paste_on_white img1 (String.eqb (mode img1) "RGBA")
  else if negb (str_in (mode img) ["RGB"; "L"]%string)
  then convert img "RGB"
  else img.

(** The local variables of the JPEG search. *)
Record search := {
  quality_low : Z;
  quality_high : Z;
  best_quality : Z;
  found_solution : bool
}.

(** The [if current_size <= target_bytes: ... else: ...] of one
    iteration. *)
Definition probe (current_size target_bytes q : Z) (s : search) : search :=
  if current_size <=? target_bytes
  then {| quality_low := q + 1; quality_high := quality_high s;
          best_quality := q; found_solution := true |}
  else {| quality_low := quality_low s; quality_high := q - 1;
          best_quality := best_quality s;
          found_solution := found_solution s |}.

(** [for attempt in range(max_iterations): ...], [n] iterations left. *)
Fixpoint search_loop (img : Image) (target_bytes : Z) (n : nat) (s : search)
  : M search :=
  match n with
  | O => ret s
  | S n' =>
      let q := (quality_low s + quality_high s) / 2 in
      buffer <- save_jpeg_buffer img q ;;
      let current_size := Z.of_nat (length buffer) in
      let s' := probe current_size target_bytes q s in
      if quality_high s' <? quality_low s'
      then ret s'
      else search_loop img target_bytes n' s'
  end.

(** From [quality_low, quality_high = 5, 95] to the end of the loop. *)
Definition jpeg_search (img : Image) (target_bytes : Z) (max_iterations : nat)
  : M search :=
  let s0 := {| quality_low := 5; quality_high := 95; best_quality := 5;
               found_solution := false |} in
  buffer <- save_jpeg_buffer img 95 ;;
  if Z.of_nat (length buffer) <=? target_bytes
  then ret {| quality_low := 5; quality_high := 95; best_quality := 95;
              found_solution := true |}
  else search_loop img target_bytes max_iterations s0.

(** Size in bytes of the JPEG encoding of [img] at quality [q]. *)
Definition encoded_size (img : Image) (q : Z) : Z :=
  Z.of_nat (length (jpeg_encode img q)).

(** The log entries of encoding to a buffer at each of the qualities. *)
Definition probes (qs : list Z) : list event :=
  map (fun q => ImageSave Buffer (jpeg_args q)) qs.

(** The search as a relation, from its description: one step probes the
    midpoint [mid] of [quality_low, quality_high]; when the size at [mid]
    fits, [mid] becomes the best quality and the lower bound moves to
    [mid + 1]; otherwise the upper bound moves to [mid - 1]. *)
Inductive narrow (size_at : Z -> Z) (target_bytes : Z) : search -> Z -> search -> Prop :=
| narrow_fits s :
    let mid := (quality_low s + quality_high s) / 2 in
    size_at mid <= target_bytes ->
    narrow size_at target_bytes s mid
      {| quality_low := mid + 1; quality_high := quality_high s;
         best_quality := mid; found_solution := true |}
| narrow_exceeds s :
    let mid := (quality_low s + quality_high s) / 2 in
    target_bytes < size_at mid ->
    narrow size_at target_bytes s mid
      {| quality_low := quality_low s; quality_high := mid - 1;
         best_quality := best_quality s; found_solution := found_solution s |}.

(** Steps are taken until the bounds cross or the iterations run out;
    the list is the qualities probed, in order. *)
Inductive bisection (size_at : Z -> Z) (target_bytes : Z)
  : nat -> search -> list Z -> search -> Prop :=
| bisection_exhausted s :
    bisection size_at target_bytes 0 s [] s
| bisection_crossed n s mid s' :
    narrow size_at target_bytes s mid s' ->
    quality_high s' < quality_low s' ->
    bisection size_at target_bytes (S n) s [mid] s'
| bisection_continue n s mid s1 qs s' :
    narrow size_at target_bytes s mid s1 ->
    quality_low s1 <= quality_high s1 ->
    bisection size_at target_bytes n s1 qs s' ->
    bisection size_at target_bytes (S n) s (mid :: qs) s'.

(** The whole search: quality 95 is probed first and taken when it fits;
    otherwise the bounds start at 5 and 95 with 5 as fallback. *)
Inductive quality_search (size_at : Z -> Z) (target_bytes : Z) (max_iterations : nat)
  : list Z -> search -> Prop :=
| search_top_fits :
    size_at 95 <= target_bytes ->
    quality_search size_at target_bytes max_iterations [95]
      {| quality_low := 5; quality_high := 95; best_quality := 95;
         found_solution := true |}
| search_bisects qs s :
    target_bytes < size_at 95 ->
    bisection size_at target_bytes max_iterations
      {| quality_low := 5; quality_high := 95; best_quality := 5;
         found_solution := false |} qs s ->
    quality_search size_at target_bytes max_iterations (95 :: qs) s.

(** The quality the output file is written at. *)
Definition final_quality (s : search) : Z :=
  if found_solution s then best_quality s else 5.

(** The recorded best quality is one whose encoding fitted. *)
Definition best_fits (size_at : Z -> Z) (target_bytes : Z) (s : search) : Prop :=
  found_solution s = true -> size_at (best_quality s) <= target_bytes.

(** The lines logged before and after the encoding branch. *)
Definition opening_log (dimensions : option (Z * Z)) : list event :=
  Info "Processing..."
  :: match dimensions with Some _ => [Info "Resizing..."] | None => [] end.

Definition closing_log (dimensions : option (Z * Z)) : list event :=
  match dimensions with Some _ => [Info "Final dimensions"] | None => [] end.

(** The image after the mode handling and the optional resize. *)
Definition prepared (output_format : string) (dimensions : option (Z * Z))
    (img : Image) : Image :=
  match dimensions with
  | Some d => resize (normalize_mode output_format img) d
  | None => normalize_mode output_format img
  end.

(** [if target_size_kb:] is false for [None] and for [0]. *)
Definition truthy (target_size_kb : option Z) : option Z :=
  match target_size_kb with
  | Some 0 => None
  | other => other
  end.

Definition compress_to_target (img : Image) (output_file output_format : string)
    (target_size_kb : Z) (max_iterations : nat) : M unit :=
  let target_bytes := target_size_kb * 1024 in
  info "Compressing to <= target KB..." ;;;
  (if String.eqb (upper output_format) "PNG"
   then
     save_png_file img output_file 9 ;;;
     final_size <- get_file_size output_file ;;
     if target_bytes <? final_size
     then warning "PNG compression limit reached. Try JPEG for smaller sizes."
     else ret tt
   else
     s <- jpeg_search img target_bytes max_iterations ;;
     best <- (if negb (found_solution s)
              then warning "Could not meet target size even at lowest quality." ;;;
                   ret 5
              else ret (best_quality s)) ;;
     save_jpeg_file img output_file best) ;;;
  final_size <- get_file_size output_file ;;
  success "Image processed".

Definition resize_image_body (input_file output_file : string)
    (target_size_kb : option Z) (dimensions : option (Z * Z))
    (output_format : string) (max_iterations : nat) : M (bool * option string) :=
  original_size <- get_file_size input_file ;;
  info "Processing..." ;;;
  img <- image_open input_file ;;
  let img := normalize_mode output_format img in
  img <- match dimensions with
         | Some d => info "Resizing..." ;;; ret (resize img d)
         | None => ret img
         end ;;
  match truthy target_size_kb with
  | Some kb => compress_to_target img output_file output_format kb max_iterations
  | None =>
      save_as_file img output_file output_format 90 ;;;
      final_size <- get_file_size output_file ;;
      success "Image saved"
  end ;;;
  match dimensions with
  | Some _ => final_img <- image_open output_file ;; info "Final dimensions"
  | None => ret tt
  end ;;;
  ret (true, None).

Definition resize_image (input_file output_file : string)
    (target_size_kb : option Z) (dimensions : option (Z * Z))
    (output_format : string) (max_iterations : nat) : M (bool * option string) :=
  try_except
    (resize_image_body input_file output_file target_size_kb dimensions
       output_format max_iterations)
    (fun e =>
       let error_msg := ("Error processing image: " ++ exn_str e)%string in
       error error_msg ;;; ret (false, Some error_msg)).

End WithPillow.

End ImageProcessor.



(** ** [compressor.compress_pdf] *)

Module Compressor.
Import Effects.
Local Open Scope py_scope.

(** The part of PyMuPDF the function calls. *)
Class PyMuPDF := {
  Document : Type;
  (** [fitz.open] on the bytes of a file; [None] when they are no
      document *)
  fitz_open : list byte -> option Document;
  set_metadata_empty : Document -> Document;
  (** [doc.save(path, **args)]: the bytes written and the document
      afterwards *)
  save : Document -> doc_save_args -> list byte * Document
}.

Record settings := {
  dpi : Z;
  jpeg_quality : Z;
  deflate_preset : Z
}.

(** [quality_settings.get(quality, quality_settings['medium'])] *)
Definition quality_settings (quality : string) : settings :=
  if String.eqb quality "high"
  then {| dpi := 200; jpeg_quality := 90; deflate_preset := 1 |}
  else if String.eqb quality "low"
  then {| dpi := 100; jpeg_quality := 75; deflate_preset := 5 |}
  else {| dpi := 150; jpeg_quality := 85; deflate_preset := 3 |}.

(** [current_deflate = min(settings['deflate'] + attempt, 9)] *)
Definition current_deflate (st : settings) (attempt : nat) : Z :=
  Z.min (deflate_preset st + Z.of_nat attempt) 9.

(** The keyword arguments written at the one [doc.save] call site. *)
Definition aggressive : doc_save_args :=
  {| garbage := 4; deflate := true; deflate_images := true;
     deflate_fonts := true; clean := true; pretty := false |}.

(** The locals the function ends with. *)
Record locals := {
  original_size : Q;
  final_size : Q;
  compression_ratio : Q
}.

(** [1.05] *)
Definition tolerance : Q := 105 # 100.

Section WithPyMuPDF.
Context `{PyMuPDF}.

(** [get_file_size(file_path) / (1024 * 1024)] *)
Definition _get_pdf_size_mb (path : string) : M Q :=
  sz <- get_file_size path ;;
  ret (inject_Z sz / inject_Z (1024 * 1024))%Q.

(** The size in MB of a file with contents [b]. *)
Definition size_mb (b : list byte) : Q :=
  (inject_Z (Z.of_nat (length b)) / inject_Z (1024 * 1024))%Q.

(** [result_size <= target_size_mb * 1.05] for a file with contents [b] *)
Definition within_tolerance (target_size_mb : Q) (b : list byte) : bool :=
  Qle_bool (size_mb b) (target_size_mb * tolerance).

Definition document_open (path : string) : M Document :=
  b <- read_file path ;;
  match fitz_open b with
  | Some doc => ret doc
  | None => raise FileDataError
  end.

Definition document_save (doc : Document) (path : string) (a : doc_save_args)
  : M Document :=
  emit (DocSave path a) ;;;
  let '(b, doc') := save doc a in
  write_file path b ;;;
  ret doc'.

(** [_strip_objects] *)
Definition _strip_objects (doc : Document) : M Document :=
  info "Stage 2: Stripping unnecessary objects..." ;;;
  ret (set_metadata_empty doc).

(** [for attempt in range(max_iterations): ...] with [n] iterations
    left, the next one numbered [attempt]. *)
Fixpoint attempts (st : settings) (output_file : string) (target_size_mb : Q)
    (n attempt : nat) (doc : Document) : M Document :=
  match n with
  | O => ret doc
  | S n' =>
      let current_deflate := current_deflate st attempt in
      doc <- document_save doc output_file aggressive ;;
      result_size <- _get_pdf_size_mb output_file ;;
      info "Attempt: result size (target)" ;;;
      if Qle_bool result_size (target_size_mb * tolerance)
      then ret doc
      else attempts st output_file target_size_mb n' (S attempt) doc
  end.

(** The loop seen from outside: the bytes it leaves at the output path
    ([None] when it never saves) and the number of saves it makes. *)
Fixpoint last_attempt (target_size_mb : Q) (n : nat) (doc : Document)
  : option (list byte) :=
  match n with
  | O => None
  | S n' =>
      let '(b, doc') := save doc aggressive in
      if within_tolerance target_size_mb b then Some b
      else match last_attempt target_size_mb n' doc' with
           | Some b' => Some b'
           | None => Some b
           end
  end.

Fixpoint attempts_made (target_size_mb : Q) (n : nat) (doc : Document) : nat :=
  match n with
  | O => O
  | S n' =>
      let '(b, doc') := save doc aggressive in
      if within_tolerance target_size_mb b then 1%nat
      else S (attempts_made target_size_mb n' doc')
  end.

(** What is at the output path when the loop is over: its last save, or
    the file that was there before when it made none. *)
Definition persisted (output_file : string) (target_size_mb : Q) (n : nat)
    (doc : Document) (w : world) : option (list byte) :=
  match last_attempt target_size_mb n doc with
  | Some b => Some b
  | None => fs w !! output_file
  end.

(** The log entries of that many attempts. *)
Definition attempt_log (output_file : string) (k : nat) : list event :=
  concat (replicate k [DocSave output_file aggressive;
                       Info "Attempt: result size (target)"]).

(** [a / b] on floats *)
Definition float_div (a b : Q) : M Q :=
  if Qeq_bool b 0 then raise ZeroDivisionError else ret (a / b)%Q.

(** From [# Final size check] to the end of the [try] block. *)
Definition finish (input_file output_file : string) (target_size_mb : Q)
    (original_size : Q) : M locals :=
  final_size <- _get_pdf_size_mb output_file ;;
  r <- float_div (original_size - final_size)%Q original_size ;;
  let compression_ratio := (r * 100)%Q in
  if negb (Qle_bool final_size original_size)
  then
    warning "Compression increased file size" ;;;
    info "Using original file instead..." ;;;
    copy2 input_file output_file ;;;
    let final_size := original_size in
    let compression_ratio := 0%Q in
    warning "File cannot be compressed further" ;;;
    info "This PDF is already optimally compressed or has uncompressible content" ;;;
    ret {| original_size := original_size; final_size := final_size;
           compression_ratio := compression_ratio |}
  else if Qle_bool final_size (target_size_mb * tolerance)
  then
    success "Compressed" ;;;
    ret {| original_size := original_size; final_size := final_size;
           compression_ratio := compression_ratio |}
  else
    warning "Compression complete but target not fully met" ;;;
    info "Achieved reduction" ;;;
    info "Tip: Try 'low' quality setting for more aggressive compression" ;;;
    ret {| original_size := original_size; final_size := final_size;
           compression_ratio := compression_ratio |}.

(** The lines logged before the loop. *)
Definition start_log (original_size target_size_mb : Q) : list event :=
  [Info "Compressing..."]
  ++ (if Qle_bool original_size target_size_mb
      then [Warning "File is already under target size";
            Info "Performing light compression anyway..."]
      else [])
  ++ [Info "Stage 2: Stripping unnecessary objects...";
      Info "Stage 3: Applying lossless compression to streams..."].

Definition compress_pdf_body (input_file output_file : string)
    (target_size_mb : Q) (quality : string) (max_iterations : nat)
  : M locals :=
  original_size <- _get_pdf_size_mb input_file ;;
  info "Compressing..." ;;;
  (if Qle_bool original_size target_size_mb
   then warning "File is already under target size" ;;;
        info "Performing light compression anyway..."
   else ret tt) ;;;
  let settings := quality_settings quality in
  doc <- document_open input_file ;;
  doc <- _strip_objects doc ;;
  info "Stage 3: Applying lossless compression to streams..." ;;;
  doc <- attempts settings output_file target_size_mb max_iterations 0 doc ;;
  finish input_file output_file target_size_mb original_size.

(** The function returns [(True, None)] on every normal path and
    [(False, error_msg)] from its [except] clause. *)
Definition compress_pdf (input_file output_file : string)
    (target_size_mb : Q) (quality : string) (max_iterations : nat)
  : M (bool * option string) :=
  try_except
    (compress_pdf_body input_file output_file target_size_mb quality
       max_iterations ;;;
     ret (true, None))
    (fun e =>
       let error_msg := ("Error during compression: " ++ exn_str e)%string in
       error error_msg ;;; ret (false, Some error_msg)).

End WithPyMuPDF.

End Compressor.


(** A small codec for the examples: an image is a number of detail units,
    its JPEG at quality [q] takes [q] bytes per unit and its PNG 50 bytes per
    unit. *)
Module Samples.
Import ImageProcessor.

Definition toy_pillow : Pillow :=
  {| Image := nat;
     decode := fun b => Some (length b);
     mode := fun _ => "RGB"%string;
     size := fun _ => (1%Z, 1%Z);
     convert := fun img _ => img;
     paste_on_white := fun img _ => img;
     resize := fun img _ => img;
     jpeg_encode := fun img q => repeat x00 (img * Z.to_nat q);
     png_encode := fun img _ => repeat x00 (img * 50);
     encode_as := fun img _ q => Some (repeat x00 (img * Z.to_nat q)) |}.

(** A small document library for the examples: a document is the bytes of
    its file, an empty file is no document, and saving a document of [n]
    bytes writes [saved_size n] bytes. *)
Definition toy_mupdf (saved_size : nat -> nat) : Compressor.PyMuPDF :=
  {| Compressor.Document := list byte;
     Compressor.fitz_open := fun b => match b with [] => None | _ => Some b end;
     Compressor.set_metadata_empty := fun doc => doc;
     Compressor.save := fun doc _ => (repeat x00 (saved_size (length doc)), doc) |}.

End Samples.

(** ** [concurrent.futures]: the process pool behind [executor.map] *)

Module Executor.

Section Pool.
Context {T R : Type}.

(** A worker finishes task [i]: its result is stored in the future
    submitted at position [i]. *)
Definition complete (fn : T -> R) (tasks : list T) (finished : gmap nat R)
    (i : nat) : gmap nat R :=
  match tasks !! i with
  | Some t => <[i := fn t]> finished
  | None => finished
  end.

(** The futures after the workers have finished tasks in the order
    [completion]; which worker ran which task, and how many workers
    there are, shows only in that order. *)
Definition run_pool (fn : T -> R) (tasks : list T) (completion : list nat)
  : gmap nat R :=
  foldl (complete fn tasks) ∅ completion.

(** [list(executor.map(fn, tasks))]: the results of the futures read in
    submission order; [None] when a future never finishes. *)
Definition executor_map (fn : T -> R) (tasks : list T) (completion : list nat)
  : option (list R) :=
  mapM (fun i => run_pool fn tasks completion !! i) (seq 0 (length tasks)).

End Pool.

End Executor.

(** ** [academic._scan_page_brightness] and [academic.remove_blank_pages] *)

Module Academic.
Import PyRange Executor.

(** A document as the scan sees it: for each page, the [samples] bytes of
    its pixmap. *)
Definition document := list (list byte).

Definition byte_val (b : byte) : N := Byte.to_N b.

(** [img_data[i] > 240 and img_data[i+1] > 240 and img_data[i+2] > 240] *)
Definition bright_at (img_data : list byte) (i : nat) : bool :=
  match img_data !! i, img_data !! (i + 1), img_data !! (i + 2) with
  | Some r, Some g, Some b =>
      (240 <? byte_val r)%N && (240 <? byte_val g)%N && (240 <? byte_val b)%N
  | _, _, _ => false
  end.

(** The body of [for i in range(0, len(img_data), step)], on the pair
    [(bright_pixels, sampled_pixels)]. *)
Definition scan_step (img_data : list byte) (acc : nat * nat) (i : nat)
  : nat * nat :=
  let '(bright_pixels, sampled_pixels) := acc in
  if i + 2 <? length img_data
  then ((if bright_at img_data i then S bright_pixels else bright_pixels),
        S sampled_pixels)
  else acc.

(** [step = 3 * 10] *)
Definition step : nat := 3 * 10.

Definition scan (img_data : list byte) : nat * nat :=
  foldl (scan_step img_data) (0, 0) (range3 0 (length img_data) step).

(** [whiteness >= threshold] with [whiteness = bright_pixels /
    sampled_pixels], for [sampled_pixels] not zero *)
Definition whiteness (bright_pixels sampled_pixels : nat) : Q :=
  Z.of_nat bright_pixels # Pos.of_nat sampled_pixels.

Definition _scan_page_brightness (args : document * nat * Q) : option bool :=
  let '(doc, page_num, threshold) := args in
  match doc !! page_num with
  | None => None
  | Some img_data =>
      let '(bright_pixels, sampled_pixels) := scan img_data in
      if sampled_pixels =? 0 then Some false
      else Some (Qle_bool threshold (whiteness bright_pixels sampled_pixels))
  end.



(** [tasks = [(input_file, i, threshold) for i in range(total_pages)]] *)
Definition tasks (doc : document) (threshold : Q) : list (document * nat * Q) :=
  map (fun i => (doc, i, threshold)) (range (length doc)).

(** [results = list(executor.map(_scan_page_brightness, tasks))] *)
Definition scan_results (doc : document) (threshold : Q) (completion : list nat)
  : option (list (option bool)) :=
  executor_map _scan_page_brightness (tasks doc threshold) completion.

(** [for i, is_blank in enumerate(results): if is_blank:
    blank_pages.append(i + 1)] *)
Definition blank_pages (results : list bool) : list nat :=
  map (fun p => S (fst p)) (filter (fun p => snd p = true) (imap pair results)).

(** The scan of [remove_blank_pages] up to the list of blank pages; a
    worker that raised makes the whole scan raise. *)
Definition scan_blank_pages (doc : document) (threshold : Q)
    (completion : list nat) : option (list nat) :=
  results ← scan_results doc threshold completion;
  flags ← mapM id results;
  Some (blank_pages flags).

(** The pages [remove_blank_pages] copies to the output document. *)
Definition kept_pages (total_pages : nat) (blank : list nat) : list nat :=
  filter (fun page_num => S page_num ∉ blank) (range total_pages).

End Academic.

(** ** [image_processor.compress_image] and what the search guarantees *)

Module ImageWrappers.
Import Effects PyStr ImageProcessor.
Local Open Scope Z_scope.

(** The encoded size does not shrink when the quality grows. *)
Definition monotone_size (size_at : Z -> Z) : Prop :=
  forall q1 q2, q1 <= q2 -> size_at q1 <= size_at q2.

(** What the bounds of the search know, between two iterations: every
    quality above [quality_high] is too large, and the best quality, if
    any, is the one just below [quality_low]. *)
Definition search_inv (size_at : Z -> Z) (target_bytes : Z) (s : search) : Prop :=
  5 <= quality_low s /\ quality_high s <= 95
  /\ quality_low s <= quality_high s + 1
  /\ (forall q, quality_high s < q <= 95 -> target_bytes < size_at q)
  /\ (found_solution s = true ->
      best_quality s = quality_low s - 1 /\ 6 <= quality_low s
      /\ size_at (best_quality s) <= target_bytes)
  /\ (found_solution s = false -> quality_low s = 5).

Section WithPillow.
Context `{Pillow}.

(** [compress_image]: the format follows [preserve_transparency], the
    other arguments of [resize_image] keep their defaults. *)
Definition compress_image (input_file output_file : string) (target_size_kb : Z)
    (preserve_transparency : bool) : M (bool * option string) :=
  let output_format := if preserve_transparency then "PNG"%string else "JPEG"%string in
  resize_image input_file output_file (Some target_size_kb) None output_format 10.

End WithPillow.

End ImageWrappers.

(** ** Which files a computation can change *)

Module Frame.
Import Effects.

(** [m] leaves every file but [out] as it was, whether it returns or
    raises. *)
Definition only_writes {A} (out : string) (m : M A) : Prop :=
  forall w path, path <> out -> fs (m w).2 !! path = fs w !! path.

End Frame.

(** ** [academic._to_roman] *)

Module Roman.
Local Open Scope Z_scope.

Definition lower_ascii (c : ascii) : ascii :=
  let n := nat_of_ascii c in
  if ((65 <=? n) && (n <=? 90))%nat then ascii_of_nat (n + 32) else c.

(** [str.lower] on ASCII text *)
Fixpoint lower (s : string) : string :=
  match s with
  | String.EmptyString => String.EmptyString
  | String.String c s' => String.String (lower_ascii c) (lower s')
  end.

(** [numeral * count]: the empty string when [count] is not positive *)
Fixpoint repeat_str (numeral : string) (count : nat) : string :=
  match count with
  | O => String.EmptyString
  | S n => String.append numeral (repeat_str numeral n)
  end.

Definition values : list (Z * string) :=
  [(1000, "M"); (900, "CM"); (500, "D"); (400, "CD");
   (100, "C"); (90, "XC"); (50, "L"); (40, "XL");
   (10, "X"); (9, "IX"); (5, "V"); (4, "IV"); (1, "I")]%string.

(** The body of [for value, numeral in values], on [(result, num)];
    [if count:] holds for every count but zero. *)
Definition roman_step (acc : string * Z) (vn : Z * string) : string * Z :=
  let '(result, num) := acc in
  let '(value, numeral) := vn in
  let count := num / value in
  if count =? 0 then acc
  else (String.append result (repeat_str numeral (Z.to_nat count)),
        num - value * count).

Definition _to_roman (num : Z) : string :=
  lower (fst (foldl roman_step (String.EmptyString, num) values)).

(** The numeral of the part below 1000: the steps after the first. *)
Definition below_1000 (r : Z) : string :=
  lower (fst (foldl roman_step (String.EmptyString, r) (tail values))).

(** The value of a Roman numeral in lower case, read the usual way: a
    letter before a larger one is subtracted, any other is added. *)
Definition roman_digit (c : ascii) : Z :=
  if Ascii.eqb c "i" then 1
  else if Ascii.eqb c "v" then 5
  else if Ascii.eqb c "x" then 10
  else if Ascii.eqb c "l" then 50
  else if Ascii.eqb c "c" then 100
  else if Ascii.eqb c "d" then 500
  else if Ascii.eqb c "m" then 1000
  else 0.

Fixpoint roman_value (s : string) : Z :=
  match s with
  | String.EmptyString => 0
  | String.String c rest =>
      match rest with
      | String.EmptyString => roman_digit c
      | String.String c' _ =>
          if roman_digit c <? roman_digit c'
          then roman_value rest - roman_digit c
          else roman_value rest + roman_digit c
      end
  end.

End Roman.

(** ** [academic.remove_blank_pages]: the document that is saved *)

Module BlankRemoval.
Import PyRange Executor Academic.

(** The pages of the saved document: the input as it is when no page is
    blank ([if not blank_pages:]), and otherwise the pages of the loop
    [for page_num in range(total_pages): if (page_num + 1) not in
    blank_pages: output_doc.insert_pdf(doc, from_page=page_num,
    to_page=page_num)]. *)
Definition remove_blank_pages (doc : document) (threshold : Q)
    (completion : list nat) : option document :=
  blank ← scan_blank_pages doc threshold completion;
  Some (match blank with
        | [] => doc
        | _ => omap (fun page_num => doc !! page_num)
                 (kept_pages (length doc) blank)
        end).

(** Page [i] scans as blank. *)
Definition is_blank (doc : document) (threshold : Q) (i : nat) : Prop :=
  _scan_page_brightness (doc, i, threshold) = Some true.

#[global] Instance is_blank_dec (doc : document) (threshold : Q) (i : nat) :
  Decision (is_blank doc threshold i) :=
  decide (_scan_page_brightness (doc, i, threshold) = Some true).

End BlankRemoval.

(** ** [compressor.estimate_compression_feasibility] *)

Module Feasibility.
Import Effects PyRange Compressor.
Local Open Scope py_scope.

(** The messages of the estimate; the percentage is the value the format
    string prints with [:.0f]. *)
Inductive message :=
| AlreadyUnder
| TextOnly (required_reduction : Q)
| ImageHeavy (required_reduction : Q)
| NotAchievable (required_reduction : Q)
| ReductionRequired (required_reduction : Q)
| ErrorAnalyzing (e : exn).

Section WithPyMuPDF.
Context `{PyMuPDF}.

(** [page.get_images()] for every page of a document, in page order. *)
Context (get_images : Document -> list (list nat)).

(** [for page_num in range(page_count): page = doc[page_num];
    total_images += len(page.get_images())] *)
Fixpoint count_images (pages : list (list nat)) (page_nums : list nat)
    (total_images : nat) : M nat :=
  match page_nums with
  | [] => ret total_images
  | page_num :: rest =>
      match pages !! page_num with
      | Some images => count_images pages rest (total_images + length images)
      | None => raise IndexError
      end
  end.

Definition estimate_body (input_file : string) (target_size_mb : Q)
  : M (bool * message) :=
  doc <- document_open input_file ;;
  let page_count := length (get_images doc) in
  total_images <- count_images (get_images doc) (range page_count) 0 ;;
  current_size <- _get_pdf_size_mb input_file ;;
  r <- float_div (current_size - target_size_mb)%Q current_size ;;
  let required_reduction := (r * 100)%Q in
  if Qle_bool current_size target_size_mb
  then ret (true, AlreadyUnder)
  else if (total_images =? 0) && negb (Qle_bool required_reduction 30)
  then ret (false, TextOnly required_reduction)
  else if (0 <? total_images) && Qle_bool required_reduction 70
  then ret (true, ImageHeavy required_reduction)
  else if negb (Qle_bool required_reduction 90)
  then ret (false, NotAchievable required_reduction)
  else ret (true, ReductionRequired required_reduction).

Definition estimate_compression_feasibility (input_file : string)
    (target_size_mb : Q) : M (bool * message) :=
  try_except (estimate_body input_file target_size_mb)
    (fun e => ret (false, ErrorAnalyzing e)).

(** The number of images on all pages. *)
Definition image_total (pages : list (list nat)) : nat :=
  foldr (fun images n => length images + n) 0 pages.


End WithPyMuPDF.

End Feasibility.

(** ** The string methods the parsers use, on ASCII text *)

Module PyText.

(** [str(n)] for an integer *)
Definition str_int (n : Z) : string :=
  DecimalString.NilZero.string_of_int (Z.to_int n).

(** [c.isspace()] *)
Definition is_space (c : ascii) : bool :=
  let n := nat_of_ascii c in
  ((9 <=? n) && (n <=? 13)) || ((28 <=? n) && (n <=? 32)).

Fixpoint lstrip (s : string) : string :=
  match s with
  | String.EmptyString => String.EmptyString
  | String.String c s' => if is_space c then lstrip s' else s
  end.

(** [s.strip()] *)
Definition strip (s : string) : string :=
  String.rev (lstrip (String.rev (lstrip s))).

(** [s.split(sep)] for a separator of one character: always at least one
    piece. *)
Fixpoint split (sep : ascii) (s : string) : list string :=
  match s with
  | String.EmptyString => [String.EmptyString]
  | String.String c s' =>
      if Ascii.eqb c sep then String.EmptyString :: split sep s'
      else match split sep s' with
           | piece :: pieces => String.String c piece :: pieces
           | [] => [String.String c String.EmptyString]
           end
  end.

(** [c in s] for one character *)
Fixpoint contains (c : ascii) (s : string) : bool :=
  match s with
  | String.EmptyString => false
  | String.String c' s' => Ascii.eqb c' c || contains c s'
  end.

(** [range(start, stop)] on integers *)
Definition range_Z (start stop : Z) : list Z :=
  map (fun i => (start + Z.of_nat i)%Z) (seq 0 (Z.to_nat (stop - start))).

End PyText.

(** ** [academic.reorder_pages] *)

Module Reorder.
Import Effects PyText.
Local Open Scope py_scope.

(** What [output_doc.save] can do. *)
Inductive saved :=
| Bytes (b : list byte)
| SaveValueError (msg : string)
| SaveError (e : exn).

(** The part of PyMuPDF the function calls, a document seen as the list
    of its pages. *)
Class PdfPages := {
  Page : Type;
  (** [fitz.open] on the bytes of a file; [None] when they are no
      document *)
  open_pages : list byte -> option (list Page);
  (** [output_doc.save(path)] *)
  save_pages : list Page -> saved
}.

Section WithPages.
Context `{PdfPages}.

(** [int(s)]; [None] when it raises [ValueError]. *)
Context (py_int : string -> option Z).

(** [start, end = map(int, part.split('-'))]: anything but two integers
    is a [ValueError]. *)
Definition parse_range (part : string) : option (Z * Z) :=
  match split "-" part with
  | [a; b] => start ← py_int a; end_ ← py_int b; Some (start, end_)
  | _ => None
  end.

(** The pages one part of the order adds to [new_order]. *)
Definition parse_part (part : string) : option (list Z) :=
  let part := strip part in
  if contains "-" part
  then bounds ← parse_range part;
       Some (range_Z (fst bounds) (snd bounds + 1))
  else page ← py_int part; Some [page].

(** [for part in parts: ...] *)
Fixpoint parse_parts (parts : list string) (new_order : list Z)
  : option (list Z) :=
  match parts with
  | [] => Some new_order
  | part :: rest =>
      pages ← parse_part part; parse_parts rest (new_order ++ pages)
  end.

Definition parse_page_order (page_order : string) : option (list Z) :=
  parse_parts (split "," page_order) [].

(** The first page number the validation loop rejects. *)
Definition first_invalid (total_pages : Z) (new_order : list Z) : option Z :=
  List.find (fun page_num => (page_num <? 1)%Z || (total_pages <? page_num)%Z)
    new_order.

(** [for page_num in new_order: output_doc.insert_pdf(doc,
    from_page=page_num - 1, to_page=page_num - 1)]; the validation loop
    has made sure that the page exists. *)
Definition insert_pages (doc : list Page) (new_order : list Z) : list Page :=
  foldl (fun output_doc page_num =>
           match doc !! Z.to_nat (page_num - 1) with
           | Some page => output_doc ++ [page]
           | None => output_doc
           end) [] new_order.

Definition invalid_page_msg (page_num total_pages : Z) : string :=
  ("Invalid page number: " ++ str_int page_num ++ " (PDF has "
   ++ str_int total_pages ++ " pages)")%string.

Definition invalid_format_msg (page_order : string) : string :=
  ("Invalid page order format: " ++ page_order
   ++ ". Use format like '1,3,2,4-10'")%string.

(** The [except ValueError] clause. *)
Definition on_value_error (page_order : string) : M (bool * option string) :=
  let error_msg := invalid_format_msg page_order in
  error error_msg ;;; ret (false, Some error_msg).

Definition open_document (path : string) : M (list Page) :=
  b <- read_file path ;;
  match open_pages b with
  | Some doc => ret doc
  | None => raise FileDataError
  end.

Definition reorder_pages (input_file output_file page_order : string)
  : M (bool * option string) :=
  try_except
    (info "Reordering pages..." ;;;
     doc <- open_document input_file ;;
     let total_pages := Z.of_nat (length doc) in
     match parse_page_order page_order with
     | None => on_value_error page_order
     | Some new_order =>
         match first_invalid total_pages new_order with
         | Some page_num =>
             let error_msg := invalid_page_msg page_num total_pages in
             error error_msg ;;; ret (false, Some error_msg)
         | None =>
             info "New order" ;;;
             let output_doc := insert_pages doc new_order in
             match save_pages output_doc with
             | Bytes b =>
                 write_file output_file b ;;;
                 success "Pages reordered" ;;;
                 ret (true, None)
             | SaveValueError _ => on_value_error page_order
             | SaveError e => raise e
             end
         end
     end)
    (fun e =>
       let error_msg := ("Error reordering pages: " ++ exn_str e)%string in
       error error_msg ;;; ret (false, Some error_msg)).

End WithPages.

End Reorder.

(** A small page library and integer parser for the examples: a page is
    one byte of the file, a document without pages cannot be saved, and
    integers are written in plain decimal. *)
Module ReorderSamples.
Import Reorder.

Definition toy_pages : PdfPages :=
  {| Page := byte;
     open_pages := fun b => Some b;
     save_pages := fun pages =>
       match pages with
       | [] => SaveValueError "cannot save with zero pages"
       | _ => Bytes pages
       end |}.

Definition digits_int (s : string) : option Z :=
  option_map Z.of_int (DecimalString.NilZero.int_of_string s).

End ReorderSamples.

(** ** The page labels of [academic.add_page_numbers] *)

Module PageNumbers.
Import PyText Roman.
Local Open Scope Z_scope.

(** [chr(i)] for a code below 128; a negative code is a [ValueError]. *)
Definition chr (i : Z) : option string :=
  if i <? 0 then None
  else Some (String.String (ascii_of_nat (Z.to_nat i)) String.EmptyString).

(** The [# Format number] block: the text printed on the page numbered
    [current_num]; [None] when [chr] raises. *)
Definition page_text (format_style : string) (current_num : Z)
  : option string :=
  if String.eqb format_style "roman" then Some (_to_roman current_num)
  else if String.eqb format_style "alpha"
  then if current_num <=? 26 then chr (96 + current_num)
       else Some (str_int current_num)
  else Some (str_int current_num).

(** [for page_num, page in enumerate(doc): current_num = start_number +
    page_num]: the texts of the pages of a document, in page order. *)
Definition page_texts (format_style : string) (start_number : Z)
    (total_pages : nat) : list (option string) :=
  map (fun page_num => page_text format_style (start_number + Z.of_nat page_num))
    (seq 0 total_pages).

End PageNumbers.

(** ** [academic.compare_pdfs] *)

Module Compare.
Import Effects PyText PyRange Reorder.
Local Open Scope py_scope.

(** What the comparison asks of a page. *)
Class PageMarks `{PdfPages} := {
  (** [page.get_text()] *)
  get_text : Page -> string;
  (** [shape = out_page.new_shape(); shape.draw_rect(out_page.rect);
      shape.finish(color=(1, 0, 0), width=5); shape.commit()] *)
  draw_red_border : Page -> Page;
  (** [out_page.insert_text((50, 50), text, color=(1, 0, 0),
      fontsize=14)] *)
  insert_red_text : Page -> string -> Page
}.

(** The line feed character. *)
Definition nl : string := String.String (ascii_of_nat 10) String.EmptyString.

Section WithPages.
Context `{PageMarks}.

(** [original_file.name] and the like, and
    [output_file.with_name(f"{output_file.stem}_report.txt")]. *)
Context (name : string -> string) (summary_path : string -> string).

(** The locals the page loop updates; [output_doc] starts as a copy of
    the modified document ([output_doc.insert_pdf(doc2)]). *)
Record progress := {
  output_doc : list Page;
  differences_found : nat;
  diff_report : list string
}.

Definition changed_line (i : nat) : string :=
  ("Page " ++ str_int (Z.of_nat i + 1) ++ ": Text content changed")%string.

Definition mark (out_page : Page) : Page :=
  insert_red_text (draw_red_border out_page) "CHANGES DETECTED ON THIS PAGE".

(** The body of [for i in range(min_pages)]. *)
Definition compare_page (doc1 doc2 : list Page) (st : progress) (i : nat)
  : M progress :=
  match doc1 !! i, doc2 !! i, output_doc st !! i with
  | Some page1, Some page2, Some out_page =>
      if String.eqb (get_text page1) (get_text page2) then ret st
      else ret {| output_doc := <[i := mark out_page]> (output_doc st);
                  differences_found := S (differences_found st);
                  diff_report := diff_report st ++ [changed_line i] |}
  | _, _, _ => raise IndexError
  end.

Fixpoint compare_pages (doc1 doc2 : list Page) (indices : list nat)
    (st : progress) : M progress :=
  match indices with
  | [] => ret st
  | i :: rest =>
      st <- compare_page doc1 doc2 st i ;;
      compare_pages doc1 doc2 rest st
  end.

Definition page_count_line (doc1 doc2 : list Page) : string :=
  ("Page count changed: " ++ str_int (Z.of_nat (length doc1)) ++ " vs "
   ++ str_int (Z.of_nat (length doc2)))%string.

(** The text written to the summary file. *)
Definition summary_text (original_file modified_file : string)
    (diff_report : list string) : string :=
  ("Comparison Report for " ++ name original_file ++ " vs "
   ++ name modified_file ++ nl
   ++ Roman.repeat_str "=" 50 ++ nl ++ nl
   ++ match diff_report with
      | [] => "No significant text differences found." ++ nl
      | _ => foldr (fun line rest => "- " ++ line ++ nl ++ rest)
               String.EmptyString diff_report
      end)%string.

Definition compare_pdfs (original_file modified_file output_file : string)
  : M (bool * option string) :=
  try_except
    (info "Comparing..." ;;;
     doc1 <- open_document original_file ;;
     doc2 <- open_document modified_file ;;
     report <-
       (if negb (length doc1 =? length doc2)
        then warning "Page count differs" ;;; ret [page_count_line doc1 doc2]
        else ret []) ;;
     let min_pages := min (length doc1) (length doc2) in
     st <- compare_pages doc1 doc2 (range min_pages)
             {| output_doc := doc2; differences_found := 0;
                diff_report := report |} ;;
     match save_pages (output_doc st) with
     | Bytes b =>
         write_file output_file b ;;;
         write_file (summary_path output_file)
           (String.list_byte_of_string
              (summary_text original_file modified_file
                 (diff_report st))) ;;;
         (if 0 <? differences_found st
          then success "Found differences. Visual report saved" ;;;
               info "Text summary saved"
          else success "No differences found. Saved copy") ;;;
         ret (true, None)
     | SaveValueError msg =>
         let error_msg := ("Error comparing PDFs: " ++ msg)%string in
         error error_msg ;;; ret (false, Some error_msg)
     | SaveError e => raise e
     end)
    (fun e =>
       let error_msg := ("Error comparing PDFs: " ++ exn_str e)%string in
       error error_msg ;;; ret (false, Some error_msg)).

(** Whether page [i] exists in both documents with different text. *)
Definition changed (doc1 doc2 : list Page) (i : nat) : bool :=
  match doc1 !! i, doc2 !! i with
  | Some page1, Some page2 =>
      negb (String.eqb (get_text page1) (get_text page2))
  | _, _ => false
  end.

(** The modified document with its changed pages marked. *)
Definition marked (doc1 doc2 : list Page) : list Page :=
  imap (fun i page2 => if changed doc1 doc2 i then mark page2 else page2) doc2.

(** The output document after the pages below [k] have been compared. *)
Definition marked_upto (doc1 doc2 : list Page) (k : nat) : list Page :=
  imap (fun i page2 =>
          if (i <? k) && changed doc1 doc2 i then mark page2 else page2) doc2.

(** The indices of the changed pages, in page order. *)
Definition changed_pages (doc1 doc2 : list Page) : list nat :=
  filter (fun i => changed doc1 doc2 i = true)
    (seq 0 (min (length doc1) (length doc2))).

(** The lines of the report, and the terminal messages, of a comparison
    that succeeds. *)
Definition report_lines (doc1 doc2 : list Page) : list string :=
  (if length doc1 =? length doc2 then [] else [page_count_line doc1 doc2])
  ++ map changed_line (changed_pages doc1 doc2).

Definition compare_log (doc1 doc2 : list Page) : list event :=
  [Info "Comparing..."]
  ++ (if length doc1 =? length doc2 then []
      else [Warning "Page count differs"])
  ++ (if 0 <? length (changed_pages doc1 doc2)
      then [Success "Found differences. Visual report saved";
            Info "Text summary saved"]
      else [Success "No differences found. Saved copy"]).

End WithPages.

End Compare.

(** Marks for the examples: the text of a one-byte page is that byte, a
    border changes nothing and the inserted text turns the page into
    [xff]. *)
Module CompareSamples.
Import Reorder Compare ReorderSamples.

Definition toy_marks : PageMarks (H := toy_pages) :=
  @Build_PageMarks toy_pages
    (fun page : byte =>
       String.String (Ascii.ascii_of_byte page) String.EmptyString)
    (fun page : byte => page)
    (fun (_ : byte) (_ : string) => xff).

End CompareSamples.

(** ** [image_processor._process_pdf_page_chunk] and [pdf_to_images] *)

Module PdfToImages.
Import Effects PyStr PyText PyRange PageChunks Reorder.
Local Open Scope py_scope.

(** What the workers ask of PyMuPDF and Pillow for one page. *)
Class Renderer `{PdfPages} := {
  (** [pix = page.get_pixmap(matrix=fitz.Matrix(dpi / 72, dpi / 72))]
      followed by [pix.save(output_path)]: the bytes written *)
  pixmap_png : Page -> Z -> list byte;
  (** the same pixmap through [Image.frombytes("RGB", ...)] and
      [img.save(output_path, format=output_format, quality=90)]; [None]
      when Pillow knows no such format *)
  pixmap_encode : Page -> Z -> string -> option (list byte)
}.

Section WithRenderer.
Context `{Renderer}.

(** [Path(p).stem] and [output_dir / name]. *)
Context (stem : string -> string) (joinpath : string -> string -> string).

(** [output_dir / f"{Path(input_pdf_path).stem}_page_{page_num +
    1}.{output_format.lower()}"] *)
Definition output_path (input_pdf_path output_dir output_format : string)
    (page_num : nat) : string :=
  joinpath output_dir
    (stem input_pdf_path ++ "_page_" ++ str_int (Z.of_nat page_num + 1)
     ++ "." ++ Roman.lower output_format)%string.

(** The body of [for page_num in page_indices]. *)
Definition render_page (doc : list Page)
    (input_pdf_path output_dir output_format : string) (dpi : Z)
    (page_num : nat) : M unit :=
  match doc !! page_num with
  | None => raise IndexError
  | Some page =>
      let output_path :=
        output_path input_pdf_path output_dir output_format page_num in
      if String.eqb (upper output_format) "PNG"
      then write_file output_path (pixmap_png page dpi)
      else match pixmap_encode page dpi output_format with
           | Some b => write_file output_path b
           | None => raise KeyError
           end
  end.

Fixpoint render_pages (doc : list Page)
    (input_pdf_path output_dir output_format : string) (dpi : Z)
    (page_indices : list nat) (processed_count : nat) : M nat :=
  match page_indices with
  | [] => ret processed_count
  | page_num :: rest =>
      render_page doc input_pdf_path output_dir output_format dpi page_num ;;;
      render_pages doc input_pdf_path output_dir output_format dpi rest
        (S processed_count)
  end.

Definition _process_pdf_page_chunk
    (args : string * string * string * Z * list nat) : M nat :=
  let '(input_pdf_path, output_dir, output_format, dpi, page_indices) := args in
  doc <- open_document input_pdf_path ;;
  render_pages doc input_pdf_path output_dir output_format dpi page_indices 0.

(** The futures of the submitted chunks once the workers are done: the
    workers are taken to run one after the other in the order
    [completion] in which they finish, each to its end or to its
    exception, whatever happened to the others. *)
Fixpoint run_workers (chunks : list (string * string * string * Z * list nat))
    (completion : list nat) (futures : gmap nat (res nat)) (w : world)
  : gmap nat (res nat) * world :=
  match completion with
  | [] => (futures, w)
  | k :: rest =>
      match chunks !! k with
      | Some chunk =>
          let '(r, w') := _process_pdf_page_chunk chunk w in
          run_workers chunks rest (<[k := r]> futures) w'
      | None => run_workers chunks rest futures w
      end
  end.

(** [for future in concurrent.futures.as_completed(futures): count =
    future.result(); completed_pages += count]; a future of a worker that
    raised raises again in [result()]. *)
Fixpoint as_completed (futures : gmap nat (res nat)) (completion : list nat)
    (completed_pages : nat) : M nat :=
  match completion with
  | [] => ret completed_pages
  | k :: rest =>
      match futures !! k with
      | Some (Ret count) => as_completed futures rest (completed_pages + count)
      | Some (Raise e) => raise e
      | None => as_completed futures rest completed_pages
      end
  end.

(** [completion] is the order in which the submitted chunks finish. *)
Definition pdf_to_images_body (input_pdf output_dir output_format : string)
    (dpi : Z) (cpu_count : option nat) (completion : list nat) : M nat :=
  info "Extracting pages..." ;;;
  doc <- open_document input_pdf ;;
  let page_count := length doc in
  let chunks :=
    map (fun page_indices =>
           (input_pdf, output_dir, output_format, dpi, page_indices))
      (pdf_to_images_chunks page_count cpu_count) in
  completed_pages <-
    (fun w => let '(futures, w') := run_workers chunks completion ∅ w in
              as_completed futures completion 0 w') ;;
  success "Extracted pages" ;;;
  ret completed_pages.

Definition pdf_to_images (input_pdf output_dir output_format : string)
    (dpi : Z) (cpu_count : option nat) (completion : list nat)
  : M (bool * option string) :=
  try_except
    (pdf_to_images_body input_pdf output_dir output_format dpi cpu_count
       completion ;;;
     ret (true, None))
    (fun e =>
       let error_msg :=
         ("Error extracting images from PDF: " ++ exn_str e)%string in
       error error_msg ;;; ret (false, Some error_msg)).

(** The bytes the worker writes for a page. *)
Definition page_image (output_format : string) (dpi : Z) (page : Page)
  : option (list byte) :=
  if String.eqb (upper output_format) "PNG" then Some (pixmap_png page dpi)
  else pixmap_encode page dpi output_format.

(** Every page of the document can be rendered in the chosen format. *)
Definition renderable (doc : list Page) (output_format : string) (dpi : Z)
  : Prop :=
  forall page, page ∈ doc -> is_Some (page_image output_format dpi page).

(** The pages of the chunks with the indices [completion], in that
    order, and the futures once those chunks are done. *)
Definition pages_of (chunks : list (list nat)) (completion : list nat)
  : list nat :=
  completion ≫= (fun k => default [] (chunks !! k)).

Definition done_futures (chunks : list (list nat)) (completion : list nat)
    (futures : gmap nat (res nat)) : gmap nat (res nat) :=
  foldl (fun futures k =>
           match chunks !! k with
           | Some page_indices => <[k := Ret (length page_indices)]> futures
           | None => futures
           end) futures completion.

(** The files after the images of the pages [pages] have been written. *)
Definition written (doc : list Page)
    (input_pdf_path output_dir output_format : string) (dpi : Z)
    (pages : list nat) (files : gmap string (list byte))
  : gmap string (list byte) :=
  foldl (fun files page_num =>
           match doc !! page_num ≫= page_image output_format dpi with
           | Some b =>
               <[output_path input_pdf_path output_dir output_format page_num
                 := b]> files
           | None => files
           end) files pages.

End WithRenderer.

End PdfToImages.

(** A renderer for the examples: the PNG of a one-byte page is that
    byte, its JPEG is the byte twice, and no other format is known. *)
Module PdfToImagesSamples.
Import Reorder PdfToImages ReorderSamples.

Definition toy_renderer : Renderer (H := toy_pages) :=
  @Build_Renderer toy_pages
    (fun (page : byte) (_ : Z) => [page])
    (fun (page : byte) (_ : Z) (output_format : string) =>
       if String.eqb output_format "JPEG" then Some [page; page] else None).

Definition toy_stem (path : string) : string := "doc".

Definition toy_joinpath (output_dir name : string) : string :=
  (output_dir ++ "/" ++ name)%string.

End PdfToImagesSamples.

(** ** [utils.format_file_size] *)

Module Utils.

Section Format.

(** [f"{x:.2f}"] *)
Context (format_2f : Q -> string).

Definition units : list string := ["B"; "KB"; "MB"; "GB"]%string.

(** [for unit in [...]: if size_bytes < 1024.0: return ...; size_bytes /=
    1024.0], and the [return] after the loop. *)
Fixpoint format_loop (units : list string) (size_bytes : Q) : string :=
  match units with
  | [] => (format_2f size_bytes ++ " TB")%string
  | unit :: rest =>
      if negb (Qle_bool 1024 size_bytes)
      then (format_2f size_bytes ++ " " ++ unit)%string
      else format_loop rest (size_bytes / 1024)%Q
  end.

Definition format_file_size (size_bytes : Z) : string :=
  format_loop units (inject_Z size_bytes).

(** The unit names by the number of divisions by 1024. *)
Definition unit_name (k : nat) : string :=
  nth k units "TB"%string.

End Format.

(** [utils.safe_filename] *)
Section SafeFilename.

(** [output_dir / name], [path.stem] and [path.suffix]. *)
Context (joinpath : string -> string -> string)
  (stem suffix : string -> string).

(** The paths for which [Path.exists()] holds. *)
Context (existing : gset string).

(** [output_dir / f"{base}_{counter}{ext}"] *)
Definition numbered (output_dir base ext : string) (counter : nat) : string :=
  joinpath output_dir
    (base ++ "_" ++ PyText.str_int (Z.of_nat counter) ++ ext)%string.

(** [while output_path.exists(): ...], with a bound on the number of
    tests. *)
Fixpoint safe_filename_loop (fuel : nat) (output_dir base ext : string)
    (counter : nat) (output_path : string) : option string :=
  match fuel with
  | O => None
  | S fuel' =>
      if bool_decide (output_path ∈ existing)
      then safe_filename_loop fuel' output_dir base ext (S counter)
             (numbered output_dir base ext counter)
      else Some output_path
  end.

Definition safe_filename (fuel : nat) (filename output_dir : string)
  : option string :=
  let output_path := joinpath output_dir filename in
  if negb (bool_decide (output_path ∈ existing)) then Some output_path
  else
    let base := stem output_path in
    let ext := suffix output_path in
    safe_filename_loop fuel output_dir base ext 1 output_path.

End SafeFilename.

End Utils.

(** ** [image_processor._process_single_image] and [batch_image_resize] *)

Module Batch.
Import Effects PyStr PyText ImageProcessor.
Local Open Scope py_scope.

Section WithPillow.
Context `{Pillow}.

(** [input_dir.glob(pattern)], [path.stem] and [output_dir / name]. *)
Context (glob : string -> string -> list string) (stem : string -> string)
  (joinpath : string -> string -> string).

Definition task : Type :=
  string * string * option Z * option (Z * Z) * string.

Definition _process_single_image (args : task) : M (bool * option string) :=
  let '(img_file, output_dir, target_size_kb, dimensions, output_format) :=
    args in
  let output_path :=
    joinpath output_dir (stem img_file ++ "." ++ Roman.lower output_format)%string in
  resize_image img_file output_path target_size_kb dimensions output_format 10.

Definition image_extensions : list string :=
  ["*.jpg"; "*.jpeg"; "*.png"; "*.bmp"; "*.gif"]%string.

(** [for ext in image_extensions: image_files.extend(input_dir.glob(ext));
    image_files.extend(input_dir.glob(ext.upper()))] *)
Definition find_images (input_dir : string) : list string :=
  foldl (fun image_files ext =>
           (image_files ++ glob input_dir ext) ++ glob input_dir (upper ext))
    [] image_extensions.

(** The futures of the submitted tasks once the workers are done, the
    workers taken to run one after the other in the order [completion]
    in which they finish. *)
Fixpoint run_tasks (tasks : list task) (completion : list nat)
    (futures : gmap nat (res (bool * option string))) (w : world)
  : gmap nat (res (bool * option string)) * world :=
  match completion with
  | [] => (futures, w)
  | k :: rest =>
      match tasks !! k with
      | Some args =>
          let '(r, w') := _process_single_image args w in
          run_tasks tasks rest (<[k := r]> futures) w'
      | None => run_tasks tasks rest futures w
      end
  end.


(** [list(executor.map(...))] reads the futures in submission order; the
    first one that holds an exception raises it. *)
Fixpoint results_of (futures : list (res (bool * option string)))
  : M (list (bool * option string)) :=
  match futures with
  | [] => ret []
  | Ret r :: rest => results <- results_of rest ;; ret (r :: results)
  | Raise e :: _ => raise e
  end.

(** [for success_flag, _ in results: ...] on [(processed, failed)] *)
Definition tally (results : list (bool * option string)) : nat * nat :=
  foldl (fun (counts : nat * nat) (result : bool * option string) =>
           if fst result then (S (fst counts), snd counts)
           else (fst counts, S (snd counts)))
    (0, 0) results.

(** [None] when some submitted task never finishes, so that the result
    list is never complete. *)
Definition batch_image_resize (input_dir output_dir : string)
    (target_size_kb : option Z) (dimensions : option (Z * Z))
    (output_format : string) (completion : list nat) (w : world)
  : option (res (bool * option string) * world) :=
  let handler := fun e =>
    let error_msg := ("Error in batch processing: " ++ exn_str e)%string in
    error error_msg ;;; ret (false, Some error_msg) in
  let image_files := find_images input_dir in
  match image_files with
  | [] =>
      let error_msg := ("No images found in " ++ input_dir)%string in
      Some ((error error_msg ;;; ret (false, Some error_msg)) w)
  | _ =>
      let w := add_log w [Info "Processing images..."] in
      let tasks :=
        map (fun f => (f, output_dir, target_size_kb, dimensions, output_format))
          image_files in
      let '(futures, w) := run_tasks tasks completion ∅ w in
      futures ← mapM (fun k => futures !! k) (seq 0 (length tasks));
      Some
        (try_except
           (results <- results_of futures ;;
            let '(processed, failed) := tally results in
            (if failed =? 0
             then success "Batch processing complete"
             else warning "Batch processing complete: some failed") ;;;
            ret (true, None))
           handler w)
  end.

End WithPillow.

End Batch.

(** A directory listing for the examples: one JPEG file. *)
Module BatchSamples.

Definition toy_glob (input_dir pattern : string) : list string :=
  if String.eqb pattern "*.jpg" then [(input_dir ++ "/a.jpg")%string] else [].

End BatchSamples.

(** * Properties *)

Module PyRangeFacts.
Import PyRange.

Lemma range_loop_shift fuel i stop step k :
  0 < step -> stop - i <= fuel ->
  range_loop fuel (i + k) (stop + k) step = map (Nat.add k) (range_loop fuel i stop step).
Proof.
  revert i. induction fuel as [|fuel IH]; intros i Hs Hf; simpl; [done|].
  destruct (Nat.ltb_spec i stop) as [Hlt|Hge].
  - destruct (Nat.ltb_spec (i + k) (stop + k)); [|lia].
    simpl. f_equal; [lia|].
    replace (i + k + step) with (i + step + k) by lia.
    apply IH; lia.
  - destruct (Nat.ltb_spec (i + k) (stop + k)); [lia|done].
Qed.

(** More fuel than the loop needs changes nothing. *)
Lemma range_loop_fuel stop step f1 f2 i :
  0 < step -> stop - i <= f1 -> stop - i <= f2 ->
  range_loop f1 i stop step = range_loop f2 i stop step.
Proof.
  intros Hs. revert f2 i.
  induction f1 as [|f1 IH]; intros f2 i H1 H2; destruct f2 as [|f2]; simpl;
    try done.
  - destruct (Nat.ltb_spec i stop); [lia|done].
  - destruct (Nat.ltb_spec i stop); [lia|done].
  - destruct (Nat.ltb_spec i stop); [|done]. f_equal. apply IH; lia.
Qed.

(** Unfolding one iteration: the first index, then the range restarted
    one step further. *)
Lemma range3_cons stop step :
  0 < step -> 0 < stop ->
  range3 0 stop step = 0 :: map (Nat.add step) (range3 0 (stop - step) step).
Proof.
  intros Hs Hp. unfold range3. rewrite !Nat.sub_0_r.
  destruct stop as [|stop]; [lia|]. simpl. f_equal.
  destruct (Nat.le_gt_cases step (S stop)) as [Hle|Hgt].
  - rewrite <- (range_loop_shift (S stop - step) 0 (S stop - step) step step) by lia.
    replace (S stop - step + step) with (S stop) by lia.
    apply range_loop_fuel; lia.
  - replace (S stop - step) with 0 by lia. simpl.
    destruct stop as [|stop']; simpl; [done|].
    destruct (Nat.ltb_spec step (S (S stop'))); [lia|done].
Qed.

Lemma range3_nil step : range3 0 0 step = [].
Proof. done. Qed.

End PyRangeFacts.

Module PageChunksFacts.
Import PyRange PyRangeFacts PageChunks.

Lemma ceil_div_succ stop step :
  0 < step -> 0 < stop -> ceil_div stop step = S (ceil_div (stop - step) step).
Proof.
  intros Hs Hp. unfold ceil_div.
  destruct (Nat.le_gt_cases step stop) as [Hle|Hgt].
  - replace (stop + step - 1) with ((stop - step + step - 1) + 1 * step) by lia.
    rewrite Nat.div_add by lia. lia.
  - replace (stop - step) with 0 by lia. simpl.
    rewrite (Nat.div_small (step - 1) step) by lia.
    symmetry. apply (Nat.div_unique _ _ _ (stop - 1)); lia.
Qed.

Lemma range3_multiples stop step :
  0 < step ->
  range3 0 stop step = map (fun k => k * step) (seq 0 (ceil_div stop step)).
Proof.
  intros Hs. induction (lt_wf stop) as [stop _ IH].
  destruct stop as [|stop].
  - unfold ceil_div. simpl. rewrite Nat.div_small by lia. done.
  - rewrite range3_cons by lia.
    rewrite (ceil_div_succ (S stop) step) by lia.
    rewrite IH by lia. simpl. f_equal.
    rewrite <- seq_shift, !map_map. apply map_ext. intros k. lia.
Qed.

Lemma map_add_seq k i n : map (Nat.add k) (seq i n) = seq (k + i) n.
Proof.
  revert i. induction n as [|n IH]; intros i; simpl; [done|].
  f_equal. rewrite IH. f_equal. lia.
Qed.

Lemma make_chunks_cons page_count size :
  0 < size -> 0 < page_count ->
  make_chunks page_count size
  = seq 0 (Nat.min size page_count)
      :: map (map (Nat.add size)) (make_chunks (page_count - size) size).
Proof.
  intros Hs Hp. unfold make_chunks. rewrite range3_cons by done.
  cbn [map]. f_equal; [unfold page_indices; f_equal; lia|].
  rewrite !map_map. apply map_ext. intros i.
  unfold page_indices. rewrite map_add_seq.
  f_equal. lia.
Qed.

Lemma make_chunks_concat page_count size :
  0 < size -> concat (make_chunks page_count size) = seq 0 page_count.
Proof.
  intros Hs. induction (lt_wf page_count) as [page_count _ IH].
  destruct page_count as [|n]; [done|].
  rewrite make_chunks_cons by lia. simpl concat.
  rewrite <- (concat_map (Nat.add size)), IH by lia.
  rewrite map_add_seq, Nat.add_0_r.
  replace (seq 0 (S n)) with (seq 0 (Nat.min size (S n) + (S n - size)))
    by (f_equal; lia).
  rewrite seq_app. f_equal.
  destruct (Nat.le_gt_cases size (S n)).
  - f_equal. lia.
  - replace (S n - size) with 0 by lia. done.
Qed.

Lemma make_chunks_lookup page_count size k :
  0 < size -> k < ceil_div page_count size ->
  make_chunks page_count size !! k
  = Some (seq (k * size) (Nat.min size (page_count - k * size))).
Proof.
  intros Hs Hk. unfold make_chunks. rewrite range3_multiples by done.
  rewrite map_map, list_lookup_fmap, lookup_seq_lt by done. simpl.
  unfold page_indices. do 2 f_equal. lia.
Qed.

Lemma make_chunks_length page_count size :
  0 < size -> length (make_chunks page_count size) = ceil_div page_count size.
Proof.
  intros Hs. unfold make_chunks.
  rewrite range3_multiples, !length_map, length_seq by done. done.
Qed.

(** [k] full chunks fit strictly below the ceiling. *)
Lemma ceil_div_above page_count size k :
  0 < size -> k < ceil_div page_count size -> k * size < page_count.
Proof.
  unfold ceil_div. intros Hs Hk.
  destruct (Nat.le_gt_cases page_count (k * size)) as [Hle|]; [|done].
  assert (H : (page_count + size - 1) / size <= ((size - 1) + k * size) / size)
    by (apply Nat.Div0.div_le_mono; lia).
  rewrite Nat.div_add, (Nat.div_small (size - 1)) in H by lia. lia.
Qed.

Lemma ceil_div_below page_count size k :
  0 < size -> S k < ceil_div page_count size -> S k * size < page_count.
Proof. intros. by apply ceil_div_above. Qed.

Lemma num_cores_pos cpu_count : 0 < num_cores cpu_count.
Proof. destruct cpu_count as [[|n]|]; simpl; lia. Qed.

Lemma chunk_size_pos page_count cores : 0 < chunk_size page_count cores.
Proof. unfold chunk_size. lia. Qed.

(** The chunk count meets the worker count only when the worker count
    divides the page count. *)
Lemma chunk_count_cores page_count cores :
  0 < page_count -> 0 < cores ->
  ceil_div page_count (chunk_size page_count cores) = cores
  <-> page_count mod cores = 0.
Proof.
  intros Hp Hc. unfold chunk_size, ceil_div.
  pose proof (Nat.div_mod_eq page_count cores) as Hdm.
  pose proof (Nat.mod_upper_bound page_count cores ltac:(lia)) as Hr.
  set (q := page_count / cores) in *. set (r := page_count mod cores) in *.
  destruct q as [|q'] eqn:Hq.
  - simpl Nat.max. rewrite Nat.div_1_r. lia.
  - replace (Nat.max 1 (S q')) with (S q') by lia.
    replace (page_count + S q' - 1) with ((r + q') + cores * S q') by lia.
    rewrite Nat.div_add by lia.
    split.
    + intros H. assert (Hz : (r + q') / S q' = 0) by lia.
      apply Nat.div_small_iff in Hz; lia.
    + intros ->. rewrite Nat.div_small by lia. lia.
Qed.

End PageChunksFacts.

(** ** Page chunks of [pdf_to_images] *)

Module PageChunksClaims.
Import PyRange PyRangeFacts PageChunks PageChunksFacts.

Lemma pdf_to_images_chunks_cover page_count cpu_count :
  concat (pdf_to_images_chunks page_count cpu_count) = seq 0 page_count.
Proof. apply make_chunks_concat, chunk_size_pos. Qed.

(** C7. For every page count and every positive chunk size, the chunks
    built by the loop of [pdf_to_images], laid end to end, are exactly
    [0, 1, ..., page_count - 1]: every index once, none missing. *)
Theorem chunks_cover_exactly_once (page_count size : nat) :
  0 < size ->
  concat (make_chunks page_count size) = seq 0 page_count
  /\ NoDup (concat (make_chunks page_count size))
  /\ (forall i, i ∈ concat (make_chunks page_count size) <-> i < page_count).
Proof.
  intros Hs. rewrite make_chunks_concat by done.
  split; [done|]. split; [apply NoDup_seq|].
  intros i. rewrite elem_of_seq. lia.
Qed.

Lemma chunks_cover_exactly_once_witness :
  0 < 3
  /\ concat (make_chunks 7 3) = seq 0 7
  /\ NoDup (concat (make_chunks 7 3))
  /\ (forall i, i ∈ concat (make_chunks 7 3) <-> i < 7).
Proof. split; [lia | apply (chunks_cover_exactly_once 7 3); lia]. Defined.

(** C6, as stated, fails: ten pages on four cores are cut into five
    chunks of two pages, not four chunks with a longer last one. *)
Lemma chunk_count_is_not_worker_count :
  pdf_to_images_chunks 10 (Some 4) = [[0; 1]; [2; 3]; [4; 5]; [6; 7]; [8; 9]]
  /\ length (pdf_to_images_chunks 10 (Some 4)) <> num_cores (Some 4).
Proof. split; [reflexivity | vm_compute; lia]. Qed.

(** C6, amended. For every page count of at least one, [pdf_to_images]
    cuts [0, page_count) into [ceil(page_count / chunk_size)] contiguous
    chunks, where [chunk_size = max(1, page_count // num_cores)]: chunk
    [k] starts at [k * chunk_size]; every chunk but the last holds
    [chunk_size] indices and the last holds the 1 to [chunk_size] that
    remain; there are as many chunks as cores exactly when the core count
    divides the page count. *)
Theorem chunk_partition_shape (page_count : nat) (cpu_count : option nat) :
  1 <= page_count ->
  let cores := num_cores cpu_count in
  let size := chunk_size page_count cores in
  let chunks := pdf_to_images_chunks page_count cpu_count in
  length chunks = ceil_div page_count size
  /\ concat chunks = seq 0 page_count
  /\ (forall k, k < length chunks ->
        chunks !! k = Some (seq (k * size) (Nat.min size (page_count - k * size))))
  /\ (forall k c, chunks !! k = Some c -> S k < length chunks -> length c = size)
  /\ (forall k c, chunks !! k = Some c -> S k = length chunks ->
        1 <= length c <= size)
  /\ (length chunks = cores <-> page_count mod cores = 0).
Proof.
  intros Hp cores size chunks.
  assert (Hs : 0 < size) by apply chunk_size_pos.
  assert (Hlen : length chunks = ceil_div page_count size)
    by (apply make_chunks_length; done).
  assert (Hlk : forall k, k < length chunks ->
            chunks !! k = Some (seq (k * size) (Nat.min size (page_count - k * size)))).
  { intros k Hk. apply make_chunks_lookup; [done|]. by rewrite <- Hlen. }
  split; [done|]. split; [apply pdf_to_images_chunks_cover|].
  split; [done|]. split; [|split].
  - intros k c Hc Hk. rewrite Hlk in Hc by lia.
    injection Hc as <-. rewrite length_seq.
    rewrite Hlen in Hk. apply ceil_div_below in Hk; [|done]. simpl in Hk. lia.
  - intros k c Hc Hk. rewrite Hlk in Hc by lia.
    injection Hc as <-. rewrite length_seq.
    assert (k * size < page_count)
      by (apply ceil_div_above; [done | rewrite <- Hlen; lia]).
    lia.
  - rewrite Hlen. apply chunk_count_cores; [lia | apply num_cores_pos].
Qed.

Lemma chunk_partition_shape_witness :
  1 <= 10 /\
  let cores := num_cores (Some 4) in
  let size := chunk_size 10 cores in
  let chunks := pdf_to_images_chunks 10 (Some 4) in
  length chunks = ceil_div 10 size
  /\ concat chunks = seq 0 10
  /\ (forall k, k < length chunks ->
        chunks !! k = Some (seq (k * size) (Nat.min size (10 - k * size))))
  /\ (forall k c, chunks !! k = Some c -> S k < length chunks -> length c = size)
  /\ (forall k c, chunks !! k = Some c -> S k = length chunks ->
        1 <= length c <= size)
  /\ (length chunks = cores <-> 10 mod cores = 0).
Proof. split; [lia | apply (chunk_partition_shape 10 (Some 4)); lia]. Defined.

End PageChunksClaims.


(** ** Blank-page detection *)

Module AcademicFacts.
Import PyRange PyRangeFacts PageChunksFacts Executor Academic.







End AcademicFacts.

Module AcademicClaims.
Import PyRange Executor Academic AcademicFacts.



(** An all-white page is blank, a page with one dark pixel in the sample is
    not, and a page too short to hold one pixel is not. *)
Example scan_white : _scan_page_brightness ([[xff; xff; xff]], 0, 98 # 100) = Some true.
Proof. reflexivity. Qed.

Example scan_dark : _scan_page_brightness ([[xff; x00; xff]], 0, 98 # 100) = Some false.
Proof. reflexivity. Qed.

Example scan_degenerate : _scan_page_brightness ([[xff; xff]], 0, 98 # 100) = Some false.
Proof. reflexivity. Qed.

End AcademicClaims.


(** ** Order of the results of [executor.map] *)

Module ExecutorFacts.
Import PyRange PyRangeFacts PageChunksFacts Executor.

Lemma fmap_map {A B} (f : A -> B) (l : list A) : f <$> l = map f l.
Proof. induction l as [|x l IH]; [done|]. cbn. by f_equal. Qed.

Lemma range_seq n : range n = seq 0 n.
Proof.
  unfold range. rewrite range3_multiples by lia.
  unfold ceil_div. replace (n + 1 - 1) with n by lia. rewrite Nat.div_1_r.
  rewrite <- (map_id (seq 0 n)) at 2. apply map_ext. intros k. lia.
Qed.

Section Pool.
Context {T R : Type} (fn : T -> R) (tasks : list T).

(** A future holds the result of its own task once that task has been
    finished, whatever else finished before or after. *)
Lemma foldl_complete_lookup (completion : list nat) (finished : gmap nat R) (i : nat) :
  foldl (complete fn tasks) finished completion !! i
  = if decide (i ∈ completion /\ i < length tasks)
    then fn <$> tasks !! i
    else finished !! i.
Proof.
  revert finished. induction completion as [|j l IH]; intros finished; cbn [foldl].
  - case_decide as Hc; [|done]. destruct Hc as [Hin _]. by apply elem_of_nil in Hin.
  - rewrite IH. unfold complete.
    destruct (decide (i ∈ l /\ i < length tasks)) as [[Hin Hlt]|Hnot].
    + rewrite decide_True; [done|]. split; [by right|done].
    + destruct (decide (i = j)) as [->|Hne].
      * destruct (tasks !! j) as [t|] eqn:Ht.
        -- rewrite lookup_insert_eq.
           rewrite decide_True; [done|].
           split; [by left|]. by apply lookup_lt_Some in Ht.
        -- apply lookup_ge_None in Ht.
           rewrite decide_False; [done|]. intros [_ ?]. lia.
      * assert (Hcase : (i ∈ j :: l /\ i < length tasks) -> False).
        { intros [Hin Hlt]. apply elem_of_cons in Hin as [?|?]; tauto. }
        rewrite (decide_False _ _ Hcase).
        destruct (tasks !! j); [by rewrite lookup_insert_ne|done].
Qed.

Lemma run_pool_lookup (completion : list nat) (i : nat) (t : T) :
  i ∈ completion -> tasks !! i = Some t ->
  run_pool fn tasks completion !! i = Some (fn t).
Proof.
  intros Hin Ht. unfold run_pool. rewrite foldl_complete_lookup.
  rewrite decide_True; [by rewrite Ht|].
  split; [done|]. by apply lookup_lt_Some in Ht.
Qed.

(** When every submitted task is finished at some point, [executor.map]
    yields the results in the order of the tasks. *)
Lemma executor_map_order (completion : list nat) :
  (forall i, i < length tasks -> i ∈ completion) ->
  executor_map fn tasks completion = Some (map fn tasks).
Proof.
  intros Hall. unfold executor_map. apply mapM_Some_2.
  apply Forall2_same_length_lookup_2.
  - by rewrite length_seq, length_map.
  - intros i j r Hj Hr. apply lookup_seq in Hj as [-> Hlt]. simpl.
    rewrite <- fmap_map, list_lookup_fmap in Hr.
    destruct (tasks !! i) as [t|] eqn:Ht; [|done].
    injection Hr as <-. by apply run_pool_lookup; [apply Hall|].
Qed.

End Pool.

End ExecutorFacts.

Module ReassemblyClaims.
Import PyRange Executor Academic ExecutorFacts.

Lemma tasks_lookup (doc : document) (threshold : Q) (i : nat) :
  i < length doc -> tasks doc threshold !! i = Some (doc, i, threshold).
Proof.
  intros Hlt. unfold tasks. rewrite range_seq, <- fmap_map, list_lookup_fmap.
  by rewrite lookup_seq_lt.
Qed.

Lemma tasks_length (doc : document) (threshold : Q) :
  length (tasks doc threshold) = length doc.
Proof. unfold tasks. by rewrite length_map, range_seq, length_seq. Qed.

(** C2. Whatever the order in which the pool's workers finish the page
    tasks (and so whatever their number), as long as every task is
    finished, the result list of the parallel scan has one entry per page
    and its entry [i] is the outcome of [_scan_page_brightness] on page
    [i]. *)
Theorem scan_results_in_page_order (doc : document) (threshold : Q)
    (completion : list nat) :
  (forall i, i < length doc -> i ∈ completion) ->
  exists results,
    scan_results doc threshold completion = Some results
    /\ length results = length doc
    /\ results = map (fun i => _scan_page_brightness (doc, i, threshold))
                   (seq 0 (length doc))
    /\ (forall i, i < length doc ->
          results !! i = Some (_scan_page_brightness (doc, i, threshold))).
Proof.
  intros Hall. eexists. split.
  { unfold scan_results. apply executor_map_order.
    intros i Hi. rewrite tasks_length in Hi. by apply Hall. }
  assert (Heq : map _scan_page_brightness (tasks doc threshold)
                = map (fun i => _scan_page_brightness (doc, i, threshold))
                    (seq 0 (length doc))).
  { unfold tasks. by rewrite range_seq, map_map. }
  split; [by rewrite length_map, tasks_length|]. split; [done|].
  intros i Hi. rewrite <- fmap_map, list_lookup_fmap, tasks_lookup by done. done.
Qed.

Lemma scan_results_in_page_order_witness :
  let doc := [[xff; xff; xff]; [x00; x00; x00]; [xff; xff; xff]] in
  let completion := [2; 0; 1] in
  (forall i, i < length doc -> i ∈ completion)
  /\ exists results,
       scan_results doc (98 # 100) completion = Some results
       /\ length results = length doc
       /\ results = map (fun i => _scan_page_brightness (doc, i, 98 # 100))
                      (seq 0 (length doc))
       /\ (forall i, i < length doc ->
             results !! i = Some (_scan_page_brightness (doc, i, 98 # 100))).
Proof.
  assert (Hall : forall i, i < 3 -> i ∈ [2; 0; 1]).
  { intros i Hi. destruct i as [|[|[|i]]]; [| | |simpl in Hi; lia];
      repeat constructor. }
  split; [exact Hall|].
  apply (scan_results_in_page_order
           [[xff; xff; xff]; [x00; x00; x00]; [xff; xff; xff]] (98 # 100) [2; 0; 1]).
  exact Hall.
Defined.

(** Three pages, the middle one dark, finished in the order 2, 0, 1. *)
Example scan_out_of_order :
  scan_blank_pages [[xff; xff; xff]; [x00; x00; x00]; [xff; xff; xff]]
    (98 # 100) [2; 0; 1] = Some [1; 3].
Proof. vm_compute. reflexivity. Qed.

End ReassemblyClaims.


(** ** The JPEG quality search of [resize_image] *)

Module EffectsFacts.
Import Effects.

Lemma add_log_nil w : add_log w [] = w.
Proof. destruct w as [f l]. unfold add_log. simpl. by rewrite app_nil_r. Qed.

Lemma add_log_app w a b : add_log (add_log w a) b = add_log w (a ++ b).
Proof. unfold add_log. simpl. by rewrite app_assoc. Qed.

Lemma bind_emit {B} (e : event) (k : unit -> M B) w :
  bind (emit e) k w = k tt (add_log w [e]).
Proof. done. Qed.

Lemma bind_ret {A B} (a : A) (k : A -> M B) w : bind (ret a) k w = k a w.
Proof. done. Qed.

Lemma bind_run {A B} (m : M A) (k : A -> M B) w a w' :
  m w = (Ret a, w') -> bind m k w = k a w'.
Proof. intros Hm. unfold bind. by rewrite Hm. Qed.

Lemma bind_raise {A B} (m : M A) (k : A -> M B) w e w' :
  m w = (Raise e, w') -> bind m k w = (Raise e, w').
Proof. intros Hm. unfold bind. by rewrite Hm. Qed.

Lemma get_file_size_run path b w :
  fs w !! path = Some b -> get_file_size path w = (Ret (Z.of_nat (length b)), w).
Proof. intros Hb. unfold get_file_size, bind, read_file. by rewrite Hb. Qed.

Lemma write_file_run path b w :
  write_file path b w = (Ret tt, {| fs := <[path := b]> (fs w); log := log w |}).
Proof. done. Qed.

Lemma bind_ext {A B} (m : M A) (k1 k2 : A -> M B) w :
  (forall a w', k1 a w' = k2 a w') -> bind m k1 w = bind m k2 w.
Proof. intros Hk. unfold bind. destruct (m w) as [[a|e] w']; [apply Hk|done]. Qed.

Lemma copy2_run src dst w :
  copy2 src dst w
  = match fs w !! src with
    | None => (Raise FileNotFoundError, add_log w [Copy2 src dst])
    | Some b =>
        if String.eqb src dst
        then (Raise SameFileError, add_log w [Copy2 src dst])
        else (Ret tt, {| fs := <[dst := b]> (fs w);
                         log := log w ++ [Copy2 src dst] |})
    end.
Proof.
  unfold copy2, bind, emit, read_file. cbn [fs add_log].
  destruct (fs w !! src) as [b|]; [|done].
  by destruct (String.eqb src dst).
Qed.

End EffectsFacts.

Module SearchFacts.
Import Effects EffectsFacts ImageProcessor.
Local Open Scope Z_scope.

(** The width of the interval still to be searched. *)
Lemma narrow_halves size_at target_bytes s mid s' :
  narrow size_at target_bytes s mid s' ->
  quality_low s <= quality_high s ->
  2 * (quality_high s' - quality_low s' + 1)
  <= quality_high s - quality_low s + 1.
Proof.
  intros Hn Hle. destruct Hn as [s mid Hfit | s mid Hex]; simpl; subst mid;
    pose proof (Z.div_mod (quality_low s + quality_high s) 2 ltac:(lia));
    pose proof (Z.mod_pos_bound (quality_low s + quality_high s) 2 ltac:(lia));
    lia.
Qed.

Lemma narrow_mid size_at target_bytes s mid s' :
  narrow size_at target_bytes s mid s' ->
  mid = (quality_low s + quality_high s) / 2.
Proof. by intros [? ? ?|? ? ?]. Qed.

(** A step keeps the bounds inside the interval it started from. *)
Lemma narrow_bounds size_at target_bytes s mid s' :
  narrow size_at target_bytes s mid s' ->
  quality_low s <= quality_high s ->
  quality_low s <= mid <= quality_high s
  /\ quality_low s <= quality_low s' /\ quality_high s' <= quality_high s.
Proof.
  intros Hn Hle. destruct Hn as [s mid Hfit | s mid Hex]; simpl; subst mid;
    pose proof (Z.div_mod (quality_low s + quality_high s) 2 ltac:(lia));
    pose proof (Z.mod_pos_bound (quality_low s + quality_high s) 2 ltac:(lia));
    lia.
Qed.

Lemma narrow_best_fits size_at target_bytes s mid s' :
  narrow size_at target_bytes s mid s' ->
  best_fits size_at target_bytes s -> best_fits size_at target_bytes s'.
Proof. intros [s0 m Hfit | s0 m Hex] Hs; unfold best_fits in *; simpl; auto. Qed.

Lemma bisection_best_fits size_at target_bytes n s qs s' :
  bisection size_at target_bytes n s qs s' ->
  best_fits size_at target_bytes s -> best_fits size_at target_bytes s'.
Proof.
  induction 1 as [s | n s mid s' Hn Hc | n s mid s1 qs s' Hn Hc Hb IH];
    eauto using narrow_best_fits.
Qed.

(** Nothing found means every probe exceeded the target. *)
Lemma narrow_not_found size_at target_bytes s mid s' :
  narrow size_at target_bytes s mid s' ->
  found_solution s' = false ->
  found_solution s = false /\ target_bytes < size_at mid
  /\ best_quality s' = best_quality s.
Proof. intros [s0 m Hfit | s0 m Hex]; simpl; [discriminate|auto]. Qed.

Lemma bisection_not_found size_at target_bytes n s qs s' :
  bisection size_at target_bytes n s qs s' ->
  found_solution s' = false ->
  found_solution s = false /\ Forall (fun q => target_bytes < size_at q) qs.
Proof.
  induction 1 as [s | n s mid s' Hn Hc | n s mid s1 qs s' Hn Hc Hb IH];
    intros Hf.
  - split; [done|constructor].
  - destruct (narrow_not_found _ _ _ _ _ Hn Hf) as (? & ? & _).
    split; [done|]. constructor; [done|constructor].
  - destruct (IH Hf) as [Hf1 Hall].
    destruct (narrow_not_found _ _ _ _ _ Hn Hf1) as (? & ? & _).
    split; [done|]. by constructor.
Qed.

(** With [n] iterations an interval of fewer than [2 ^ n] qualities is
    searched until the bounds cross. *)
Lemma bisection_crosses size_at target_bytes n s qs s' :
  bisection size_at target_bytes n s qs s' ->
  quality_low s <= quality_high s ->
  quality_high s - quality_low s + 1 < 2 ^ Z.of_nat n ->
  quality_high s' < quality_low s'.
Proof.
  induction 1 as [s | n s mid s' Hn Hc | n s mid s1 qs s' Hn Hc Hb IH];
    intros Hle Hw.
  - simpl in Hw. lia.
  - done.
  - apply IH; [done|].
    pose proof (narrow_halves _ _ _ _ _ Hn Hle).
    rewrite Nat2Z.inj_succ, Z.pow_succ_r in Hw by lia. lia.
Qed.

(** Every probed quality lies between the bounds the search started from. *)
Lemma bisection_probes_in_range size_at target_bytes n s qs s' :
  bisection size_at target_bytes n s qs s' ->
  quality_low s <= quality_high s ->
  Forall (fun q => quality_low s <= q <= quality_high s) qs.
Proof.
  induction 1 as [s | n s mid s' Hn Hc | n s mid s1 qs s' Hn Hc Hb IH];
    intros Hle.
  - constructor.
  - destruct (narrow_bounds _ _ _ _ _ Hn Hle) as (? & _).
    constructor; [done|constructor].
  - destruct (narrow_bounds _ _ _ _ _ Hn Hle) as (? & ? & ?).
    constructor; [done|].
    eapply Forall_impl; [by apply IH|]. simpl. intros q ?. lia.
Qed.

(** The relation is a function of its inputs. *)
Lemma narrow_det size_at target_bytes s mid1 s1 mid2 s2 :
  narrow size_at target_bytes s mid1 s1 ->
  narrow size_at target_bytes s mid2 s2 -> mid1 = mid2 /\ s1 = s2.
Proof.
  intros [s0 m1 H1 | s0 m1 H1] H2; inversion H2; subst;
    repeat match goal with x := _ |- _ => subst x end;
    try done; lia.
Qed.

Lemma bisection_det size_at target_bytes n s qs1 s1 qs2 s2 :
  bisection size_at target_bytes n s qs1 s1 ->
  bisection size_at target_bytes n s qs2 s2 -> qs1 = qs2 /\ s1 = s2.
Proof.
  intros H1. revert qs2 s2.
  induction H1 as [s | n s mid s' Hn Hc | n s mid sa qs s' Hn Hc Hb IH];
    intros qs2 s2 H2;
    inversion H2 as [s0 | n0 s0 mid2 sb Hn2 Hc2 | n0 s0 mid2 sb qsb sc Hn2 Hc2 Hb2];
    subst; try done;
    destruct (narrow_det _ _ _ _ _ _ _ Hn Hn2) as [-> ->]; try done; try lia.
  destruct (IH _ _ Hb2) as [-> ->]. done.
Qed.

Lemma quality_search_det size_at target_bytes n qs1 s1 qs2 s2 :
  quality_search size_at target_bytes n qs1 s1 ->
  quality_search size_at target_bytes n qs2 s2 -> qs1 = qs2 /\ s1 = s2.
Proof.
  intros [H1 | qa sa H1 Hb1] H2;
    inversion H2 as [H3 | qb sb H3 Hb2]; subst; try done; try lia.
  destruct (bisection_det _ _ _ _ _ _ _ _ Hb1 Hb2) as [-> ->]. done.
Qed.

End SearchFacts.

Module ResizeFacts.
Import Effects EffectsFacts PyStr ImageProcessor SearchFacts.
Local Open Scope Z_scope.

Section WithPillow.
Context `{Pillow}.

Lemma save_jpeg_buffer_run img q w :
  save_jpeg_buffer img q w = (Ret (jpeg_encode img q), add_log w (probes [q])).
Proof. done. Qed.

Lemma probe_narrow img target_bytes s :
  let mid := (quality_low s + quality_high s) / 2 in
  narrow (encoded_size img) target_bytes s mid
    (probe (encoded_size img mid) target_bytes mid s).
Proof.
  intros mid. unfold probe.
  destruct (Z.leb_spec (encoded_size img mid) target_bytes).
  - by apply narrow_fits.
  - by apply narrow_exceeds.
Qed.

(** The loop of the code takes exactly the steps of the relation, and logs
    one buffer encoding per step. *)
Lemma search_loop_spec img target_bytes n s w :
  exists qs s',
    bisection (encoded_size img) target_bytes n s qs s'
    /\ search_loop img target_bytes n s w = (Ret s', add_log w (probes qs)).
Proof.
  revert s w. induction n as [|n IH]; intros s w.
  - exists [], s. split; [constructor|]. simpl. by rewrite add_log_nil.
  - cbn [search_loop].
    rewrite (bind_run _ _ _ _ _ (save_jpeg_buffer_run _ _ _)).
    pose proof (probe_narrow img target_bytes s) as Hn. cbv zeta in Hn.
    fold (encoded_size img ((quality_low s + quality_high s) / 2)).
    set (mid := (quality_low s + quality_high s) / 2) in *.
    set (s1 := probe (encoded_size img mid) target_bytes mid s) in *.
    destruct (Z.ltb_spec (quality_high s1) (quality_low s1)) as [Hc|Hc].
    + exists [mid], s1. split; [by apply bisection_crossed|done].
    + destruct (IH s1 (add_log w (probes [mid]))) as (qs & s' & Hb & Hrun).
      exists (mid :: qs), s'. split; [by eapply bisection_continue|].
      rewrite Hrun, add_log_app. done.
Qed.

Lemma jpeg_search_spec img target_bytes max_iterations w :
  exists qs s,
    quality_search (encoded_size img) target_bytes max_iterations qs s
    /\ jpeg_search img target_bytes max_iterations w
       = (Ret s, add_log w (probes qs)).
Proof.
  unfold jpeg_search.
  rewrite (bind_run _ _ _ _ _ (save_jpeg_buffer_run _ _ _)).
  fold (encoded_size img 95).
  destruct (Z.leb_spec (encoded_size img 95) target_bytes) as [Hfit|Hex].
  - eexists [95], _. split; [by apply search_top_fits|done].
  - destruct (search_loop_spec img target_bytes max_iterations
                {| quality_low := 5; quality_high := 95; best_quality := 5;
                   found_solution := false |} (add_log w (probes [95])))
      as (qs & s & Hb & Hrun).
    exists (95 :: qs), s. split; [by apply search_bisects|].
    rewrite Hrun, add_log_app. done.
Qed.

(** What the search branch logs after the "Compressing" line. *)
Lemma compress_to_target_jpeg img output_file output_format kb max_iterations w :
  String.eqb (upper output_format) "PNG" = false ->
  exists qs s,
    quality_search (encoded_size img) (kb * 1024) max_iterations qs s
    /\ compress_to_target img output_file output_format kb max_iterations w
       = (Ret tt,
          {| fs := <[output_file := jpeg_encode img (final_quality s)]> (fs w);
             log := log w
                    ++ [Info "Compressing to <= target KB..."] ++ probes qs
                    ++ (if found_solution s then []
                        else [Warning "Could not meet target size even at lowest quality."])
                    ++ [ImageSave (File output_file) (jpeg_args (final_quality s));
                        Success "Image processed"] |}).
Proof.
  intros Hfmt. unfold compress_to_target. rewrite Hfmt.
  unfold info. rewrite bind_emit.
  destruct (jpeg_search_spec img (kb * 1024) max_iterations
              (add_log w [Info "Compressing to <= target KB..."]))
    as (qs & s & Hq & Hrun).
  exists qs, s. split; [done|].
  unfold bind at 1. unfold bind at 1. rewrite Hrun.
  unfold final_quality.
  destruct (found_solution s); simpl;
    unfold bind, save_jpeg_file, get_file_size, read_file, bind, emit,
      write_file, success, warning, emit, add_log, ret; simpl;
    rewrite lookup_insert_eq; simpl;
    repeat rewrite <- app_assoc; done.
Qed.

Lemma compress_to_target_png img output_file output_format kb max_iterations w :
  String.eqb (upper output_format) "PNG" = true ->
  compress_to_target img output_file output_format kb max_iterations w
  = (Ret tt,
     {| fs := <[output_file := png_encode img 9]> (fs w);
        log := log w
               ++ [Info "Compressing to <= target KB...";
                   ImageSave (File output_file) (png_args 9)]
               ++ (if kb * 1024 <? Z.of_nat (length (png_encode img 9))
                   then [Warning "PNG compression limit reached. Try JPEG for smaller sizes."]
                   else [])
               ++ [Success "Image processed"] |}).
Proof.
  intros Hfmt. unfold compress_to_target. rewrite Hfmt.
  unfold bind, info, save_png_file, get_file_size, read_file, bind, emit,
    write_file, success, warning, emit, add_log, ret; simpl.
  rewrite lookup_insert_eq; simpl.
  destruct (kb * 1024 <? Z.of_nat (length (png_encode img 9))); simpl;
    rewrite lookup_insert_eq; simpl;
    repeat rewrite <- app_assoc; done.
Qed.

Lemma image_open_run path b img w :
  fs w !! path = Some b -> decode b = Some img ->
  image_open path w = (Ret img, w).
Proof. intros Hb Hd. unfold image_open, bind, read_file. by rewrite Hb, Hd. Qed.

(** The whole function around a size-targeted encoding that succeeds. *)
Lemma resize_image_run input_file output_file target_size_kb dimensions
    output_format max_iterations w bytes img0 kb w2 :
  fs w !! input_file = Some bytes -> decode bytes = Some img0 ->
  truthy target_size_kb = Some kb ->
  compress_to_target (prepared output_format dimensions img0) output_file
    output_format kb max_iterations (add_log w (opening_log dimensions))
  = (Ret tt, w2) ->
  (dimensions <> None ->
   exists b, fs w2 !! output_file = Some b /\ is_Some (decode b)) ->
  resize_image input_file output_file target_size_kb dimensions output_format
    max_iterations w
  = (Ret (true, None), add_log w2 (closing_log dimensions)).
Proof.
  intros Hin Hdec Htarget Hrun Hback.
  unfold resize_image, try_except, resize_image_body.
  rewrite (bind_run _ _ _ _ _ (get_file_size_run _ _ _ Hin)).
  unfold info. rewrite bind_emit. cbv beta.
  rewrite (bind_run _ _ _ _ _
             (image_open_run input_file bytes img0
                (add_log w [Info "Processing..."]) Hin Hdec)).
  rewrite Htarget.
  destruct dimensions as [d|]; unfold prepared, opening_log, closing_log in *.
  - rewrite (bind_run _ _ _ _ _ (bind_emit _ _ _)). cbv beta.
    rewrite add_log_app. simpl app.
    rewrite (bind_run _ _ _ _ _ Hrun).
    destruct Hback as (b & Hb & [img' Himg]); [done|].
    rewrite (bind_run _ _ _ _ _
               (bind_run _ _ _ _ _ (image_open_run output_file b img' w2 Hb Himg))).
    done.
  - rewrite bind_ret. rewrite (bind_run _ _ _ _ _ Hrun).
    by rewrite bind_ret, add_log_nil.
Qed.

(** The files left behind do not depend on whether the final read-back of
    the output succeeds. *)
Lemma resize_image_fs input_file output_file target_size_kb dimensions
    output_format max_iterations w bytes img0 kb w2 :
  fs w !! input_file = Some bytes -> decode bytes = Some img0 ->
  truthy target_size_kb = Some kb ->
  compress_to_target (prepared output_format dimensions img0) output_file
    output_format kb max_iterations (add_log w (opening_log dimensions))
  = (Ret tt, w2) ->
  fs (resize_image input_file output_file target_size_kb dimensions
        output_format max_iterations w).2 = fs w2.
Proof.
  intros Hin Hdec Htarget Hrun.
  destruct dimensions as [d|].
  - destruct (fs w2 !! output_file) as [b|] eqn:Hb;
      [destruct (decode b) as [img'|] eqn:Himg|].
    + rewrite (resize_image_run _ _ _ _ _ _ _ _ _ _ _ Hin Hdec Htarget Hrun);
        [done|]. intros _. exists b. by split; [|exists img'].
    + unfold resize_image, try_except, resize_image_body.
      rewrite (bind_run _ _ _ _ _ (get_file_size_run _ _ _ Hin)).
      unfold info. rewrite bind_emit. cbv beta.
      rewrite (bind_run _ _ _ _ _
                 (image_open_run input_file bytes img0
                    (add_log w [Info "Processing..."]) Hin Hdec)).
      rewrite Htarget.
      rewrite (bind_run _ _ _ _ _ (bind_emit _ _ _)). cbv beta.
      rewrite add_log_app. simpl app.
      unfold prepared, opening_log in Hrun.
      rewrite (bind_run _ _ _ _ _ Hrun).
      unfold bind, image_open, bind, read_file. rewrite Hb, Himg. done.
    + unfold resize_image, try_except, resize_image_body.
      rewrite (bind_run _ _ _ _ _ (get_file_size_run _ _ _ Hin)).
      unfold info. rewrite bind_emit. cbv beta.
      rewrite (bind_run _ _ _ _ _
                 (image_open_run input_file bytes img0
                    (add_log w [Info "Processing..."]) Hin Hdec)).
      rewrite Htarget.
      rewrite (bind_run _ _ _ _ _ (bind_emit _ _ _)). cbv beta.
      rewrite add_log_app. simpl app.
      unfold prepared, opening_log in Hrun.
      rewrite (bind_run _ _ _ _ _ Hrun).
      unfold bind, image_open, bind, read_file. rewrite Hb. done.
  - by rewrite (resize_image_run _ _ _ _ _ _ _ _ _ _ _ Hin Hdec Htarget Hrun).
Qed.

Lemma truthy_Some kb : kb <> 0 -> truthy (Some kb) = Some kb.
Proof. intros Hkb. by destruct kb. Qed.

End WithPillow.

End ResizeFacts.

Module ResizeClaims.
Import Effects EffectsFacts PyStr ImageProcessor SearchFacts ResizeFacts Samples.
Local Open Scope Z_scope.

(** C3, as stated, fails.  On an image whose JPEG takes [q] bytes at quality
    [q]: with a target of 200 bytes the first and only probe is at quality
    95 and 95 is the result (not 100); with a target of 3 bytes the search
    probes only qualities from 5 up and finds nothing, although qualities 1
    to 3 fit. *)
Lemma search_is_not_1_to_100 :
  jpeg_search (H := toy_pillow) 1%nat 200 10 {| fs := ∅; log := [] |}
  = (Ret {| quality_low := 5; quality_high := 95; best_quality := 95;
            found_solution := true |},
     {| fs := ∅; log := probes [95] |})
  /\ jpeg_search (H := toy_pillow) 1%nat 3 10 {| fs := ∅; log := [] |}
     = (Ret {| quality_low := 5; quality_high := 4; best_quality := 5;
               found_solution := false |},
        {| fs := ∅; log := probes [95; 50; 27; 15; 9; 6; 5] |})
  /\ encoded_size (H := toy_pillow) 1%nat 3 <= 3.
Proof. split; [reflexivity|]. split; [reflexivity|]. vm_compute. discriminate. Qed.

(** C3, amended. The search first probes quality 95 and, when that fits,
    returns quality 95 without entering the loop.  Otherwise it bisects
    from bounds 5 and 95 for at most [max_iterations] steps: each step
    probes [mid = (low + high) // 2], and either records [mid] as best and
    sets [low = mid + 1] when the size fits, or sets [high = mid - 1]; it
    stops when [high < low] or the iterations run out.  Every probe lies in
    5..95, and from 7 iterations on (10 by default) the search always ends
    with [high < low]. *)
Theorem quality_search_shape `{Pillow} (img : Image) (target_bytes : Z)
    (max_iterations : nat) (w : world) :
  exists qs s,
    jpeg_search img target_bytes max_iterations w = (Ret s, add_log w (probes qs))
    /\ quality_search (encoded_size img) target_bytes max_iterations qs s
    /\ (encoded_size img 95 <= target_bytes ->
        qs = [95] /\ best_quality s = 95 /\ found_solution s = true)
    /\ (target_bytes < encoded_size img 95 ->
        exists qs',
          qs = 95 :: qs'
          /\ bisection (encoded_size img) target_bytes max_iterations
               {| quality_low := 5; quality_high := 95; best_quality := 5;
                  found_solution := false |} qs' s
          /\ Forall (fun q => 5 <= q <= 95) qs'
          /\ (length qs' <= max_iterations)%nat
          /\ ((7 <= max_iterations)%nat -> quality_high s < quality_low s)).
Proof.
  destruct (jpeg_search_spec img target_bytes max_iterations w)
    as (qs & s & Hq & Hrun).
  exists qs, s. split; [done|]. split; [done|]. split.
  - intros Hfit. inversion Hq as [Htop | qs' s' Hex Hb]; subst; [done|lia].
  - intros Hex. inversion Hq as [Htop | qs' s' Hex' Hb]; subst; [lia|].
    exists qs'. split; [done|]. split; [done|]. split; [|split].
    + by apply (bisection_probes_in_range _ _ _ _ _ _ Hb).
    + clear -Hb. induction Hb; simpl; lia.
    + intros Hn. apply (bisection_crosses _ _ _ _ _ _ Hb); simpl; [lia|].
      assert (2 ^ 7 <= 2 ^ Z.of_nat max_iterations)
        by (apply Z.pow_le_mono_r; lia).
      lia.
Qed.

(** C4. When the search of [resize_image] ends with [found_solution], the
    file written at [best_quality] is no larger than
    [target_size_kb * 1024] bytes. *)
Theorem budget_satisfaction `{Pillow} (input_file output_file : string) (kb : Z)
    (dimensions : option (Z * Z)) (output_format : string)
    (max_iterations : nat) (w : world) (bytes : list byte) (img0 : Image) :
  fs w !! input_file = Some bytes -> decode bytes = Some img0 ->
  kb <> 0 -> String.eqb (upper output_format) "PNG" = false ->
  let img := prepared output_format dimensions img0 in
  let after := (resize_image input_file output_file (Some kb) dimensions
                  output_format max_iterations w).2 in
  exists qs s,
    quality_search (encoded_size img) (kb * 1024) max_iterations qs s
    /\ fs after !! output_file = Some (jpeg_encode img (final_quality s))
    /\ (found_solution s = true ->
        final_quality s = best_quality s
        /\ forall out, fs after !! output_file = Some out ->
                       Z.of_nat (length out) <= kb * 1024).
Proof.
  intros Hin Hdec Hkb Hfmt img after.
  destruct (compress_to_target_jpeg img output_file output_format kb
              max_iterations (add_log w (opening_log dimensions)) Hfmt)
    as (qs & s & Hq & Hrun).
  assert (Hfs : fs after !! output_file = Some (jpeg_encode img (final_quality s))).
  { unfold after.
    rewrite (resize_image_fs _ _ _ _ _ _ _ _ _ _ _ Hin Hdec (truthy_Some kb Hkb) Hrun).
    simpl. by rewrite lookup_insert_eq. }
  exists qs, s. split; [done|]. split; [done|].
  intros Hfound. unfold final_quality in *. rewrite Hfound in *.
  split; [done|]. intros out Hout. rewrite Hfs in Hout. injection Hout as <-.
  assert (Hbest : best_fits (encoded_size img) (kb * 1024) s).
  { inversion Hq as [Htop | qs' s' Hex Hb]; subst.
    - intros _. done.
    - apply (bisection_best_fits _ _ _ _ _ _ Hb). intros Hf. discriminate. }
  by apply Hbest.
Qed.

(** C10. With a target size and output format PNG (in any letter case),
    [resize_image] encodes once, to the output file, as PNG with
    [compress_level=9], probes no quality, and returns [(True, None)]; a
    result above the target only adds a warning to the log. *)
Theorem png_bypass `{Pillow} (input_file output_file : string) (kb : Z)
    (dimensions : option (Z * Z)) (output_format : string)
    (max_iterations : nat) (w : world) (bytes : list byte) (img0 : Image) :
  fs w !! input_file = Some bytes -> decode bytes = Some img0 ->
  kb <> 0 -> String.eqb (upper output_format) "PNG" = true ->
  let img := prepared output_format dimensions img0 in
  (dimensions <> None -> is_Some (decode (png_encode img 9))) ->
  resize_image input_file output_file (Some kb) dimensions output_format
    max_iterations w
  = (Ret (true, None),
     {| fs := <[output_file := png_encode img 9]> (fs w);
        log := log w ++ opening_log dimensions
               ++ [Info "Compressing to <= target KB...";
                   ImageSave (File output_file) (png_args 9)]
               ++ (if kb * 1024 <? Z.of_nat (length (png_encode img 9))
                   then [Warning "PNG compression limit reached. Try JPEG for smaller sizes."]
                   else [])
               ++ [Success "Image processed"] ++ closing_log dimensions |}).
Proof.
  intros Hin Hdec Hkb Hfmt img Hback.
  pose proof (compress_to_target_png img output_file output_format kb
                max_iterations (add_log w (opening_log dimensions)) Hfmt) as Hrun.
  rewrite (resize_image_run _ _ _ _ _ _ _ _ _ _ _ Hin Hdec (truthy_Some kb Hkb) Hrun).
  - unfold add_log, opening_log, closing_log. cbn [fs log]. do 2 f_equal.
    clear. destruct dimensions;
      destruct (kb * 1024 <? Z.of_nat (length (png_encode img 9)));
      rewrite <- ?app_assoc; reflexivity.
  - intros Hd. exists (png_encode img 9). simpl.
    split; [by rewrite lookup_insert_eq | by apply Hback].
Qed.

#[local] Existing Instance toy_pillow.

Lemma budget_satisfaction_witness :
  let w := {| fs := {[ "in.png"%string := [x00; x00] ]}; log := [] |} in
  fs w !! "in.png"%string = Some [x00; x00]
  /\ decode (Pillow := toy_pillow) [x00; x00] = Some 2%nat
  /\ 1 <> 0
  /\ String.eqb (upper "jpeg") "PNG" = false
  /\ (let img := prepared (H := toy_pillow) "jpeg" None 2%nat in
      let after := (resize_image (H := toy_pillow) "in.png" "out.jpg" (Some 1)
                      None "jpeg" 10 w).2 in
      exists qs s,
        quality_search (encoded_size img) (1 * 1024) 10 qs s
        /\ fs after !! "out.jpg"%string = Some (jpeg_encode img (final_quality s))
        /\ (found_solution s = true ->
            final_quality s = best_quality s
            /\ forall out, fs after !! "out.jpg"%string = Some out ->
                           Z.of_nat (length out) <= 1 * 1024)).
Proof.
  split; [reflexivity|]. split; [reflexivity|]. split; [discriminate|].
  split; [reflexivity|].
  apply (budget_satisfaction (H := toy_pillow) "in.png" "out.jpg" 1 None "jpeg" 10
           {| fs := {[ "in.png"%string := [x00; x00] ]}; log := [] |}
           [x00; x00] 2%nat); [reflexivity | reflexivity | discriminate | reflexivity].
Defined.

Lemma png_bypass_witness :
  let w := {| fs := {[ "in.png"%string := [x00; x00] ]}; log := [] |} in
  let img := prepared (H := toy_pillow) "png" None 2%nat in
  fs w !! "in.png"%string = Some [x00; x00]
  /\ decode (Pillow := toy_pillow) [x00; x00] = Some 2%nat
  /\ 1 <> 0
  /\ String.eqb (upper "png") "PNG" = true
  /\ (@None (Z * Z) <> None -> is_Some (decode (png_encode img 9)))
  /\ resize_image "in.png" "out.png" (Some 1) None "png" 10 w
     = (Ret (true, None),
        {| fs := <["out.png"%string := png_encode img 9]> (fs w);
           log := log w ++ opening_log None
                  ++ [Info "Compressing to <= target KB...";
                      ImageSave (File "out.png") (png_args 9)]
                  ++ (if 1 * 1024 <? Z.of_nat (length (png_encode img 9))
                      then [Warning "PNG compression limit reached. Try JPEG for smaller sizes."]
                      else [])
                  ++ [Success "Image processed"] ++ closing_log None |}).
Proof.
  split; [reflexivity|]. split; [reflexivity|]. split; [discriminate|].
  split; [reflexivity|]. split; [intros Hd; by destruct Hd|].
  apply (png_bypass (H := toy_pillow) "in.png" "out.png" 1 None "png" 10
           {| fs := {[ "in.png"%string := [x00; x00] ]}; log := [] |}
           [x00; x00] 2%nat);
    [reflexivity | reflexivity | discriminate | reflexivity
    | intros Hd; by destruct Hd].
Defined.

(** A PNG above the target is still a success, with one warning. *)
Example png_over_target :
  resize_image (H := toy_pillow) "in.png" "out.png" (Some 1) None "PNG" 10
    {| fs := {[ "in.png"%string := repeat x00 30 ]}; log := [] |}
  = (Ret (true, None),
     {| fs := <["out.png"%string := repeat x00 1500]>
                {[ "in.png"%string := repeat x00 30 ]};
        log := [Info "Processing..."; Info "Compressing to <= target KB...";
                ImageSave (File "out.png") (png_args 9);
                Warning "PNG compression limit reached. Try JPEG for smaller sizes.";
                Success "Image processed"] |}).
Proof. vm_compute. reflexivity. Qed.

End ResizeClaims.


(** ** [compress_pdf] *)

Module CompressorFacts.
Import Effects EffectsFacts Compressor.

Lemma size_mb_le (a b : list byte) :
  Qle_bool (size_mb a) (size_mb b) = true <-> length a <= length b.
Proof.
  rewrite Qle_bool_iff. unfold size_mb, Qdiv.
  rewrite Qmult_le_r by done.
  rewrite <- Zle_Qle. lia.
Qed.

Lemma size_mb_zero (b : list byte) : Qeq_bool (size_mb b) 0 = true <-> b = [].
Proof.
  rewrite Qeq_bool_iff. unfold size_mb, Qdiv. split.
  - intros Hz. apply Qmult_integral in Hz as [Hz|Hz]; [|done].
    destruct b; [done|]. simpl in Hz. discriminate Hz.
  - intros ->. done.
Qed.

Section WithPyMuPDF.
Context `{PyMuPDF}.

Lemma get_pdf_size_mb_run path b w :
  fs w !! path = Some b -> _get_pdf_size_mb path w = (Ret (size_mb b), w).
Proof.
  intros Hb. unfold _get_pdf_size_mb.
  by rewrite (bind_run _ _ _ _ _ (get_file_size_run _ _ _ Hb)).
Qed.

Lemma get_pdf_size_mb_missing path w :
  fs w !! path = None -> _get_pdf_size_mb path w = (Raise FileNotFoundError, w).
Proof.
  intros Hb. unfold _get_pdf_size_mb, get_file_size, bind, read_file.
  by rewrite Hb.
Qed.

Lemma attempt_log_S output_file k :
  attempt_log output_file (S k)
  = [DocSave output_file aggressive; Info "Attempt: result size (target)"]
      ++ attempt_log output_file k.
Proof. done. Qed.

(** The loop never raises; it touches only the output path, leaves there
    the bytes of its last save and logs one save per attempt, each with the
    same arguments. *)
Lemma attempts_run st output_file target_size_mb n attempt doc w :
  exists doc',
    attempts st output_file target_size_mb n attempt doc w
    = (Ret doc',
       {| fs := match last_attempt target_size_mb n doc with
                | Some b => <[output_file := b]> (fs w)
                | None => fs w
                end;
          log := log w
                 ++ attempt_log output_file (attempts_made target_size_mb n doc) |}).
Proof.
  revert attempt doc w. induction n as [|n IH]; intros attempt doc w.
  - exists doc. simpl. unfold ret, attempt_log. simpl.
    rewrite app_nil_r. by destruct w.
  - cbn [attempts last_attempt attempts_made].
    unfold document_save.
    destruct (save doc aggressive) as [b doc1] eqn:Hsave.
    rewrite (bind_run _ _ _ _ _ (bind_emit _ _ _)). cbv beta.
    erewrite bind_run;
      [|apply (get_pdf_size_mb_run output_file b); simpl; apply lookup_insert_eq].
    unfold info. rewrite bind_emit.
    fold (within_tolerance target_size_mb b).
    destruct (within_tolerance target_size_mb b).
    + exists doc1. unfold ret, add_log, attempt_log. simpl.
      by rewrite <- app_assoc.
    + match goal with
      | |- context [attempts _ _ _ _ _ _ ?w1] =>
          destruct (IH (S attempt) doc1 w1) as (doc' & ->)
      end.
      exists doc'. f_equal. rewrite attempt_log_S. unfold add_log. simpl.
      f_equal.
      * destruct (last_attempt target_size_mb n doc1);
          [by rewrite insert_insert_eq | done].
      * by rewrite <- !app_assoc.
Qed.

(** The world when the loop is over. *)
Lemma compress_pdf_body_prefix input_file output_file target_size_mb quality
    max_iterations w orig doc :
  fs w !! input_file = Some orig -> fitz_open orig = Some doc ->
  let doc0 := set_metadata_empty doc in
  compress_pdf_body input_file output_file target_size_mb quality
    max_iterations w
  = finish input_file output_file target_size_mb (size_mb orig)
      {| fs := match last_attempt target_size_mb max_iterations doc0 with
               | Some b => <[output_file := b]> (fs w)
               | None => fs w
               end;
         log := log w ++ start_log (size_mb orig) target_size_mb
                ++ attempt_log output_file
                     (attempts_made target_size_mb max_iterations doc0) |}.
Proof.
  intros Hin Hopen doc0. unfold compress_pdf_body.
  rewrite (bind_run _ _ _ _ _ (get_pdf_size_mb_run _ _ _ Hin)).
  unfold info at 1. rewrite bind_emit.
  assert (Hopen' : forall w1, fs w1 = fs w -> document_open input_file w1 = (Ret doc, w1)).
  { intros w1 Hfs. unfold document_open, bind, read_file. by rewrite Hfs, Hin, Hopen. }
  unfold start_log.
  destruct (Qle_bool (size_mb orig) target_size_mb).
  - unfold warning, info. rewrite (bind_run _ _ _ _ _ (bind_emit _ _ _)). cbv beta.
    erewrite bind_run; [|by apply Hopen'].
    unfold _strip_objects, info.
    rewrite (bind_run _ _ _ _ _ (bind_emit _ _ _)). cbv beta.
    rewrite bind_emit.
    match goal with
    | |- bind (attempts ?st _ _ _ _ ?d) _ ?w1 = _ =>
        destruct (attempts_run st output_file target_size_mb max_iterations 0 d w1)
          as (doc' & Hrun)
    end.
    rewrite (bind_run _ _ _ _ _ Hrun). unfold add_log. simpl.
    by rewrite <- !app_assoc.
  - rewrite bind_ret.
    erewrite bind_run; [|by apply Hopen'].
    unfold _strip_objects, info.
    rewrite (bind_run _ _ _ _ _ (bind_emit _ _ _)). cbv beta.
    rewrite bind_emit.
    match goal with
    | |- bind (attempts ?st _ _ _ _ ?d) _ ?w1 = _ =>
        destruct (attempts_run st output_file target_size_mb max_iterations 0 d w1)
          as (doc' & Hrun)
    end.
    rewrite (bind_run _ _ _ _ _ Hrun). unfold add_log. simpl.
    by rewrite <- !app_assoc.
Qed.

(** The end of the function, by cases on the size found on disk. *)
Lemma finish_run input_file output_file target_size_mb orig p w3 :
  fs w3 !! output_file = Some p -> orig <> [] ->
  finish input_file output_file target_size_mb (size_mb orig) w3
  = if negb (Qle_bool (size_mb p) (size_mb orig))
    then
      let w4 := add_log w3 [Warning "Compression increased file size";
                            Info "Using original file instead...";
                            Copy2 input_file output_file] in
      match fs w3 !! input_file with
      | None => (Raise FileNotFoundError, w4)
      | Some src =>
          if String.eqb input_file output_file
          then (Raise SameFileError, w4)
          else (Ret {| original_size := size_mb orig;
                       final_size := size_mb orig;
                       compression_ratio := 0 |},
                {| fs := <[output_file := src]> (fs w3);
                   log := log w4
                          ++ [Warning "File cannot be compressed further";
                              Info "This PDF is already optimally compressed or has uncompressible content"] |})
      end
    else
      let l := {| original_size := size_mb orig; final_size := size_mb p;
                  compression_ratio :=
                    ((size_mb orig - size_mb p) / size_mb orig * 100)%Q |} in
      if within_tolerance target_size_mb p
      then (Ret l, add_log w3 [Success "Compressed"])
      else (Ret l,
            add_log w3 [Warning "Compression complete but target not fully met";
                        Info "Achieved reduction";
                        Info "Tip: Try 'low' quality setting for more aggressive compression"]).
Proof.
  intros Hp Horig. unfold finish.
  rewrite (bind_run _ _ _ _ _ (get_pdf_size_mb_run _ _ _ Hp)).
  unfold float_div.
  destruct (Qeq_bool (size_mb orig) 0) eqn:Hz.
  { apply size_mb_zero in Hz. done. }
  rewrite bind_ret. fold (within_tolerance target_size_mb p).
  destruct (Qle_bool (size_mb p) (size_mb orig)); cbn [negb].
  - destruct (within_tolerance target_size_mb p);
      unfold success, warning, info; rewrite ?bind_emit, ?add_log_app;
      reflexivity.
  - unfold warning, info. rewrite !bind_emit, !add_log_app. cbn [app].
    unfold bind at 1. rewrite copy2_run. cbn [fs add_log].
    destruct (fs w3 !! input_file) as [src|];
      [|unfold add_log; cbn [fs log]; by rewrite <- ?app_assoc].
    destruct (String.eqb input_file output_file);
      [unfold add_log; cbn [fs log]; by rewrite <- ?app_assoc|].
    rewrite !bind_emit. unfold add_log, ret. cbn [fs log].
    by rewrite <- ?app_assoc.
Qed.

Lemma finish_missing input_file output_file target_size_mb original w3 :
  fs w3 !! output_file = None ->
  finish input_file output_file target_size_mb original w3
  = (Raise FileNotFoundError, w3).
Proof.
  intros Hp. unfold finish.
  by rewrite (bind_raise _ _ _ _ _ (get_pdf_size_mb_missing _ _ Hp)).
Qed.

Lemma finish_zero input_file output_file target_size_mb p w3 :
  fs w3 !! output_file = Some p ->
  finish input_file output_file target_size_mb (size_mb []) w3
  = (Raise ZeroDivisionError, w3).
Proof.
  intros Hp. unfold finish.
  by rewrite (bind_run _ _ _ _ _ (get_pdf_size_mb_run _ _ _ Hp)).
Qed.

Lemma body_missing_input input_file output_file target_size_mb quality
    max_iterations w :
  fs w !! input_file = None ->
  compress_pdf_body input_file output_file target_size_mb quality
    max_iterations w = (Raise FileNotFoundError, w).
Proof.
  intros Hin. unfold compress_pdf_body.
  by rewrite (bind_raise _ _ _ _ _ (get_pdf_size_mb_missing _ _ Hin)).
Qed.

Lemma body_unreadable input_file output_file target_size_mb quality
    max_iterations w orig :
  fs w !! input_file = Some orig -> fitz_open orig = None ->
  exists w1,
    compress_pdf_body input_file output_file target_size_mb quality
      max_iterations w = (Raise FileDataError, w1).
Proof.
  intros Hin Hopen. unfold compress_pdf_body.
  rewrite (bind_run _ _ _ _ _ (get_pdf_size_mb_run _ _ _ Hin)).
  unfold info at 1. rewrite bind_emit.
  assert (Hopen' : forall w1, fs w1 = fs w ->
            document_open input_file w1 = (Raise FileDataError, w1)).
  { intros w1 Hfs. unfold document_open, bind, read_file. by rewrite Hfs, Hin, Hopen. }
  destruct (Qle_bool (size_mb orig) target_size_mb).
  - unfold warning, info. rewrite (bind_run _ _ _ _ _ (bind_emit _ _ _)). cbv beta.
    erewrite bind_raise; [|by apply Hopen']. by eexists.
  - rewrite bind_ret. erewrite bind_raise; [|by apply Hopen']. by eexists.
Qed.

Lemma compress_pdf_of_body input_file output_file target_size_mb quality
    max_iterations w l w' :
  compress_pdf_body input_file output_file target_size_mb quality
    max_iterations w = (Ret l, w') ->
  compress_pdf input_file output_file target_size_mb quality max_iterations w
  = (Ret (true, None), w').
Proof.
  intros Hbody. unfold compress_pdf, try_except.
  by rewrite (bind_run _ _ _ _ _ Hbody).
Qed.

Lemma compress_pdf_of_raise input_file output_file target_size_mb quality
    max_iterations w e w1 :
  compress_pdf_body input_file output_file target_size_mb quality
    max_iterations w = (Raise e, w1) ->
  compress_pdf input_file output_file target_size_mb quality max_iterations w
  = (Ret (false, Some ("Error during compression: " ++ exn_str e)%string),
     add_log w1 [Error ("Error during compression: " ++ exn_str e)%string]).
Proof.
  intros Hbody. unfold compress_pdf, try_except.
  by rewrite (bind_raise _ _ _ _ _ Hbody).
Qed.

(** What is at the output path when the loop is over: the last save, or
    what was there before when the loop made none. *)
Lemma on_disk_lookup output_file target_size_mb n doc (w : world) :
  match last_attempt target_size_mb n doc with
  | Some b => <[output_file := b]> (fs w)
  | None => fs w
  end !! output_file
  = match last_attempt target_size_mb n doc with
    | Some b => Some b
    | None => fs w !! output_file
    end.
Proof. destruct (last_attempt _ _ _); [by rewrite lookup_insert_eq|done]. Qed.

Lemma on_disk_other output_file target_size_mb n doc (w : world) path :
  path <> output_file ->
  match last_attempt target_size_mb n doc with
  | Some b => <[output_file := b]> (fs w)
  | None => fs w
  end !! path = fs w !! path.
Proof.
  intros Hne. destruct (last_attempt _ _ _); [by rewrite lookup_insert_ne|done].
Qed.

Lemma last_attempt_None target_size_mb n doc :
  last_attempt target_size_mb n doc = None -> n = 0%nat.
Proof.
  destruct n as [|n]; [done|]. simpl.
  destruct (save doc aggressive) as [b doc1].
  destruct (within_tolerance target_size_mb b); [done|].
  by destruct (last_attempt target_size_mb n doc1).
Qed.

(** When what the loop leaves is above the target, every iteration ran. *)
Lemma last_attempt_misses target_size_mb n doc p :
  last_attempt target_size_mb n doc = Some p ->
  within_tolerance target_size_mb p = false ->
  attempts_made target_size_mb n doc = n.
Proof.
  revert doc. induction n as [|n IH]; intros doc; simpl; [done|].
  destruct (save doc aggressive) as [b doc1].
  destruct (within_tolerance target_size_mb b) eqn:Hb.
  - intros [= ->] Hp. congruence.
  - destruct (last_attempt target_size_mb n doc1) as [b'|] eqn:Hl.
    + intros [= ->] Hp. f_equal. by apply IH.
    + intros _ _. apply last_attempt_None in Hl. by subst.
Qed.

(** Neither the preset nor the attempt number reaches the save. *)
Lemma attempts_ignore_settings st1 st2 a1 a2 output_file target_size_mb n doc w :
  attempts st1 output_file target_size_mb n a1 doc w
  = attempts st2 output_file target_size_mb n a2 doc w.
Proof.
  revert a1 a2 doc w. induction n as [|n IH]; intros a1 a2 doc w; [done|].
  cbn [attempts].
  apply bind_ext. intros doc1 w1. apply bind_ext. intros sz w2.
  apply bind_ext. intros _ w3.
  destruct (Qle_bool sz (target_size_mb * tolerance)); [done|]. apply IH.
Qed.

End WithPyMuPDF.

End CompressorFacts.

Module CompressorClaims.
Import Effects EffectsFacts Compressor CompressorFacts Samples.

(** C1. Whenever [compress_pdf] returns [(True, None)], the file at the
    output path is no larger than the input file.  When the file left by the
    compression attempts is larger than the input, the output is the input,
    copied unchanged, the function ends with [compression_ratio = 0.0] and
    [final_size = original_size], and it still returns [(True, None)];
    otherwise the output is the file the attempts left. *)
Theorem non_regression `{PyMuPDF} (input_file output_file : string)
    (target_size_mb : Q) (quality : string) (max_iterations : nat)
    (w w' : world) :
  compress_pdf input_file output_file target_size_mb quality max_iterations w
  = (Ret (true, None), w') ->
  exists orig doc p out l,
    fs w !! input_file = Some orig
    /\ fitz_open orig = Some doc
    /\ persisted output_file target_size_mb max_iterations
         (set_metadata_empty doc) w = Some p
    /\ compress_pdf_body input_file output_file target_size_mb quality
         max_iterations w = (Ret l, w')
    /\ fs w' !! output_file = Some out
    /\ length out <= length orig
    /\ (length orig < length p ->
        out = orig /\ compression_ratio l = 0%Q
        /\ final_size l = original_size l
        /\ exists evs, log w' = log w ++ evs
                       /\ Copy2 input_file output_file ∈ evs)
    /\ (length p <= length orig -> out = p).
Proof.
  intros Hrun.
  destruct (fs w !! input_file) as [orig|] eqn:Hin.
  2: { rewrite (compress_pdf_of_raise _ _ _ _ _ _ _ _
                  (body_missing_input _ _ _ _ _ _ Hin)) in Hrun. discriminate. }
  destruct (fitz_open orig) as [doc|] eqn:Hopen.
  2: { destruct (body_unreadable input_file output_file target_size_mb quality
                   max_iterations w orig Hin Hopen) as [w1 Hb].
       rewrite (compress_pdf_of_raise _ _ _ _ _ _ _ _ Hb) in Hrun. discriminate. }
  pose proof (compress_pdf_body_prefix input_file output_file target_size_mb
                quality max_iterations w orig doc Hin Hopen) as Hpre.
  cbv zeta in Hpre.
  match type of Hpre with _ = finish _ _ _ _ ?w0 => set (w3 := w0) in * end.
  assert (Hdisk : fs w3 !! output_file
                  = persisted output_file target_size_mb max_iterations
                      (set_metadata_empty doc) w) by apply on_disk_lookup.
  destruct (persisted output_file target_size_mb max_iterations
              (set_metadata_empty doc) w) as [p|] eqn:Hp.
  2: { rewrite (finish_missing _ _ _ _ _ Hdisk) in Hpre.
       rewrite (compress_pdf_of_raise _ _ _ _ _ _ _ _ Hpre) in Hrun. discriminate. }
  assert (Horig : orig <> []).
  { intros ->. rewrite (finish_zero _ _ _ _ _ Hdisk) in Hpre.
    rewrite (compress_pdf_of_raise _ _ _ _ _ _ _ _ Hpre) in Hrun. discriminate. }
  rewrite (finish_run _ _ _ _ _ _ Hdisk Horig) in Hpre.
  destruct (Qle_bool (size_mb p) (size_mb orig)) eqn:Hle; cbn [negb] in Hpre.
  - apply size_mb_le in Hle. cbv zeta in Hpre.
    destruct (within_tolerance target_size_mb p);
      rewrite (compress_pdf_of_body _ _ _ _ _ _ _ _ Hpre) in Hrun;
      injection Hrun as <-;
      (eexists orig, doc, p, p, _; repeat split;
         try exact Hpre; try exact Hdisk; try done; lia).
  - assert (Hgt : length orig < length p).
    { destruct (Nat.le_gt_cases (length p) (length orig)) as [Hc|Hc]; [|done].
      apply size_mb_le in Hc. congruence. }
    cbv zeta in Hpre.
    destruct (fs w3 !! input_file) as [src|] eqn:Hsrc.
    2: { rewrite (compress_pdf_of_raise _ _ _ _ _ _ _ _ Hpre) in Hrun.
         discriminate. }
    destruct (String.eqb input_file output_file) eqn:Heq.
    { rewrite (compress_pdf_of_raise _ _ _ _ _ _ _ _ Hpre) in Hrun.
      discriminate. }
    apply String.eqb_neq in Heq.
    assert (src = orig) as ->.
    { unfold w3 in Hsrc. cbn [fs] in Hsrc.
      rewrite on_disk_other in Hsrc by done. congruence. }
    rewrite (compress_pdf_of_body _ _ _ _ _ _ _ _ Hpre) in Hrun.
    injection Hrun as <-.
    eexists orig, doc, p, orig, _. repeat split; try exact Hpre; try done.
    + cbn [fs]. by rewrite lookup_insert_eq.
    + eexists. split.
      * unfold w3, add_log. cbn [log]. rewrite <- !app_assoc. reflexivity.
      * set_solver.
    + lia.
Qed.

Lemma non_regression_witness :
  let w := {| fs := {[ "in.pdf"%string := [x00; x00; x00] ]}; log := [] |} in
  let run := compress_pdf (H := toy_mupdf (fun n => n + 5)%nat)
               "in.pdf" "out.pdf" 1 "medium" 5 w in
  run = (Ret (true, None), run.2)
  /\ exists orig doc p out l,
       fs w !! "in.pdf"%string = Some orig
       /\ fitz_open (PyMuPDF := toy_mupdf (fun n => n + 5)%nat) orig = Some doc
       /\ persisted (H := toy_mupdf (fun n => n + 5)%nat) "out.pdf" 1 5
            (set_metadata_empty doc) w = Some p
       /\ compress_pdf_body (H := toy_mupdf (fun n => n + 5)%nat)
            "in.pdf" "out.pdf" 1 "medium" 5 w = (Ret l, run.2)
       /\ fs run.2 !! "out.pdf"%string = Some out
       /\ length out <= length orig
       /\ (length orig < length p ->
           out = orig /\ compression_ratio l = 0%Q
           /\ final_size l = original_size l
           /\ exists evs, log run.2 = log w ++ evs
                          /\ Copy2 "in.pdf" "out.pdf" ∈ evs)
       /\ (length p <= length orig -> out = p).
Proof.
  split; [vm_compute; reflexivity|].
  apply (non_regression (H := toy_mupdf (fun n => n + 5)%nat)
           "in.pdf" "out.pdf" 1 "medium" 5
           {| fs := {[ "in.pdf"%string := [x00; x00; x00] ]}; log := [] |}).
  vm_compute. reflexivity.
Defined.

(** A save larger than the input is replaced by the input. *)
Example regression_guard_trips :
  compress_pdf (H := toy_mupdf (fun n => n + 5)%nat) "in.pdf" "out.pdf" 1 "medium" 5
    {| fs := {[ "in.pdf"%string := [x00; x00; x00] ]}; log := [] |}
  = (Ret (true, None),
     {| fs := <["out.pdf"%string := [x00; x00; x00]]>
                (<["out.pdf"%string := repeat x00 8]>
                   {[ "in.pdf"%string := [x00; x00; x00] ]});
        log := [Info "Compressing...";
                Warning "File is already under target size";
                Info "Performing light compression anyway...";
                Info "Stage 2: Stripping unnecessary objects...";
                Info "Stage 3: Applying lossless compression to streams...";
                DocSave "out.pdf" aggressive;
                Info "Attempt: result size (target)";
                Warning "Compression increased file size";
                Info "Using original file instead...";
                Copy2 "in.pdf" "out.pdf";
                Warning "File cannot be compressed further";
                Info "This PDF is already optimally compressed or has uncompressible content"] |}).
Proof. vm_compute. reflexivity. Qed.

(** C5 fails on the code: [current_deflate] is computed and never used.
    The loop behaves the same for every preset and every attempt number,
    and a run of five attempts on the medium preset logs five saves with
    the same arguments ([deflate=True], no level) while [current_deflate]
    goes 3, 4, 5, 6, 7. *)
Theorem deflate_level_never_applied :
  (forall `(PyMuPDF) (st1 st2 : settings) (a1 a2 : nat) (output_file : string)
          (target_size_mb : Q) (n : nat) (doc : Document) (w : world),
      attempts st1 output_file target_size_mb n a1 doc w
      = attempts st2 output_file target_size_mb n a2 doc w)
  /\ (let w := {| fs := {[ "in.pdf"%string := [x00; x00; x00] ]}; log := [] |} in
      let run := compress_pdf (H := toy_mupdf (fun n => n))
                   "in.pdf" "out.pdf" (1 # 1000000) "medium" 5 w in
      run.1 = Ret (true, None)
      /\ log run.2
         = [Info "Compressing...";
            Info "Stage 2: Stripping unnecessary objects...";
            Info "Stage 3: Applying lossless compression to streams..."]
           ++ attempt_log "out.pdf" 5
           ++ [Warning "Compression complete but target not fully met";
               Info "Achieved reduction";
               Info "Tip: Try 'low' quality setting for more aggressive compression"])
  /\ attempt_log "out.pdf" 2
     = [DocSave "out.pdf" aggressive; Info "Attempt: result size (target)";
        DocSave "out.pdf" aggressive; Info "Attempt: result size (target)"]
  /\ deflate aggressive = true
  /\ map (current_deflate (quality_settings "medium")) (seq 0 5)
     = [3; 4; 5; 6; 7]%Z.
Proof.
  split; [intros; apply attempts_ignore_settings|].
  split; [split; vm_compute; reflexivity|].
  repeat split.
Qed.

End CompressorClaims.

(** ** A target that cannot be met *)

Module InfeasibilityFacts.
Import Effects EffectsFacts PyStr ImageProcessor SearchFacts ResizeFacts.
Import Compressor CompressorFacts.

(** A search that finds nothing has seen every probe exceed the target. *)
Lemma quality_search_not_found size_at target_bytes n qs s :
  quality_search size_at target_bytes n qs s ->
  found_solution s = false ->
  Forall (fun q => (target_bytes < size_at q)%Z) qs.
Proof.
  intros Hq Hf. inversion Hq as [Htop | qs' s' Hex Hb]; subst; [done|].
  constructor; [done|].
  by destruct (bisection_not_found _ _ _ _ _ _ Hb Hf).
Qed.

Lemma resize_image_infeasible `{Pillow} input_file output_file kb dimensions
    output_format max_iterations w bytes img0 :
  fs w !! input_file = Some bytes -> decode bytes = Some img0 ->
  kb <> 0%Z -> String.eqb (upper output_format) "PNG" = false ->
  let img := prepared output_format dimensions img0 in
  (dimensions <> None -> is_Some (decode (jpeg_encode img 5))) ->
  exists qs s,
    quality_search (encoded_size img) (kb * 1024) max_iterations qs s
    /\ (found_solution s = false ->
        Forall (fun q => (kb * 1024 < encoded_size img q)%Z) qs
        /\ resize_image input_file output_file (Some kb) dimensions
             output_format max_iterations w
           = (Ret (true, None),
              {| fs := <[output_file := jpeg_encode img 5]> (fs w);
                 log := log w ++ opening_log dimensions
                        ++ [Info "Compressing to <= target KB..."] ++ probes qs
                        ++ [Warning "Could not meet target size even at lowest quality.";
                            ImageSave (File output_file) (jpeg_args 5);
                            Success "Image processed"]
                        ++ closing_log dimensions |})).
Proof.
  intros Hin Hdec Hkb Hfmt img Hback.
  destruct (compress_to_target_jpeg img output_file output_format kb
              max_iterations (add_log w (opening_log dimensions)) Hfmt)
    as (qs & s & Hq & Hrun).
  exists qs, s. split; [done|]. intros Hf.
  split; [by apply (quality_search_not_found _ _ _ _ _ Hq)|].
  unfold final_quality in Hrun. rewrite Hf in Hrun.
  rewrite (resize_image_run _ _ _ _ _ _ _ _ _ _ _ Hin Hdec (truthy_Some kb Hkb) Hrun).
  - unfold add_log. cbn [fs log]. do 2 f_equal.
    rewrite <- !app_assoc. reflexivity.
  - intros Hd. exists (jpeg_encode img 5). cbn [fs].
    split; [by rewrite lookup_insert_eq | by apply Hback].
Qed.

Lemma compress_pdf_infeasible `{PyMuPDF} input_file output_file target_size_mb
    quality max_iterations w orig doc p :
  fs w !! input_file = Some orig -> orig <> [] -> fitz_open orig = Some doc ->
  input_file <> output_file ->
  last_attempt target_size_mb max_iterations (set_metadata_empty doc) = Some p ->
  within_tolerance target_size_mb p = false ->
  attempts_made target_size_mb max_iterations (set_metadata_empty doc)
  = max_iterations
  /\ compress_pdf input_file output_file target_size_mb quality max_iterations w
     = (Ret (true, None),
        if length p <=? length orig
        then {| fs := <[output_file := p]> (fs w);
                log := log w ++ start_log (size_mb orig) target_size_mb
                       ++ attempt_log output_file max_iterations
                       ++ [Warning "Compression complete but target not fully met";
                           Info "Achieved reduction";
                           Info "Tip: Try 'low' quality setting for more aggressive compression"] |}
        else {| fs := <[output_file := orig]> (fs w);
                log := log w ++ start_log (size_mb orig) target_size_mb
                       ++ attempt_log output_file max_iterations
                       ++ [Warning "Compression increased file size";
                           Info "Using original file instead...";
                           Copy2 input_file output_file;
                           Warning "File cannot be compressed further";
                           Info "This PDF is already optimally compressed or has uncompressible content"] |}).
Proof.
  intros Hin Horig Hopen Hne Hlast Hmiss.
  pose proof (last_attempt_misses _ _ _ _ Hlast Hmiss) as Hmade.
  split; [done|].
  pose proof (compress_pdf_body_prefix input_file output_file target_size_mb
                quality max_iterations w orig doc Hin Hopen) as Hpre.
  cbv zeta in Hpre. rewrite Hlast, Hmade in Hpre.
  rewrite (finish_run _ _ _ _ p _ (lookup_insert_eq _ _ _) Horig) in Hpre.
  rewrite Hmiss in Hpre. cbn [fs] in Hpre.
  rewrite lookup_insert_ne, Hin in Hpre by done.
  apply String.eqb_neq in Hne. rewrite Hne in Hpre. cbv zeta in Hpre.
  destruct (Nat.leb_spec (length p) (length orig)) as [Hle|Hgt].
  - apply size_mb_le in Hle. rewrite Hle in Hpre. cbn [negb] in Hpre.
    rewrite (compress_pdf_of_body _ _ _ _ _ _ _ _ Hpre).
    unfold add_log. cbn [fs log]. do 2 f_equal. by rewrite <- !app_assoc.
  - assert (Hle : Qle_bool (size_mb p) (size_mb orig) = false).
    { destruct (Qle_bool (size_mb p) (size_mb orig)) eqn:Hc; [|done].
      apply size_mb_le in Hc. lia. }
    rewrite Hle in Hpre. cbn [negb] in Hpre.
    rewrite (compress_pdf_of_body _ _ _ _ _ _ _ _ Hpre).
    unfold add_log. cbn [fs log]. f_equal. f_equal.
    + by rewrite insert_insert_eq.
    + by rewrite <- !app_assoc.
Qed.

End InfeasibilityFacts.

Module InfeasibilityClaims.
Import Effects PyStr ImageProcessor Compressor InfeasibilityFacts Samples.

(** C9, as stated, fails for documents: a document whose every save is
    larger than the input and above the target goes through all five
    attempts, and [compress_pdf] then returns [(True, None)] with the input
    copied to the output and no "target not fully met" warning. *)
Lemma guard_replaces_target_report :
  let lib := toy_mupdf (fun n => n + 5)%nat in
  let w := {| fs := {[ "in.pdf"%string := [x00; x00; x00] ]}; log := [] |} in
  let run := compress_pdf (H := lib) "in.pdf" "out.pdf" (1 # 1000000) "medium" 5 w in
  attempts_made (H := lib) (1 # 1000000) 5 [x00; x00; x00] = 5
  /\ last_attempt (H := lib) (1 # 1000000) 5 [x00; x00; x00] = Some (repeat x00 8)
  /\ within_tolerance (1 # 1000000) (repeat x00 8) = false
  /\ run.1 = Ret (true, None)
  /\ fs run.2 !! "out.pdf"%string = Some [x00; x00; x00]
  /\ log run.2
     = [Info "Compressing...";
        Info "Stage 2: Stripping unnecessary objects...";
        Info "Stage 3: Applying lossless compression to streams..."]
       ++ attempt_log "out.pdf" 5
       ++ [Warning "Compression increased file size";
           Info "Using original file instead...";
           Copy2 "in.pdf" "out.pdf";
           Warning "File cannot be compressed further";
           Info "This PDF is already optimally compressed or has uncompressible content"]
  /\ Warning "Compression complete but target not fully met" ∉ log run.2.
Proof.
  intros lib w run.
  assert (Hlog : log run.2
     = [Info "Compressing...";
        Info "Stage 2: Stripping unnecessary objects...";
        Info "Stage 3: Applying lossless compression to streams..."]
       ++ attempt_log "out.pdf" 5
       ++ [Warning "Compression increased file size";
           Info "Using original file instead...";
           Copy2 "in.pdf" "out.pdf";
           Warning "File cannot be compressed further";
           Info "This PDF is already optimally compressed or has uncompressible content"])
    by (vm_compute; reflexivity).
  split; [reflexivity|]. split; [reflexivity|]. split; [reflexivity|].
  split; [vm_compute; reflexivity|]. split; [vm_compute; reflexivity|].
  split; [exact Hlog|].
  rewrite Hlog. unfold attempt_log. cbn [replicate concat app].
  intros Hin.
  repeat (apply elem_of_cons in Hin as [Hin|Hin]; [discriminate Hin|]).
  by apply elem_of_nil in Hin.
Qed.

(** C9, amended. A target that cannot be met is not an error.
    Image: when the JPEG search of [resize_image] finds no quality that
    fits (every probe exceeded the target, [found_solution] stays false),
    the function warns, writes the output at the floor quality 5 and
    returns [(True, None)].
    Document: when what the attempts of [compress_pdf] leave on disk is
    still above the target with its 5% tolerance, all [max_iterations]
    attempts were made and the function returns [(True, None)]: with the
    last attempt as output and a "target not fully met" warning when that
    file is no larger than the input, and otherwise with the input copied
    to the output and no such warning. *)
Theorem infeasible_target_is_success `{Pillow} `{PyMuPDF}
    (image_in image_out : string) (kb : Z) (dimensions : option (Z * Z))
    (output_format : string) (max_iterations : nat) (w : world)
    (bytes : list byte) (img0 : Image)
    (pdf_in pdf_out : string) (target_size_mb : Q) (quality : string)
    (attempts_allowed : nat) (wp : world) (orig : list byte) (doc : Document)
    (p : list byte) :
  (fs w !! image_in = Some bytes -> decode bytes = Some img0 ->
   kb <> 0%Z -> String.eqb (upper output_format) "PNG" = false ->
   let img := prepared output_format dimensions img0 in
   (dimensions <> None -> is_Some (decode (jpeg_encode img 5))) ->
   exists qs s,
     quality_search (encoded_size img) (kb * 1024) max_iterations qs s
     /\ (found_solution s = false ->
         Forall (fun q => (kb * 1024 < encoded_size img q)%Z) qs
         /\ resize_image image_in image_out (Some kb) dimensions output_format
              max_iterations w
            = (Ret (true, None),
               {| fs := <[image_out := jpeg_encode img 5]> (fs w);
                  log := log w ++ opening_log dimensions
                         ++ [Info "Compressing to <= target KB..."] ++ probes qs
                         ++ [Warning "Could not meet target size even at lowest quality.";
                             ImageSave (File image_out) (jpeg_args 5);
                             Success "Image processed"]
                         ++ closing_log dimensions |})))
  /\ (fs wp !! pdf_in = Some orig -> orig <> [] -> fitz_open orig = Some doc ->
      pdf_in <> pdf_out ->
      last_attempt target_size_mb attempts_allowed (set_metadata_empty doc)
      = Some p ->
      within_tolerance target_size_mb p = false ->
      attempts_made target_size_mb attempts_allowed (set_metadata_empty doc)
      = attempts_allowed
      /\ compress_pdf pdf_in pdf_out target_size_mb quality attempts_allowed wp
         = (Ret (true, None),
            if length p <=? length orig
            then {| fs := <[pdf_out := p]> (fs wp);
                    log := log wp ++ start_log (size_mb orig) target_size_mb
                           ++ attempt_log pdf_out attempts_allowed
                           ++ [Warning "Compression complete but target not fully met";
                               Info "Achieved reduction";
                               Info "Tip: Try 'low' quality setting for more aggressive compression"] |}
            else {| fs := <[pdf_out := orig]> (fs wp);
                    log := log wp ++ start_log (size_mb orig) target_size_mb
                           ++ attempt_log pdf_out attempts_allowed
                           ++ [Warning "Compression increased file size";
                               Info "Using original file instead...";
                               Copy2 pdf_in pdf_out;
                               Warning "File cannot be compressed further";
                               Info "This PDF is already optimally compressed or has uncompressible content"] |})).
Proof.
  split.
  - intros Hin Hdec Hkb Hfmt img Hback.
    by apply resize_image_infeasible with (bytes := bytes).
  - intros Hin Horig Hopen Hne Hlast Hmiss.
    by apply compress_pdf_infeasible with (doc := doc).
Qed.

(** A 300-unit image cannot reach 1 KB even at quality 5; a 3-byte document
    that saves to 3 bytes cannot reach one millionth of a MB. *)
Lemma infeasible_target_is_success_witness :
  let w := {| fs := {[ "in.jpg"%string := repeat x00 300 ]}; log := [] |} in
  let wp := {| fs := {[ "in.pdf"%string := [x00; x00; x00] ]}; log := [] |} in
  let img := prepared (H := toy_pillow) "JPEG" None 300%nat in
  let lib := toy_mupdf (fun n => n) in
  (fs w !! "in.jpg"%string = Some (repeat x00 300)
   /\ decode (Pillow := toy_pillow) (repeat x00 300) = Some 300%nat
   /\ 1%Z <> 0%Z
   /\ String.eqb (upper "JPEG") "PNG" = false
   /\ (@None (Z * Z) <> None -> is_Some (decode (Pillow := toy_pillow) (jpeg_encode (Pillow := toy_pillow) img 5)))
   /\ exists qs s,
        quality_search (encoded_size (H := toy_pillow) img) (1 * 1024) 10 qs s
        /\ (found_solution s = false ->
            Forall (fun q => (1 * 1024 < encoded_size (H := toy_pillow) img q)%Z) qs
            /\ resize_image (H := toy_pillow) "in.jpg" "out.jpg" (Some 1%Z) None
                 "JPEG" 10 w
               = (Ret (true, None),
                  {| fs := <["out.jpg"%string := jpeg_encode (Pillow := toy_pillow) img 5]> (fs w);
                     log := log w ++ opening_log None
                            ++ [Info "Compressing to <= target KB..."] ++ probes qs
                            ++ [Warning "Could not meet target size even at lowest quality.";
                                ImageSave (File "out.jpg") (jpeg_args 5);
                                Success "Image processed"]
                            ++ closing_log None |})))
  /\ (fs wp !! "in.pdf"%string = Some [x00; x00; x00]
      /\ [x00; x00; x00] <> []
      /\ fitz_open (PyMuPDF := lib) [x00; x00; x00] = Some [x00; x00; x00]
      /\ "in.pdf"%string <> "out.pdf"%string
      /\ last_attempt (H := lib) (1 # 1000000) 5
           (set_metadata_empty (PyMuPDF := lib) [x00; x00; x00])
         = Some [x00; x00; x00]
      /\ within_tolerance (1 # 1000000) [x00; x00; x00] = false
      /\ attempts_made (H := lib) (1 # 1000000) 5
           (set_metadata_empty (PyMuPDF := lib) [x00; x00; x00]) = 5
      /\ compress_pdf (H := lib) "in.pdf" "out.pdf" (1 # 1000000) "medium" 5 wp
         = (Ret (true, None),
            if length [x00; x00; x00] <=? length [x00; x00; x00]
            then {| fs := <["out.pdf"%string := [x00; x00; x00]]> (fs wp);
                    log := log wp
                           ++ start_log (size_mb [x00; x00; x00]) (1 # 1000000)
                           ++ attempt_log "out.pdf" 5
                           ++ [Warning "Compression complete but target not fully met";
                               Info "Achieved reduction";
                               Info "Tip: Try 'low' quality setting for more aggressive compression"] |}
            else {| fs := <["out.pdf"%string := [x00; x00; x00]]> (fs wp);
                    log := log wp
                           ++ start_log (size_mb [x00; x00; x00]) (1 # 1000000)
                           ++ attempt_log "out.pdf" 5
                           ++ [Warning "Compression increased file size";
                               Info "Using original file instead...";
                               Copy2 "in.pdf" "out.pdf";
                               Warning "File cannot be compressed further";
                               Info "This PDF is already optimally compressed or has uncompressible content"] |})).
Proof.
  intros w wp img lib.
  pose proof (infeasible_target_is_success (H := toy_pillow) (H0 := lib)
                "in.jpg" "out.jpg" 1%Z None "JPEG" 10 w (repeat x00 300) 300%nat
                "in.pdf" "out.pdf" (1 # 1000000) "medium" 5 wp
                [x00; x00; x00] [x00; x00; x00] [x00; x00; x00]) as [HA HB].
  assert (H1 : fs w !! "in.jpg"%string = Some (repeat x00 300)) by reflexivity.
  assert (H2 : decode (Pillow := toy_pillow) (repeat x00 300) = Some 300%nat)
    by reflexivity.
  assert (H3 : 1%Z <> 0%Z) by discriminate.
  assert (H4 : String.eqb (upper "JPEG") "PNG" = false) by reflexivity.
  assert (H5 : @None (Z * Z) <> None -> is_Some (decode (Pillow := toy_pillow) (jpeg_encode (Pillow := toy_pillow) img 5)))
    by (intros Hd; by destruct Hd).
  assert (P1 : fs wp !! "in.pdf"%string = Some [x00; x00; x00]) by reflexivity.
  assert (P2 : [x00; x00; x00] <> []) by discriminate.
  assert (P3 : fitz_open (PyMuPDF := lib) [x00; x00; x00] = Some [x00; x00; x00])
    by reflexivity.
  assert (P4 : "in.pdf"%string <> "out.pdf"%string) by discriminate.
  assert (P5 : last_attempt (H := lib) (1 # 1000000) 5
                 (set_metadata_empty (PyMuPDF := lib) [x00; x00; x00])
               = Some [x00; x00; x00]) by reflexivity.
  assert (P6 : within_tolerance (1 # 1000000) [x00; x00; x00] = false)
    by reflexivity.
  split.
  - repeat (split; [assumption|]). exact (HA H1 H2 H3 H4 H5).
  - repeat (split; [assumption|]). exact (HB P1 P2 P3 P4 P5 P6).
Defined.

(** The image run of the example above: seven probes after the first, none
    fits, the file is written at quality 5. *)
Example resize_infeasible_run :
  let run := resize_image (H := toy_pillow) "in.jpg" "out.jpg" (Some 1%Z) None
               "JPEG" 10
               {| fs := {[ "in.jpg"%string := repeat x00 300 ]}; log := [] |} in
  run.1 = Ret (true, None)
  /\ length <$> (fs run.2 !! "out.jpg"%string) = Some 1500
  /\ log run.2
     = [Info "Processing..."; Info "Compressing to <= target KB..."]
       ++ probes [95; 50; 27; 15; 9; 6; 5]%Z
       ++ [Warning "Could not meet target size even at lowest quality.";
           ImageSave (File "out.jpg") (jpeg_args 5);
           Success "Image processed"].
Proof. vm_compute. repeat split. Qed.

End InfeasibilityClaims.


(** * Further properties *)

(** ** What the quality search finds *)

Module SearchOptimality.
Import Effects EffectsFacts PyStr ImageProcessor SearchFacts ResizeFacts.
Import ImageWrappers.
Local Open Scope Z_scope.

Lemma narrow_search_inv size_at target_bytes s mid s' :
  monotone_size size_at ->
  narrow size_at target_bytes s mid s' ->
  quality_low s <= quality_high s ->
  search_inv size_at target_bytes s -> search_inv size_at target_bytes s'.
Proof.
  intros Hmono Hn Hle (Hlo & Hhi & Hgap & Habove & Hfound & Hnone).
  pose proof (narrow_bounds _ _ _ _ _ Hn Hle) as (Hmid & _ & _).
  destruct Hn as [s m Hfit | s m Hex]; unfold search_inv; simpl; subst m.
  - repeat split; try lia; try done.
  - repeat split; try lia.
    + intros q Hq.
      destruct (Z_lt_le_dec (quality_high s) q) as [Hgt|Hin]; [apply Habove; lia|].
      eapply Z.lt_le_trans; [exact Hex|]. apply Hmono. lia.
    + by apply Hfound.
    + by apply Hfound.
    + by apply Hfound.
    + done.
Qed.

Lemma bisection_search_inv size_at target_bytes n s qs s' :
  monotone_size size_at ->
  bisection size_at target_bytes n s qs s' ->
  quality_low s <= quality_high s ->
  search_inv size_at target_bytes s -> search_inv size_at target_bytes s'.
Proof.
  intros Hmono Hb.
  induction Hb as [s | n s mid s' Hn Hc | n s mid s1 qs s' Hn Hc Hb IH];
    intros Hle Hinv; eauto using narrow_search_inv.
Qed.

(** The outcome of a search that ran until its bounds crossed. *)
Lemma quality_search_outcome size_at target_bytes n qs s :
  monotone_size size_at -> (7 <= n)%nat ->
  quality_search size_at target_bytes n qs s ->
  (found_solution s = true ->
   5 <= best_quality s <= 95
   /\ size_at (best_quality s) <= target_bytes
   /\ forall q, best_quality s < q <= 95 -> target_bytes < size_at q)
  /\ (found_solution s = false ->
      forall q, 5 <= q <= 95 -> target_bytes < size_at q).
Proof.
  intros Hmono Hn Hq. inversion Hq as [Htop | qs' s' Hex Hb]; subst.
  - simpl. split; [|done]. intros _. repeat split; try lia.
  - assert (Hcross : quality_high s < quality_low s).
    { apply (bisection_crosses _ _ _ _ _ _ Hb); simpl; [lia|].
      assert (2 ^ 7 <= 2 ^ Z.of_nat n) by (apply Z.pow_le_mono_r; lia). lia. }
    assert (Hinv : search_inv size_at target_bytes s).
    { apply (bisection_search_inv _ _ _ _ _ _ Hmono Hb); simpl; [lia|].
      unfold search_inv. simpl. repeat split; try lia; try done. }
    destruct Hinv as (Hlo & Hhi & Hgap & Habove & Hfound & Hnone).
    split.
    + intros Hf. destruct (Hfound Hf) as (Hbest & Hsix & Hfits).
      repeat split; try lia; try done. intros q Hq'. apply Habove. lia.
    + intros Hf. specialize (Hnone Hf). intros q Hq'. apply Habove. lia.
Qed.

Lemma jpeg_search_relation `{Pillow} img target_bytes n w s w' :
  jpeg_search img target_bytes n w = (Ret s, w') ->
  exists qs, quality_search (encoded_size img) target_bytes n qs s
             /\ w' = add_log w (probes qs).
Proof.
  intros Hrun.
  destruct (jpeg_search_spec img target_bytes n w) as (qs & s0 & Hq & Hrun0).
  rewrite Hrun0 in Hrun. injection Hrun as <- <-. by exists qs.
Qed.

(** The loop probes at most [k] qualities on an interval of fewer than
    [2 ^ k] qualities, however many iterations it is allowed. *)
Lemma bisection_length size_at target_bytes n s qs s' (k : nat) :
  bisection size_at target_bytes n s qs s' ->
  quality_low s <= quality_high s ->
  quality_high s - quality_low s + 1 < 2 ^ Z.of_nat k ->
  (length qs <= k)%nat /\ (length qs <= n)%nat.
Proof.
  intros Hb. revert k.
  induction Hb as [s | n s mid s' Hn Hc | n s mid s1 qs s' Hn Hc Hb IH];
    intros k Hle Hw.
  - simpl. lia.
  - destruct k as [|k]; [simpl in Hw; lia|]. simpl. lia.
  - destruct k as [|k]; [simpl in Hw; lia|].
    pose proof (narrow_halves _ _ _ _ _ Hn Hle).
    rewrite Nat2Z.inj_succ, Z.pow_succ_r in Hw by lia.
    destruct (IH k) as [? ?]; [done|lia|]. simpl. lia.
Qed.

End SearchOptimality.

Module SearchExtras.
Import Effects EffectsFacts PyStr ImageProcessor SearchFacts ResizeFacts.
Import ImageWrappers SearchOptimality Samples.
Local Open Scope Z_scope.

Lemma toy_monotone (img : nat) :
  monotone_size (encoded_size (H := toy_pillow) img).
Proof.
  intros q1 q2 Hq. unfold encoded_size. simpl.
  rewrite !repeat_length. apply inj_le, Nat.mul_le_mono_l. lia.
Qed.

(** X1. With an encoder whose output does not shrink as the quality grows
    and at least 7 iterations (the default is 10), the search ends on the
    largest quality in 5..95 whose encoding fits the target; when it finds
    none, no quality in 5..95 fits. *)
Theorem search_returns_largest_fitting_quality `{Pillow} (img : Image)
    (target_bytes : Z) (max_iterations : nat) (w w' : world) (s : search) :
  monotone_size (encoded_size img) -> (7 <= max_iterations)%nat ->
  jpeg_search img target_bytes max_iterations w = (Ret s, w') ->
  (found_solution s = true ->
   5 <= best_quality s <= 95
   /\ encoded_size img (best_quality s) <= target_bytes
   /\ forall q, best_quality s < q <= 95 -> target_bytes < encoded_size img q)
  /\ (found_solution s = false ->
      forall q, 5 <= q <= 95 -> target_bytes < encoded_size img q).
Proof.
  intros Hmono Hn Hrun.
  destruct (jpeg_search_relation _ _ _ _ _ _ Hrun) as (qs & Hq & _).
  by apply (quality_search_outcome _ _ _ _ _ Hmono Hn Hq).
Qed.

Lemma search_returns_largest_fitting_quality_witness :
  let w := {| fs := ∅; log := [] |} in
  let s := {| quality_low := 31; quality_high := 30; best_quality := 30;
              found_solution := true |} in
  let w' := {| fs := ∅; log := probes [95; 50; 27; 38; 32; 29; 30; 31] |} in
  monotone_size (encoded_size (H := toy_pillow) 1%nat)
  /\ (7 <= 10)%nat
  /\ jpeg_search (H := toy_pillow) 1%nat 30 10 w = (Ret s, w')
  /\ (found_solution s = true ->
      5 <= best_quality s <= 95
      /\ encoded_size (H := toy_pillow) 1%nat (best_quality s) <= 30
      /\ forall q, best_quality s < q <= 95 ->
                   30 < encoded_size (H := toy_pillow) 1%nat q)
  /\ (found_solution s = false ->
      forall q, 5 <= q <= 95 -> 30 < encoded_size (H := toy_pillow) 1%nat q).
Proof.
  intros w s w'.
  split; [apply toy_monotone|]. split; [lia|]. split; [reflexivity|].
  apply (search_returns_largest_fitting_quality (H := toy_pillow) 1%nat 30 10 w w' s);
    [apply toy_monotone | lia | reflexivity].
Defined.

(** X2. Under the same conditions a larger target never lowers the quality
    the file is written at. *)
Theorem quality_grows_with_budget `{Pillow} (img : Image) (t1 t2 : Z)
    (max_iterations : nat) (w1 w2 w1' w2' : world) (s1 s2 : search) :
  monotone_size (encoded_size img) -> (7 <= max_iterations)%nat -> t1 <= t2 ->
  jpeg_search img t1 max_iterations w1 = (Ret s1, w1') ->
  jpeg_search img t2 max_iterations w2 = (Ret s2, w2') ->
  final_quality s1 <= final_quality s2.
Proof.
  intros Hmono Hn Ht Hrun1 Hrun2.
  destruct (jpeg_search_relation _ _ _ _ _ _ Hrun1) as (qs1 & Hq1 & _).
  destruct (jpeg_search_relation _ _ _ _ _ _ Hrun2) as (qs2 & Hq2 & _).
  destruct (quality_search_outcome _ _ _ _ _ Hmono Hn Hq1) as [Hf1 Hn1].
  destruct (quality_search_outcome _ _ _ _ _ Hmono Hn Hq2) as [Hf2 Hn2].
  unfold final_quality.
  destruct (found_solution s1) eqn:E1; destruct (found_solution s2) eqn:E2.
  - destruct (Hf1 eq_refl) as (Hr1 & Hfit1 & _).
    destruct (Hf2 eq_refl) as (Hr2 & _ & Habove2).
    destruct (Z_le_gt_dec (best_quality s1) (best_quality s2)) as [|Hgt]; [done|].
    specialize (Habove2 (best_quality s1) ltac:(lia)). lia.
  - destruct (Hf1 eq_refl) as (Hr1 & Hfit1 & _).
    specialize (Hn2 eq_refl (best_quality s1) Hr1). lia.
  - destruct (Hf2 eq_refl) as (Hr2 & _). lia.
  - lia.
Qed.

Lemma quality_grows_with_budget_witness :
  let w := {| fs := ∅; log := [] |} in
  monotone_size (encoded_size (H := toy_pillow) 1%nat)
  /\ (7 <= 10)%nat /\ 3 <= 30
  /\ jpeg_search (H := toy_pillow) 1%nat 3 10 w
     = (Ret {| quality_low := 5; quality_high := 4; best_quality := 5;
               found_solution := false |},
        {| fs := ∅; log := probes [95; 50; 27; 15; 9; 6; 5] |})
  /\ jpeg_search (H := toy_pillow) 1%nat 30 10 w
     = (Ret {| quality_low := 31; quality_high := 30; best_quality := 30;
               found_solution := true |},
        {| fs := ∅; log := probes [95; 50; 27; 38; 32; 29; 30; 31] |})
  /\ final_quality {| quality_low := 5; quality_high := 4; best_quality := 5;
                      found_solution := false |}
     <= final_quality {| quality_low := 31; quality_high := 30; best_quality := 30;
                         found_solution := true |}.
Proof.
  intros w.
  split; [apply toy_monotone|]. split; [lia|]. split; [lia|].
  split; [reflexivity|]. split; [reflexivity|].
  apply (quality_grows_with_budget (H := toy_pillow) 1%nat 3 30 10 w w
           {| fs := ∅; log := probes [95; 50; 27; 15; 9; 6; 5] |}
           {| fs := ∅; log := probes [95; 50; 27; 38; 32; 29; 30; 31] |});
    [apply toy_monotone | lia | lia | reflexivity | reflexivity].
Defined.

(** X3. Whatever [max_iterations] is, the search encodes the image to a
    buffer at most 8 times (the probe at 95 and at most 7 in the loop), and
    at most [max_iterations + 1] times. *)
Theorem search_encodes_at_most_eight_times `{Pillow} (img : Image)
    (target_bytes : Z) (max_iterations : nat) (w : world) :
  exists qs s,
    jpeg_search img target_bytes max_iterations w = (Ret s, add_log w (probes qs))
    /\ (length qs <= 8)%nat /\ (length qs <= S max_iterations)%nat.
Proof.
  destruct (jpeg_search_spec img target_bytes max_iterations w)
    as (qs & s & Hq & Hrun).
  exists qs, s. split; [done|].
  inversion Hq as [Htop | qs' s' Hex Hb]; subst; [simpl; lia|].
  destruct (bisection_length _ _ _ _ _ _ 7%nat Hb) as [? ?]; simpl; lia.
Qed.

(** X4. [compress_image] without [preserve_transparency], on an encoder
    whose output does not shrink as the quality grows: the file it writes
    meets the target exactly when the encoding at quality 5 does. *)
Theorem compress_image_meets_target_iff `{Pillow} (input_file output_file : string)
    (kb : Z) (w : world) (bytes : list byte) (img0 : Image) :
  fs w !! input_file = Some bytes -> decode bytes = Some img0 -> kb <> 0 ->
  let img := normalize_mode "JPEG" img0 in
  monotone_size (encoded_size img) ->
  exists out,
    fs (compress_image input_file output_file kb false w).2 !! output_file
    = Some out
    /\ (Z.of_nat (length out) <= kb * 1024 <-> encoded_size img 5 <= kb * 1024).
Proof.
  intros Hin Hdec Hkb img Hmono. unfold compress_image.
  destruct (compress_to_target_jpeg img output_file "JPEG" kb 10
              (add_log w (opening_log None)) eq_refl)
    as (qs & s & Hq & Hrun).
  exists (jpeg_encode img (final_quality s)). split.
  - rewrite (resize_image_fs _ _ _ None "JPEG" _ _ _ _ _ _ Hin Hdec
               (truthy_Some kb Hkb) Hrun).
    simpl. by rewrite lookup_insert_eq.
  - assert (H7 : (7 <= 10)%nat) by lia.
    destruct (quality_search_outcome _ _ _ _ _ Hmono H7 Hq) as [Hf Hnf].
    unfold final_quality.
    destruct (found_solution s).
    + destruct (Hf eq_refl) as (Hr & Hfit & _).
      pose proof (Hmono 5 (best_quality s) ltac:(lia)) as Hfive.
      unfold encoded_size in *. lia.
    + specialize (Hnf eq_refl 5 ltac:(lia)). unfold encoded_size in *. lia.
Qed.

Lemma compress_image_meets_target_iff_witness :
  let w := {| fs := {[ "in.png"%string := [x00; x00] ]}; log := [] |} in
  let img := normalize_mode (H := toy_pillow) "JPEG" 2%nat in
  fs w !! "in.png"%string = Some [x00; x00]
  /\ decode (Pillow := toy_pillow) [x00; x00] = Some 2%nat
  /\ 1 <> 0
  /\ monotone_size (encoded_size (H := toy_pillow) img)
  /\ exists out,
       fs (compress_image (H := toy_pillow) "in.png" "out.jpg" 1 false w).2
         !! "out.jpg"%string = Some out
       /\ (Z.of_nat (length out) <= 1 * 1024
           <-> encoded_size (H := toy_pillow) img 5 <= 1 * 1024).
Proof.
  intros w img.
  split; [reflexivity|]. split; [reflexivity|]. split; [discriminate|].
  split; [apply toy_monotone|].
  apply (compress_image_meets_target_iff (H := toy_pillow) "in.png" "out.jpg" 1 w
           [x00; x00] 2%nat); [reflexivity | reflexivity | discriminate |].
  apply toy_monotone.
Defined.

End SearchExtras.

(** ** Files left alone, and failures that write nothing *)

Module FrameFacts.
Import Effects EffectsFacts Frame.

Lemma only_writes_ret {A} out (a : A) : only_writes out (ret a).
Proof. by intros w path _. Qed.

Lemma only_writes_raise {A} out e : only_writes out (@raise A e).
Proof. by intros w path _. Qed.

Lemma only_writes_emit out e : only_writes out (emit e).
Proof. by intros w path _. Qed.

Lemma only_writes_read_file out path : only_writes out (read_file path).
Proof. intros w p _. unfold read_file. by destruct (fs w !! path). Qed.

Lemma only_writes_write_file out b : only_writes out (write_file out b).
Proof. intros w p Hp. unfold write_file. simpl. by rewrite lookup_insert_ne. Qed.

Lemma only_writes_bind {A B} out (m : M A) (k : A -> M B) :
  only_writes out m -> (forall a, only_writes out (k a)) ->
  only_writes out (bind m k).
Proof.
  intros Hm Hk w path Hp. unfold bind.
  specialize (Hm w path Hp).
  destruct (m w) as [[a|e] w1]; simpl in *; [|done].
  by rewrite (Hk a w1 path Hp).
Qed.

Lemma only_writes_try_except {A} out (body : M A) (handler : exn -> M A) :
  only_writes out body -> (forall e, only_writes out (handler e)) ->
  only_writes out (try_except body handler).
Proof.
  intros Hb Hh w path Hp. unfold try_except.
  specialize (Hb w path Hp).
  destruct (body w) as [[a|e] w1]; simpl in *; [done|].
  by rewrite (Hh e w1 path Hp).
Qed.

Lemma only_writes_get_file_size out path : only_writes out (get_file_size path).
Proof.
  apply only_writes_bind; [apply only_writes_read_file|].
  intros b. apply only_writes_ret.
Qed.

Lemma only_writes_copy2 src out : only_writes out (copy2 src out).
Proof.
  apply only_writes_bind; [apply only_writes_emit|]. intros _.
  apply only_writes_bind; [apply only_writes_read_file|]. intros b.
  destruct (String.eqb src out);
    [apply only_writes_raise | apply only_writes_write_file].
Qed.

End FrameFacts.

Module ResizeFrame.
Import Effects EffectsFacts PyStr ImageProcessor Frame FrameFacts.

Section WithPillow.
Context `{Pillow}.

Lemma only_writes_image_open out path : only_writes out (image_open path).
Proof.
  apply only_writes_bind; [apply only_writes_read_file|]. intros b.
  destruct (decode b); [apply only_writes_ret | apply only_writes_raise].
Qed.

Lemma only_writes_search_loop out img target_bytes n s :
  only_writes out (search_loop img target_bytes n s).
Proof.
  revert s. induction n as [|n IH]; intros s; [apply only_writes_ret|].
  cbn [search_loop]. apply only_writes_bind.
  - apply only_writes_bind; [apply only_writes_emit|].
    intros _. apply only_writes_ret.
  - intros buffer. cbv zeta.
    destruct (_ <? _)%Z; [apply only_writes_ret | apply IH].
Qed.

Lemma only_writes_jpeg_search out img target_bytes n :
  only_writes out (jpeg_search img target_bytes n).
Proof.
  unfold jpeg_search. apply only_writes_bind.
  - apply only_writes_bind; [apply only_writes_emit|].
    intros _. apply only_writes_ret.
  - intros buffer. destruct (_ <=? _)%Z;
      [apply only_writes_ret | apply only_writes_search_loop].
Qed.

Lemma only_writes_compress_to_target img out output_format kb n :
  only_writes out (compress_to_target img out output_format kb n).
Proof.
  unfold compress_to_target, info, warning, success, save_png_file, save_jpeg_file.
  apply only_writes_bind; [apply only_writes_emit|]. intros _.
  apply only_writes_bind.
  - destruct (String.eqb (upper output_format) "PNG").
    + apply only_writes_bind.
      * apply only_writes_bind; [apply only_writes_emit|].
        intros _. apply only_writes_write_file.
      * intros _. apply only_writes_bind; [apply only_writes_get_file_size|].
        intros sz. destruct (_ <? _)%Z; [apply only_writes_emit | apply only_writes_ret].
    + apply only_writes_bind; [apply only_writes_jpeg_search|]. intros s.
      apply only_writes_bind.
      * destruct (negb (found_solution s)); [|apply only_writes_ret].
        apply only_writes_bind; [apply only_writes_emit|].
        intros _. apply only_writes_ret.
      * intros best. apply only_writes_bind; [apply only_writes_emit|].
        intros _. apply only_writes_write_file.
  - intros _. apply only_writes_bind; [apply only_writes_get_file_size|].
    intros sz. apply only_writes_emit.
Qed.

Lemma only_writes_resize_image input_file out target_size_kb dimensions
    output_format n :
  only_writes out
    (resize_image input_file out target_size_kb dimensions output_format n).
Proof.
  unfold resize_image. apply only_writes_try_except.
  2: { intros e. unfold error. apply only_writes_bind; [apply only_writes_emit|].
       intros _. apply only_writes_ret. }
  unfold resize_image_body, info, success.
  apply only_writes_bind; [apply only_writes_get_file_size|]. intros sz.
  apply only_writes_bind; [apply only_writes_emit|]. intros _.
  apply only_writes_bind; [apply only_writes_image_open|]. intros img.
  cbv zeta. apply only_writes_bind.
  { destruct dimensions; [|apply only_writes_ret].
    apply only_writes_bind; [apply only_writes_emit|].
    intros _. apply only_writes_ret. }
  intros img1. apply only_writes_bind.
  { destruct (truthy target_size_kb); [apply only_writes_compress_to_target|].
    unfold save_as_file. apply only_writes_bind.
    - apply only_writes_bind; [apply only_writes_emit|]. intros _.
      destruct (encode_as _ _ _);
        [apply only_writes_write_file | apply only_writes_raise].
    - intros _. apply only_writes_bind; [apply only_writes_get_file_size|].
      intros sz'. apply only_writes_emit. }
  intros _. apply only_writes_bind.
  { destruct dimensions; [|apply only_writes_ret].
    apply only_writes_bind; [apply only_writes_image_open|].
    intros _. apply only_writes_emit. }
  intros _. apply only_writes_ret.
Qed.

End WithPillow.

End ResizeFrame.

Module CompressorFrame.
Import Effects EffectsFacts Compressor CompressorFacts Frame FrameFacts.

Section WithPyMuPDF.
Context `{PyMuPDF}.

Lemma only_writes_get_pdf_size_mb out path : only_writes out (_get_pdf_size_mb path).
Proof.
  apply only_writes_bind; [apply only_writes_get_file_size|].
  intros sz. apply only_writes_ret.
Qed.

Lemma only_writes_document_save out doc a : only_writes out (document_save doc out a).
Proof.
  unfold document_save. apply only_writes_bind; [apply only_writes_emit|].
  intros _. destruct (save doc a) as [b doc'].
  apply only_writes_bind; [apply only_writes_write_file|].
  intros _. apply only_writes_ret.
Qed.

Lemma only_writes_attempts out st target_size_mb n attempt doc :
  only_writes out (attempts st out target_size_mb n attempt doc).
Proof.
  revert attempt doc. induction n as [|n IH]; intros attempt doc;
    [apply only_writes_ret|].
  cbn [attempts]. cbv zeta.
  apply only_writes_bind; [apply only_writes_document_save|]. intros doc1.
  apply only_writes_bind; [apply only_writes_get_pdf_size_mb|]. intros sz.
  apply only_writes_bind; [apply only_writes_emit|]. intros _.
  destruct (Qle_bool _ _); [apply only_writes_ret | apply IH].
Qed.

Lemma only_writes_finish input_file out target_size_mb original :
  only_writes out (finish input_file out target_size_mb original).
Proof.
  unfold finish, warning, info, success, float_div.
  apply only_writes_bind; [apply only_writes_get_pdf_size_mb|]. intros sz.
  apply only_writes_bind.
  { destruct (Qeq_bool _ _); [apply only_writes_raise | apply only_writes_ret]. }
  intros r. cbv zeta.
  destruct (negb _).
  - apply only_writes_bind; [apply only_writes_emit|]. intros _.
    apply only_writes_bind; [apply only_writes_emit|]. intros _.
    apply only_writes_bind; [apply only_writes_copy2|]. intros _.
    apply only_writes_bind; [apply only_writes_emit|]. intros _.
    apply only_writes_bind; [apply only_writes_emit|]. intros _.
    apply only_writes_ret.
  - destruct (Qle_bool _ _).
    + apply only_writes_bind; [apply only_writes_emit|]. intros _.
      apply only_writes_ret.
    + apply only_writes_bind; [apply only_writes_emit|]. intros _.
      apply only_writes_bind; [apply only_writes_emit|]. intros _.
      apply only_writes_bind; [apply only_writes_emit|]. intros _.
      apply only_writes_ret.
Qed.

Lemma only_writes_compress_pdf input_file out target_size_mb quality n :
  only_writes out (compress_pdf input_file out target_size_mb quality n).
Proof.
  unfold compress_pdf. apply only_writes_try_except.
  2: { intros e. unfold error. apply only_writes_bind; [apply only_writes_emit|].
       intros _. apply only_writes_ret. }
  apply only_writes_bind; [|intros _; apply only_writes_ret].
  unfold compress_pdf_body, info, warning, _strip_objects, document_open.
  apply only_writes_bind; [apply only_writes_get_pdf_size_mb|]. intros sz.
  apply only_writes_bind; [apply only_writes_emit|]. intros _.
  apply only_writes_bind.
  { destruct (Qle_bool _ _); [|apply only_writes_ret].
    apply only_writes_bind; [apply only_writes_emit|]. intros _.
    apply only_writes_emit. }
  intros _. cbv zeta.
  apply only_writes_bind.
  { apply only_writes_bind; [apply only_writes_read_file|]. intros b.
    destruct (fitz_open b); [apply only_writes_ret | apply only_writes_raise]. }
  intros doc. apply only_writes_bind.
  { apply only_writes_bind; [apply only_writes_emit|]. intros _.
    apply only_writes_ret. }
  intros doc1. apply only_writes_bind; [apply only_writes_emit|]. intros _.
  apply only_writes_bind; [apply only_writes_attempts|]. intros doc2.
  apply only_writes_finish.
Qed.


End WithPyMuPDF.

End CompressorFrame.

Module FrameExtras.
Import Effects EffectsFacts PyStr ImageProcessor Compressor CompressorFacts.
Import Frame FrameFacts ResizeFrame CompressorFrame ResizeFacts Samples.

(** X5. [resize_image] changes no file other than the output file,
    whatever its arguments and whether it succeeds or fails. *)
Theorem resize_image_touches_only_output `{Pillow} (input_file output_file : string)
    (target_size_kb : option Z) (dimensions : option (Z * Z))
    (output_format : string) (max_iterations : nat) (w : world) (path : string) :
  path <> output_file ->
  fs (resize_image input_file output_file target_size_kb dimensions
        output_format max_iterations w).2 !! path
  = fs w !! path.
Proof. intros Hp. by apply only_writes_resize_image. Qed.

Lemma resize_image_touches_only_output_witness :
  let w := {| fs := {[ "in.png"%string := [x00; x00] ]}; log := [] |} in
  "in.png"%string <> "out.jpg"%string
  /\ fs (resize_image (H := toy_pillow) "in.png" "out.jpg" (Some 1%Z) None
           "JPEG" 10 w).2 !! "in.png"%string
     = fs w !! "in.png"%string.
Proof.
  split; [discriminate|].
  apply (resize_image_touches_only_output (H := toy_pillow) "in.png" "out.jpg"
           (Some 1%Z) None "JPEG" 10
           {| fs := {[ "in.png"%string := [x00; x00] ]}; log := [] |} "in.png").
  discriminate.
Defined.

(** X6. [compress_pdf] changes no file other than the output file; in
    particular the input file is as it was whenever the two paths differ,
    on success and on failure. *)
Theorem compress_pdf_touches_only_output `{PyMuPDF} (input_file output_file : string)
    (target_size_mb : Q) (quality : string) (max_iterations : nat) (w : world)
    (path : string) :
  path <> output_file ->
  fs (compress_pdf input_file output_file target_size_mb quality
        max_iterations w).2 !! path
  = fs w !! path.
Proof. intros Hp. by apply only_writes_compress_pdf. Qed.

Lemma compress_pdf_touches_only_output_witness :
  let w := {| fs := {[ "in.pdf"%string := [x00; x00; x00] ]}; log := [] |} in
  "in.pdf"%string <> "out.pdf"%string
  /\ fs (compress_pdf (H := toy_mupdf (fun n => n + 5)%nat) "in.pdf" "out.pdf"
           1 "medium" 5 w).2 !! "in.pdf"%string
     = fs w !! "in.pdf"%string.
Proof.
  split; [discriminate|].
  apply (compress_pdf_touches_only_output (H := toy_mupdf (fun n => n + 5)%nat)
           "in.pdf" "out.pdf" 1 "medium" 5
           {| fs := {[ "in.pdf"%string := [x00; x00; x00] ]}; log := [] |} "in.pdf").
  discriminate.
Defined.







End FrameExtras.

(** ** Roman page numbers *)

Module RomanFacts.
Import Roman.
Local Open Scope Z_scope.

Lemma append_cons c s t :
  String.append (String.String c s) t = String.String c (String.append s t).
Proof. reflexivity. Qed.

Lemma lower_append s t : lower (String.append s t) = String.append (lower s) (lower t).
Proof.
  induction s as [|c s IH]; [done|].
  rewrite append_cons. cbn [lower]. by rewrite append_cons, IH.
Qed.

Lemma append_assoc s t u :
  String.append (String.append s t) u = String.append s (String.append t u).
Proof. induction s as [|c s IH]; [done|]. by rewrite !append_cons, IH. Qed.

Lemma append_empty_r s : String.append s String.EmptyString = s.
Proof. induction s as [|c s IH]; [done|]. by rewrite append_cons, IH. Qed.

(** The steps only append to the result they start from. *)
Lemma foldl_roman_step_prefix vs prefix num :
  foldl roman_step (prefix, num) vs
  = (String.append prefix (fst (foldl roman_step (String.EmptyString, num) vs)),
     snd (foldl roman_step (String.EmptyString, num) vs)).
Proof.
  revert prefix num. induction vs as [|[value numeral] vs IH]; intros prefix num.
  - simpl. by rewrite append_empty_r.
  - cbn [foldl]. unfold roman_step at 2 4 6.
    destruct (num / value =? 0).
    + apply IH.
    + rewrite IH.
      rewrite (IH (String.append String.EmptyString _)).
      cbn [fst snd String.append]. by rewrite append_assoc.
Qed.

Lemma lower_repeat_M k : lower (repeat_str "M" k) = repeat_str "m" k.
Proof. induction k as [|k IH]; [done|]. cbn [repeat_str]. by rewrite lower_append, IH. Qed.

(** After the step for 1000 the result holds the thousands and the number
    is what is left below 1000; this also holds for negative numbers, where
    nothing is appended. *)
Lemma first_step num :
  roman_step (String.EmptyString, num) (1000, "M"%string)
  = (repeat_str "M" (Z.to_nat (num / 1000)), num mod 1000).
Proof.
  unfold roman_step.
  pose proof (Z.div_mod num 1000 ltac:(lia)) as Hdm.
  destruct (Z.eqb_spec (num / 1000) 0) as [Hz|Hnz].
  - rewrite Hz. simpl. f_equal. lia.
  - f_equal. lia.
Qed.

Lemma to_roman_split num :
  _to_roman num
  = String.append (repeat_str "m" (Z.to_nat (num / 1000))) (below_1000 (num mod 1000)).
Proof.
  unfold _to_roman, below_1000.
  change values with ((1000, "M"%string) :: tail values) at 1.
  change (foldl roman_step (String.EmptyString, num) ((1000, "M"%string) :: tail values))
    with (foldl roman_step (roman_step (String.EmptyString, num) (1000, "M"%string))
            (tail values)).
  rewrite first_step, foldl_roman_step_prefix. cbn [fst].
  by rewrite lower_append, lower_repeat_M.
Qed.

Lemma roman_digit_le c : roman_digit c <= 1000.
Proof. unfold roman_digit. repeat (destruct (Ascii.eqb c _); [lia|]). lia. Qed.

Lemma roman_value_m s :
  roman_value (String.String "m" s) = roman_value s + 1000.
Proof.
  destruct s as [|c s]; [done|].
  cbn [roman_value]. change (roman_digit "m") with 1000.
  pose proof (roman_digit_le c).
  destruct (Z.ltb_spec 1000 (roman_digit c)) as [Hgt|Hle]; [exfalso; lia|done].
Qed.

Lemma roman_value_thousands k s :
  roman_value (String.append (repeat_str "m" k) s)
  = 1000 * Z.of_nat k + roman_value s.
Proof.
  induction k as [|k IH].
  - replace (String.append (repeat_str "m" 0) s) with s by reflexivity. lia.
  - replace (String.append (repeat_str "m" (S k)) s)
      with (String.String "m" (String.append (repeat_str "m" k) s))
      by (cbn [repeat_str]; by rewrite append_assoc).
    rewrite roman_value_m, IH. lia.
Qed.

(** Every numeral below 1000 reads back as its number. *)
Lemma below_1000_value r : 0 <= r < 1000 -> roman_value (below_1000 r) = r.
Proof.
  intros Hr.
  assert (Hall : forallb (fun n => roman_value (below_1000 (Z.of_nat n)) =? Z.of_nat n)
                   (seq 0 1000) = true) by (vm_compute; reflexivity).
  rewrite forallb_forall in Hall.
  specialize (Hall (Z.to_nat r)). rewrite Z2Nat.id in Hall by lia.
  apply Z.eqb_eq, Hall, in_seq. lia.
Qed.

Lemma to_roman_value num : 0 <= num -> roman_value (_to_roman num) = num.
Proof.
  intros Hn. rewrite to_roman_split, roman_value_thousands.
  pose proof (Z.div_mod num 1000 ltac:(lia)).
  pose proof (Z.mod_pos_bound num 1000 ltac:(lia)).
  pose proof (Z.div_pos num 1000 Hn ltac:(lia)).
  rewrite below_1000_value, Z2Nat.id by lia. lia.
Qed.

End RomanFacts.

Module RomanExtras.
Import Roman RomanFacts.
Local Open Scope Z_scope.

(** X10. For every number from 0 up, the numeral [_to_roman] builds reads
    back as that number (0 gives the empty string), so two different page
    numbers never get the same numeral. *)
Theorem to_roman_reads_back (num other : Z) :
  0 <= num -> 0 <= other ->
  roman_value (_to_roman num) = num
  /\ (_to_roman num = String.EmptyString <-> num = 0)
  /\ (_to_roman num = _to_roman other -> num = other).
Proof.
  intros Hn Ho. split; [by apply to_roman_value|]. split.
  - split.
    + intros He. rewrite <- (to_roman_value num Hn), He. done.
    + intros ->. reflexivity.
  - intros He. rewrite <- (to_roman_value num Hn), <- (to_roman_value other Ho).
    by rewrite He.
Qed.

Lemma to_roman_reads_back_witness :
  0 <= 1994 /\ 0 <= 4
  /\ roman_value (_to_roman 1994) = 1994
  /\ (_to_roman 1994 = String.EmptyString <-> 1994 = 0)
  /\ (_to_roman 1994 = _to_roman 4 -> 1994 = 4).
Proof.
  split; [lia|]. split; [lia|]. apply (to_roman_reads_back 1994 4); lia.
Defined.

Example to_roman_1994 : _to_roman 1994 = "mcmxciv"%string.
Proof. reflexivity. Qed.

(** X11. A negative number is not rejected: [_to_roman] gives it the
    numeral of its remainder modulo 1000, so -1 is written like 999. *)
Theorem to_roman_negative (num : Z) :
  num < 0 -> _to_roman num = _to_roman (num mod 1000).
Proof.
  intros Hn. rewrite (to_roman_split num), (to_roman_split (num mod 1000)).
  pose proof (Z.mod_pos_bound num 1000 ltac:(lia)).
  rewrite Z.mod_mod by lia.
  rewrite (Z.div_small (num mod 1000)) by lia.
  replace (Z.to_nat (num / 1000)) with 0%nat; [done|].
  assert (num / 1000 < 0) by (apply Z.div_lt_upper_bound; lia). lia.
Qed.

Lemma to_roman_negative_witness :
  -1 < 0 /\ _to_roman (-1) = _to_roman (-1 mod 1000).
Proof. split; [lia | apply (to_roman_negative (-1)); lia]. Defined.

Example to_roman_minus_one : _to_roman (-1) = "cmxcix"%string.
Proof. reflexivity. Qed.

End RomanExtras.

(** ** What [remove_blank_pages] saves *)

Module BlankRemovalFacts.
Import PyRange Executor Academic ExecutorFacts BlankRemoval.



Lemma omap_cons {A B} (f : A -> option B) (x : A) (l : list A) :
  omap f (x :: l)
  = match f x with Some y => y :: omap f l | None => omap f l end.
Proof. reflexivity. Qed.

Lemma omap_filter {A B} (f : A -> option B) (P : A -> Prop)
    `{!forall x, Decision (P x)} (l : list A) :
  omap f (filter P l) = omap (fun x => if decide (P x) then f x else None) l.
Proof.
  induction l as [|x l IH]; [done|].
  rewrite filter_cons, (omap_cons _ x l), <- IH.
  destruct (decide (P x)); [|done]. by rewrite omap_cons.
Qed.

Lemma omap_lookup_seq {A} (l : list A) (k : nat) (pre : list A) :
  length pre = k ->
  omap (fun i => (pre ++ l) !! i) (seq k (length l)) = l.
Proof.
  revert k pre. induction l as [|x l IH]; intros k pre Hk; [done|].
  cbn [length seq]. rewrite omap_cons.
  rewrite (list_lookup_middle pre l x k) by done.
  replace (pre ++ x :: l) with ((pre ++ [x]) ++ l)
    by (by rewrite <- app_assoc).
  rewrite (IH (S k) (pre ++ [x])); [done|].
  rewrite length_app. simpl. lia.
Qed.









End BlankRemovalFacts.

Module BlankRemovalExtras.
Import PyRange Executor Academic ExecutorFacts BlankRemoval BlankRemovalFacts.



(** Two white pages around a dark one: the white ones are dropped. *)
Example remove_blank_pages_sample :
  remove_blank_pages [[xff; xff; xff]; [x00; x00; x00]; [xff; xff; xff]]
    (98 # 100) [1; 2; 0] = Some [[x00; x00; x00]].
Proof. vm_compute. reflexivity. Qed.

End BlankRemovalExtras.

(** ** What [estimate_compression_feasibility] answers *)

Module FeasibilityFacts.
Import Effects EffectsFacts PyRange ExecutorFacts Compressor CompressorFacts
  Feasibility.



Section WithPyMuPDF.
Context `{PyMuPDF} (get_images : Document -> list (list nat)).

Lemma count_images_world pages page_nums total w :
  snd (count_images pages page_nums total w) = w.
Proof.
  revert total. induction page_nums as [|page_num rest IH]; intros total; [done|].
  cbn [count_images]. destruct (pages !! page_num); [apply IH|done].
Qed.

(** Counting over [range(len(doc))] never leaves the document. *)
Lemma count_images_seq (pre rest : list (list nat)) total w :
  count_images (pre ++ rest) (seq (length pre) (length rest)) total w
  = (Ret (total + image_total rest), w).
Proof.
  revert pre total. induction rest as [|images rest IH]; intros pre total.
  - simpl. unfold ret. do 2 f_equal. lia.
  - cbn [length seq count_images]. rewrite list_lookup_middle by done.
    replace (pre ++ images :: rest) with ((pre ++ [images]) ++ rest)
      by (by rewrite <- app_assoc).
    replace (S (length pre)) with (length (pre ++ [images]))
      by (rewrite length_app; simpl; lia).
    rewrite IH. do 2 f_equal. simpl. lia.
Qed.

Lemma count_images_range (pages : list (list nat)) w :
  count_images pages (range (length pages)) 0 w = (Ret (image_total pages), w).
Proof. rewrite range_seq. apply (count_images_seq [] pages 0 w). Qed.

Lemma document_open_world path w : snd (document_open path w) = w.
Proof.
  unfold document_open, bind, read_file.
  destruct (fs w !! path) as [b|]; [|done]. by destruct (fitz_open b).
Qed.

Lemma estimate_body_world input_file target_size_mb w :
  snd (estimate_body get_images input_file target_size_mb w) = w.
Proof.
  unfold estimate_body, bind.
  pose proof (document_open_world input_file w) as Ho.
  destruct (document_open input_file w) as [[doc|e] w1]; simpl in Ho; subst w1;
    [|done].
  rewrite count_images_range.
  unfold _get_pdf_size_mb, get_file_size, bind, read_file.
  destruct (fs w !! input_file) as [b|]; [|done].
  unfold ret, float_div.
  destruct (Qeq_bool _ 0); [done|]. unfold ret.
  repeat match goal with |- context [if ?c then _ else _] => destruct c end;
    done.
Qed.

End WithPyMuPDF.

End FeasibilityFacts.

Module FeasibilityExtras.
Import Effects EffectsFacts PyRange Compressor CompressorFacts Feasibility
  FeasibilityFacts Samples.



(** X14. The estimate never raises, logs nothing and writes nothing;
    when the input file is missing, or is no document, its answer is
    "not feasible" with the error as the message. *)
Theorem estimate_never_raises `{PyMuPDF}
    (get_images : Document -> list (list nat))
    (input_file : string) (target_size_mb : Q) (w : world) :
  exists answer,
    estimate_compression_feasibility get_images input_file target_size_mb w
    = (Ret answer, w)
    /\ (fs w !! input_file = None ->
        answer = (false, ErrorAnalyzing FileNotFoundError))
    /\ (forall b, fs w !! input_file = Some b -> fitz_open b = None ->
        answer = (false, ErrorAnalyzing FileDataError)).
Proof.
  unfold estimate_compression_feasibility, try_except.
  pose proof (estimate_body_world get_images input_file target_size_mb w) as Hw.
  destruct (estimate_body get_images input_file target_size_mb w)
    as [[answer|e] w1] eqn:Hbody; simpl in Hw; subst w1.
  - exists answer. split; [done|].
    unfold estimate_body, document_open, bind, read_file in Hbody.
    split.
    + intros Hnone. rewrite Hnone in Hbody. discriminate Hbody.
    + intros b Hb Hopen. rewrite Hb, Hopen in Hbody. discriminate Hbody.
  - exists (false, ErrorAnalyzing e). split; [done|].
    unfold estimate_body, document_open, bind, read_file in Hbody.
    split.
    + intros Hnone. rewrite Hnone in Hbody. by injection Hbody as <-.
    + intros b Hb Hopen. rewrite Hb, Hopen in Hbody. by injection Hbody as <-.
Qed.

Lemma estimate_never_raises_witness :
  let w := {| fs := ∅; log := [] |} in
  fs w !! "in.pdf"%string = None
  /\ estimate_compression_feasibility (H := toy_mupdf (fun n => n))
       (fun _ => []) "in.pdf" 1 w
     = (Ret (false, ErrorAnalyzing FileNotFoundError), w).
Proof.
  split; [reflexivity|].
  destruct (estimate_never_raises (H := toy_mupdf (fun n => n))
              (fun _ => []) "in.pdf" 1 {| fs := ∅; log := [] |})
    as (answer & Hrun & Hmissing & _).
  rewrite Hrun, (Hmissing eq_refl). reflexivity.
Defined.

End FeasibilityExtras.

(** ** What [reorder_pages] writes, and when it refuses *)

Module ReorderFacts.
Import Effects EffectsFacts PyText Reorder.
Local Open Scope Z_scope.


Lemma first_invalid_Some (total_pages : Z) (ok rest : list Z) (p : Z) :
  Forall (fun page_num => 1 <= page_num <= total_pages) ok ->
  p < 1 \/ total_pages < p ->
  first_invalid total_pages (ok ++ p :: rest) = Some p.
Proof.
  intros Hok Hp. unfold first_invalid.
  induction Hok as [|q l Hq _ IH]; cbn [app List.find].
  - replace ((p <? 1) || (total_pages <? p)) with true; [done|].
    symmetry. apply orb_true_iff. lia.
  - replace ((q <? 1) || (total_pages <? q)) with false; [done|].
    symmetry. apply orb_false_iff. lia.
Qed.

Section WithPages.
Context `{PdfPages}.

Lemma insert_pages_from (doc : list Page) (new_order : list Z)
    (output_doc : list Page) :
  foldl (fun output_doc page_num =>
           match doc !! Z.to_nat (page_num - 1) with
           | Some page => output_doc ++ [page]
           | None => output_doc
           end) output_doc new_order
  = output_doc ++ omap (fun page_num => doc !! Z.to_nat (page_num - 1)) new_order.
Proof.
  revert output_doc. induction new_order as [|q l IH]; intros output_doc.
  - by rewrite app_nil_r.
  - cbn [foldl]. rewrite IH, BlankRemovalFacts.omap_cons.
    destruct (doc !! Z.to_nat (q - 1)); [by rewrite <- app_assoc|done].
Qed.

Lemma insert_pages_omap (doc : list Page) (new_order : list Z) :
  insert_pages doc new_order
  = omap (fun page_num => doc !! Z.to_nat (page_num - 1)) new_order.
Proof. unfold insert_pages. by rewrite insert_pages_from. Qed.


(** Page numbers count from 1, page indices from 0. *)
Lemma omap_page_numbers (doc : list Page) (k n : nat) :
  omap (fun page_num : Z => doc !! Z.to_nat (page_num - 1))
    (map Z.of_nat (seq (S k) n))
  = omap (fun i => doc !! i) (seq k n).
Proof.
  revert k. induction n as [|n IH]; intros k; [done|].
  cbn [seq map]. rewrite !BlankRemovalFacts.omap_cons.
  replace (Z.to_nat (Z.of_nat (S k) - 1)) with k by lia.
  by rewrite IH.
Qed.

Lemma open_document_run path b doc w :
  fs w !! path = Some b -> open_pages b = Some doc ->
  open_document path w = (Ret doc, w).
Proof.
  intros Hb Hdoc. unfold open_document, bind, read_file. by rewrite Hb, Hdoc.
Qed.

End WithPages.

End ReorderFacts.

Module ReorderExtras.
Import Effects EffectsFacts PyText Reorder ReorderFacts.
Local Open Scope Z_scope.


(** X16. When the page order parses but lists a number that is no page
    of the input, [reorder_pages] returns [False] with the first such
    number in its message, and writes no file at all, also when earlier
    numbers were fine. *)
Theorem reorder_pages_rejects_first_invalid `{PdfPages}
    (py_int : string -> option Z)
    (input_file output_file page_order : string) (w : world)
    (b : list byte) (doc : list Page) (ok rest : list Z) (p : Z) :
  fs w !! input_file = Some b -> open_pages b = Some doc ->
  parse_page_order py_int page_order = Some (ok ++ p :: rest) ->
  Forall (fun page_num => 1 <= page_num <= Z.of_nat (length doc)) ok ->
  p < 1 \/ Z.of_nat (length doc) < p ->
  let error_msg := invalid_page_msg p (Z.of_nat (length doc)) in
  reorder_pages py_int input_file output_file page_order w
  = (Ret (false, Some error_msg),
     add_log w [Info "Reordering pages..."; Error error_msg]).
Proof.
  intros Hb Hdoc Hparse Hok Hp error_msg.
  unfold reorder_pages, try_except, info.
  rewrite bind_emit.
  erewrite bind_run; [|apply (open_document_run input_file b doc); done].
  rewrite Hparse, (first_invalid_Some _ ok rest p Hok Hp).
  unfold error. rewrite bind_emit. unfold ret. by rewrite add_log_app.
Qed.


Lemma reorder_pages_rejects_first_invalid_witness :
  let w := {| fs := {[ "in.pdf"%string := [x0a; x0b; x0c] ]}; log := [] |} in
  let doc := [x0a; x0b; x0c] in
  let error_msg := "Invalid page number: 4 (PDF has 3 pages)"%string in
  fs w !! "in.pdf"%string = Some doc
  /\ open_pages (PdfPages := ReorderSamples.toy_pages) doc = Some doc
  /\ parse_page_order ReorderSamples.digits_int "2,3-5,0" = Some ([2; 3] ++ 4 :: [5; 0])
  /\ Forall (fun page_num => 1 <= page_num <= Z.of_nat (length doc)) [2; 3]
  /\ (4 < 1 \/ Z.of_nat (length doc) < 4)
  /\ reorder_pages (H := ReorderSamples.toy_pages) ReorderSamples.digits_int
       "in.pdf" "out.pdf" "2,3-5,0" w
     = (Ret (false, Some error_msg),
        add_log w [Info "Reordering pages..."; Error error_msg]).
Proof.
  assert (Hok : Forall (fun page_num => 1 <= page_num <= 3) [2; 3])
    by (repeat constructor; lia).
  split; [reflexivity|]. split; [reflexivity|]. split; [reflexivity|].
  split; [exact Hok|]. split; [right; simpl; lia|].
  apply (reorder_pages_rejects_first_invalid (H := ReorderSamples.toy_pages)
           ReorderSamples.digits_int "in.pdf" "out.pdf" "2,3-5,0"
           {| fs := {[ "in.pdf"%string := [x0a; x0b; x0c] ]}; log := [] |}
           [x0a; x0b; x0c] [x0a; x0b; x0c] [2; 3] [5; 0] 4);
    [reflexivity | reflexivity | reflexivity | exact Hok | right; simpl; lia].
Defined.

(** X17. When the order lists every page number from 1 to the page count
    exactly once, in any order, the pages [reorder_pages] puts into the
    output are a rearrangement of the input's pages: none is lost and none
    is doubled. *)
Theorem reorder_pages_permutes `{PdfPages} (doc : list Page)
    (new_order : list Z) :
  new_order ≡ₚ map Z.of_nat (seq 1 (length doc)) ->
  insert_pages doc new_order ≡ₚ doc.
Proof.
  intros Hperm. rewrite insert_pages_omap, Hperm.
  assert (Hshift : omap (fun page_num : Z => doc !! Z.to_nat (page_num - 1))
                     (map Z.of_nat (seq 1 (length doc)))
                   = omap (fun i => doc !! i) (seq 0 (length doc))).
  { apply omap_page_numbers. }
  rewrite Hshift.
  pose proof (BlankRemovalFacts.omap_lookup_seq doc 0%nat [] eq_refl) as Hd.
  cbn [app] in Hd. by rewrite Hd.
Qed.

Lemma reorder_pages_permutes_witness :
  [3; 1; 2] ≡ₚ map Z.of_nat (seq 1 (length [x0a; x0b; x0c]))
  /\ insert_pages (H := ReorderSamples.toy_pages) [x0a; x0b; x0c] [3; 1; 2]
     ≡ₚ [x0a; x0b; x0c].
Proof.
  assert (Hperm : [3; 1; 2] ≡ₚ map Z.of_nat (seq 1 3)).
  { change (map Z.of_nat (seq 1 3)) with ([1; 2] ++ [3]).
    apply (Permutation_cons_append [1; 2] 3). }
  split; [exact Hperm|].
  apply (reorder_pages_permutes (H := ReorderSamples.toy_pages)
           [x0a; x0b; x0c] [3; 1; 2]).
  exact Hperm.
Defined.

(** A descending range lists no page, so it is not rejected whatever its
    bounds; here the empty document that results cannot be saved. *)
Example reorder_pages_descending_range :
  reorder_pages (H := ReorderSamples.toy_pages) ReorderSamples.digits_int
    "in.pdf" "out.pdf" "100-1"
    {| fs := {[ "in.pdf"%string := [x0a; x0b; x0c] ]}; log := [] |}
  = (Ret (false, Some (invalid_format_msg "100-1")),
     {| fs := {[ "in.pdf"%string := [x0a; x0b; x0c] ]};
        log := [Info "Reordering pages..."; Info "New order";
                Error (invalid_format_msg "100-1")] |}).
Proof. reflexivity. Qed.

End ReorderExtras.

(** ** Page labels never repeat *)

Module PageNumbersFacts.
Import PyText Roman RomanFacts PageNumbers.
Local Open Scope Z_scope.

Lemma to_int_not_nil (n : Z) :
  Z.to_int n <> Decimal.Pos Decimal.Nil /\ Z.to_int n <> Decimal.Neg Decimal.Nil.
Proof.
  destruct n as [|p|p]; simpl; split; try discriminate;
    intros [= Hp]; by apply DecimalPos.Unsigned.to_uint_nonnil in Hp.
Qed.

(** [str] of an integer can be read back. *)
Lemma str_int_inj (n m : Z) : str_int n = str_int m -> n = m.
Proof.
  intros Heq. apply DecimalZ.to_int_inj.
  destruct (to_int_not_nil n) as [Hn1 Hn2], (to_int_not_nil m) as [Hm1 Hm2].
  pose proof (DecimalString.NilZero.isi (Z.to_int n) Hn1 Hn2) as Hn.
  pose proof (DecimalString.NilZero.isi (Z.to_int m) Hm1 Hm2) as Hm.
  unfold str_int in Heq. rewrite Heq, Hm in Hn. by injection Hn.
Qed.

Lemma string_of_uint_nonempty (d : Decimal.uint) :
  DecimalString.NilZero.string_of_uint d <> String.EmptyString.
Proof. by destruct d. Qed.

(** Only the numbers from 0 to 9 are written with one character. *)
Lemma str_int_single (n : Z) (c : ascii) :
  str_int n = String.String c String.EmptyString -> 0 <= n <= 9.
Proof.
  unfold str_int. destruct n as [|p|p]; cbn [Z.to_int]; [lia| |].
  - intros Hs. pose proof (DecimalPos.Unsigned.of_to p) as Hp.
    cbn [DecimalString.NilZero.string_of_int] in Hs.
    destruct (Pos.to_uint p) as [|d|d|d|d|d|d|d|d|d|d];
      [simpl in Hp; lia|..];
      destruct d; try discriminate Hs; simpl in Hp; lia.
  - cbn [DecimalString.NilZero.string_of_int]. intros [= _ Hs].
    by apply string_of_uint_nonempty in Hs.
Qed.

Lemma chr_inj (i j : Z) (s : string) :
  i < 256 -> j < 256 -> chr i = Some s -> chr j = Some s -> i = j.
Proof.
  unfold chr. intros Hi Hj.
  destruct (i <? 0) eqn:Hi0; [done|]. destruct (j <? 0) eqn:Hj0; [done|].
  intros [= <-] [= Heq].
  apply (f_equal nat_of_ascii) in Heq.
  rewrite !nat_ascii_embedding in Heq by lia. lia.
Qed.

End PageNumbersFacts.

Module PageNumbersExtras.
Import PyText Roman RomanFacts PageNumbers PageNumbersFacts.
Local Open Scope Z_scope.

(** X18. Whatever the format style, two pages whose numbers are both at
    least 1 and differ never get the same text: Roman numerals, letters
    followed by decimals from 27 on, and plain decimals each tell the
    numbers apart. *)
Theorem page_text_tells_pages_apart (format_style : string) (n m : Z) :
  1 <= n -> 1 <= m -> n <> m ->
  exists a b,
    page_text format_style n = Some a
    /\ page_text format_style m = Some b
    /\ a <> b.
Proof.
  intros Hn Hm Hne. unfold page_text.
  destruct (String.eqb format_style "roman").
  { eexists _, _. split; [done|]. split; [done|]. intros Heq. apply Hne.
    by rewrite <- (to_roman_value n), <- (to_roman_value m), Heq by lia. }
  assert (Hdec : str_int n <> str_int m)
    by (intros Heq; by apply Hne, str_int_inj).
  destruct (String.eqb format_style "alpha"); [|by eexists _, _].
  assert (Hchr : forall k, 1 <= k <= 26 ->
            chr (96 + k)
            = Some (String.String (ascii_of_nat (Z.to_nat (96 + k)))
                      String.EmptyString)).
  { intros k Hk. unfold chr.
    destruct (96 + k <? 0) eqn:Hneg; [lia|done]. }
  destruct (n <=? 26) eqn:Hn26, (m <=? 26) eqn:Hm26.
  - rewrite !Hchr by lia. eexists _, _. split; [done|]. split; [done|].
    intros Heq. apply Hne.
    assert (96 + n = 96 + m); [|lia].
    apply (chr_inj _ _ (String.String (ascii_of_nat (Z.to_nat (96 + n)))
                          String.EmptyString)); try lia.
    + by apply Hchr; lia.
    + rewrite Heq. by apply Hchr; lia.
  - rewrite Hchr by lia. eexists _, _. split; [done|]. split; [done|].
    intros Heq. symmetry in Heq. apply str_int_single in Heq. lia.
  - rewrite Hchr by lia. eexists _, _. split; [done|]. split; [done|].
    intros Heq. apply str_int_single in Heq. lia.
  - by eexists _, _.
Qed.

Lemma page_text_tells_pages_apart_witness :
  1 <= 26 /\ 1 <= 27 /\ 26 <> 27
  /\ exists a b,
       page_text "alpha" 26 = Some a /\ page_text "alpha" 27 = Some b
       /\ a <> b.
Proof.
  split; [lia|]. split; [lia|]. split; [lia|].
  apply (page_text_tells_pages_apart "alpha" 26 27); lia.
Defined.

(** The letters stop at 26; a start number of 0 gives an empty Roman
    label and a back quote in the alphabetic style. *)
Example page_texts_sample :
  page_texts "alpha" 25 3 = [Some "y"; Some "z"; Some "27"]%string
  /\ page_texts "roman" 0 2 = [Some ""; Some "i"]%string
  /\ page_texts "alpha" 0 2 = [Some "`"; Some "a"]%string
  /\ page_texts "alpha" (-97) 1 = [None].
Proof. repeat split; reflexivity. Qed.

End PageNumbersExtras.

(** ** What [compare_pdfs] marks and reports *)

Module CompareFacts.
Import Effects EffectsFacts PyText PyRange ExecutorFacts Reorder ReorderFacts
  Compare.

Section WithPages.
Context `{PageMarks}.

Lemma changed_lt (doc1 doc2 : list Page) (i : nat) :
  changed doc1 doc2 i = true -> i < min (length doc1) (length doc2).
Proof.
  unfold changed. destruct (doc1 !! i) eqn:H1; [|done].
  destruct (doc2 !! i) eqn:H2; [|done]. intros _.
  apply lookup_lt_Some in H1, H2. lia.
Qed.

Lemma marked_upto_all (doc1 doc2 : list Page) :
  marked_upto doc1 doc2 (min (length doc1) (length doc2)) = marked doc1 doc2.
Proof.
  apply imap_ext. intros i page2 _.
  destruct (changed doc1 doc2 i) eqn:Hc; [|by rewrite andb_false_r].
  apply changed_lt in Hc. by rewrite (proj2 (Nat.ltb_lt _ _) Hc).
Qed.

Lemma marked_upto_0 (doc1 doc2 : list Page) : marked_upto doc1 doc2 0 = doc2.
Proof.
  unfold marked_upto. rewrite <- (list_fmap_id doc2) at 2.
  rewrite <- imap_const. by apply imap_ext.
Qed.

Lemma compare_pages_app (doc1 doc2 : list Page) (l1 l2 : list nat)
    (st : progress) (w : world) :
  compare_pages doc1 doc2 (l1 ++ l2) st w
  = bind (compare_pages doc1 doc2 l1 st) (compare_pages doc1 doc2 l2) w.
Proof.
  revert st w. induction l1 as [|i l1 IH]; intros st w; [done|].
  cbn [app compare_pages]. unfold bind.
  destruct (compare_page doc1 doc2 st i w) as [[st'|e] w']; [|done].
  rewrite IH. done.
Qed.

(** The page loop never leaves the two documents, marks the changed pages
    among the first [k] and counts them. *)
Lemma compare_pages_run (doc1 doc2 : list Page) (report : list string)
    (k : nat) (w : world) :
  k <= min (length doc1) (length doc2) ->
  compare_pages doc1 doc2 (seq 0 k)
    {| output_doc := doc2; differences_found := 0; diff_report := report |} w
  = (Ret {| output_doc := marked_upto doc1 doc2 k;
            differences_found :=
              length (filter (fun i => changed doc1 doc2 i = true) (seq 0 k));
            diff_report :=
              report ++ map changed_line
                          (filter (fun i => changed doc1 doc2 i = true)
                             (seq 0 k)) |}, w).
Proof.
  induction k as [|k IH]; intros Hk.
  - cbn [seq compare_pages]. unfold ret.
    by rewrite marked_upto_0, filter_nil, app_nil_r.
  - rewrite seq_S, compare_pages_app, (bind_run _ _ _ _ _ (IH ltac:(lia))).
    cbn [Nat.add compare_pages]. unfold compare_page. cbn [output_doc].
    destruct (lookup_lt_is_Some_2 doc1 k ltac:(lia)) as [page1 H1].
    destruct (lookup_lt_is_Some_2 doc2 k ltac:(lia)) as [page2 H2].
    assert (Hout : marked_upto doc1 doc2 k !! k = Some page2).
    { unfold marked_upto. rewrite list_lookup_imap, H2. simpl.
      by rewrite Nat.ltb_irrefl. }
    rewrite H1, H2, Hout, filter_app.
    assert (Hck : changed doc1 doc2 k
                  = negb (String.eqb (get_text page1) (get_text page2))).
    { unfold changed. by rewrite H1, H2. }
    destruct (String.eqb (get_text page1) (get_text page2)) eqn:Htext.
    + rewrite bind_ret. cbn [compare_pages]. unfold ret.
      rewrite filter_cons_False by (rewrite Hck; done).
      rewrite filter_nil, app_nil_r. do 3 f_equal.
      apply imap_ext. intros i p _.
      destruct (decide (i = k)) as [->|Hne].
      * by rewrite Hck, !andb_false_r.
      * replace (i <? S k) with (i <? k); [done|].
        destruct (i <? k) eqn:Hlt.
        -- apply Nat.ltb_lt in Hlt. symmetry. apply Nat.ltb_lt. lia.
        -- apply Nat.ltb_ge in Hlt. symmetry. apply Nat.ltb_ge. lia.
    + rewrite bind_ret. cbn [compare_pages]. unfold ret.
      rewrite filter_cons_True by (rewrite Hck; done).
      rewrite filter_nil, length_app, map_app, app_assoc. cbn [length map].
      rewrite Nat.add_1_r. do 3 f_equal.
      apply list_eq. intros i. unfold marked_upto.
      rewrite list_lookup_imap.
      destruct (decide (i = k)) as [->|Hne].
      * rewrite list_lookup_insert_eq
          by (rewrite length_imap; apply lookup_lt_Some in H2; lia).
        rewrite H2. simpl. rewrite Hck.
        by rewrite (proj2 (Nat.ltb_lt k (S k)) ltac:(lia)).
      * rewrite list_lookup_insert_ne by done. rewrite list_lookup_imap.
        replace (i <? S k) with (i <? k); [done|].
        destruct (i <? k) eqn:Hlt.
        -- apply Nat.ltb_lt in Hlt. symmetry. apply Nat.ltb_lt. lia.
        -- apply Nat.ltb_ge in Hlt. symmetry. apply Nat.ltb_ge. lia.
Qed.

Lemma compare_pdfs_run (name summary_path : string -> string)
    (original_file modified_file output_file : string) (w : world)
    (b1 b2 out : list byte) (doc1 doc2 : list Page) :
  fs w !! original_file = Some b1 -> open_pages b1 = Some doc1 ->
  fs w !! modified_file = Some b2 -> open_pages b2 = Some doc2 ->
  save_pages (marked doc1 doc2) = Bytes out ->
  compare_pdfs name summary_path original_file modified_file output_file w
  = (Ret (true, None),
     {| fs := <[summary_path output_file :=
                  String.list_byte_of_string
                    (summary_text name original_file modified_file
                       (report_lines doc1 doc2))]>
                (<[output_file := out]> (fs w));
        log := log w ++ compare_log doc1 doc2 |}).
Proof.
  intros Hb1 Hdoc1 Hb2 Hdoc2 Hsave.
  unfold compare_pdfs, try_except, info. rewrite bind_emit.
  erewrite bind_run; [|apply (open_document_run original_file b1 doc1); done].
  erewrite bind_run; [|apply (open_document_run modified_file b2 doc2); done].
  unfold compare_log, report_lines, changed_pages.
  set (min_pages := min (length doc1) (length doc2)).
  destruct (length doc1 =? length doc2) eqn:Hlen; cbn [negb].
  - rewrite bind_ret, range_seq.
    rewrite (bind_run _ _ _ _ _
               (compare_pages_run doc1 doc2 [] min_pages _ (Nat.le_refl _))).
    cbn [output_doc diff_report differences_found].
    unfold min_pages at 1. rewrite marked_upto_all, Hsave.
    unfold write_file, bind, ret, success, emit, add_log. cbn [fs log].
    destruct (0 <? _); cbn; by rewrite <- !app_assoc.
  - erewrite bind_run; [|reflexivity]. rewrite range_seq.
    rewrite (bind_run _ _ _ _ _
               (compare_pages_run doc1 doc2 _ min_pages _ (Nat.le_refl _))).
    cbn [output_doc diff_report differences_found].
    unfold min_pages at 1. rewrite marked_upto_all, Hsave.
    unfold write_file, bind, ret, success, emit, add_log. cbn [fs log].
    destruct (0 <? _); cbn; by rewrite <- !app_assoc.
Qed.

End WithPages.

End CompareFacts.

Module CompareExtras.
Import Effects EffectsFacts PyText PyRange Reorder ReorderFacts Compare
  CompareFacts ReorderSamples CompareSamples.

(** X19. When both files open and the result can be saved,
    [compare_pdfs] succeeds and saves a copy of the modified document in
    which a page is marked exactly when the original has a page of the
    same number with a different text; pages the original does not have
    are copied unmarked, and the number of marked pages is at most the
    page count of the shorter document. *)
Theorem compare_pdfs_marks_changed_pages `{PageMarks}
    (name summary_path : string -> string)
    (original_file modified_file output_file : string) (w : world)
    (b1 b2 out : list byte) (doc1 doc2 : list Page) :
  fs w !! original_file = Some b1 -> open_pages b1 = Some doc1 ->
  fs w !! modified_file = Some b2 -> open_pages b2 = Some doc2 ->
  save_pages (marked doc1 doc2) = Bytes out ->
  (exists w',
     compare_pdfs name summary_path original_file modified_file output_file w
     = (Ret (true, None), w')
     /\ (summary_path output_file <> output_file ->
         fs w' !! output_file = Some out))
  /\ length (marked doc1 doc2) = length doc2
  /\ (forall i page2, doc2 !! i = Some page2 ->
        marked doc1 doc2 !! i
        = Some (match doc1 !! i with
                | Some page1 =>
                    if String.eqb (get_text page1) (get_text page2)
                    then page2 else mark page2
                | None => page2
                end))
  /\ length (changed_pages doc1 doc2) <= min (length doc1) (length doc2).
Proof.
  intros Hb1 Hdoc1 Hb2 Hdoc2 Hsave. split; [|split; [|split]].
  - eexists. split.
    + by apply (compare_pdfs_run name summary_path original_file modified_file
                  output_file w b1 b2 out doc1 doc2).
    + intros Hne. cbn [fs]. rewrite lookup_insert_ne by done.
      apply lookup_insert_eq.
  - unfold marked. apply length_imap.
  - intros i page2 H2. unfold marked, changed.
    rewrite list_lookup_imap, H2. simpl.
    destruct (doc1 !! i) as [page1|]; [|done].
    by destruct (String.eqb (get_text page1) (get_text page2)).
  - unfold changed_pages.
    etrans; [apply length_filter|]. by rewrite length_seq.
Qed.

Lemma compare_pdfs_marks_changed_pages_witness :
  let w := {| fs := {[ "a.pdf"%string := [x41; x42];
                       "b.pdf"%string := [x41; x43; x44] ]}; log := [] |} in
  let name := fun path : string => path in
  let summary_path := fun _ : string => "out_report.txt"%string in
  fs w !! "a.pdf"%string = Some [x41; x42]
  /\ open_pages (PdfPages := toy_pages) [x41; x42] = Some [x41; x42]
  /\ fs w !! "b.pdf"%string = Some [x41; x43; x44]
  /\ open_pages (PdfPages := toy_pages) [x41; x43; x44] = Some [x41; x43; x44]
  /\ save_pages (PdfPages := toy_pages)
       (marked (H0 := toy_marks) [x41; x42] [x41; x43; x44])
     = Bytes [x41; xff; x44]
  /\ (exists w',
        compare_pdfs (H0 := toy_marks) name summary_path
          "a.pdf" "b.pdf" "out.pdf" w
        = (Ret (true, None), w')
        /\ (summary_path "out.pdf"%string <> "out.pdf"%string ->
            fs w' !! "out.pdf"%string = Some [x41; xff; x44]))
  /\ length (marked (H0 := toy_marks) [x41; x42] [x41; x43; x44])
     = length [x41; x43; x44]
  /\ (forall i page2, [x41; x43; x44] !! i = Some page2 ->
        marked (H0 := toy_marks) [x41; x42] [x41; x43; x44] !! i
        = Some (match [x41; x42] !! i with
                | Some page1 =>
                    if String.eqb (get_text (PageMarks := toy_marks) page1)
                         (get_text (PageMarks := toy_marks) page2)
                    then page2 else mark (H0 := toy_marks) page2
                | None => page2
                end))
  /\ length (changed_pages (H0 := toy_marks) [x41; x42] [x41; x43; x44])
     <= min (length [x41; x42]) (length [x41; x43; x44]).
Proof.
  split; [reflexivity|]. split; [reflexivity|]. split; [reflexivity|].
  split; [reflexivity|]. split; [reflexivity|].
  apply (compare_pdfs_marks_changed_pages (H0 := toy_marks)
           (fun path : string => path)
           (fun _ : string => "out_report.txt"%string)
           "a.pdf" "b.pdf" "out.pdf"
           {| fs := {[ "a.pdf"%string := [x41; x42];
                       "b.pdf"%string := [x41; x43; x44] ]}; log := [] |}
           [x41; x42] [x41; x43; x44] [x41; xff; x44]
           [x41; x42] [x41; x43; x44]); reflexivity.
Defined.

(** X20. When the two documents differ in page count but every page they
    share has the same text, [compare_pdfs] warns about the page count
    and writes that change into the report, yet it announces "No
    differences found" and saves an unmarked copy of the modified
    document. *)
Theorem compare_pdfs_page_count_only `{PageMarks}
    (name summary_path : string -> string)
    (original_file modified_file output_file : string) (w : world)
    (b1 b2 out : list byte) (doc1 doc2 : list Page) :
  fs w !! original_file = Some b1 -> open_pages b1 = Some doc1 ->
  fs w !! modified_file = Some b2 -> open_pages b2 = Some doc2 ->
  save_pages doc2 = Bytes out ->
  length doc1 <> length doc2 ->
  (forall i page1 page2, doc1 !! i = Some page1 -> doc2 !! i = Some page2 ->
     get_text page1 = get_text page2) ->
  compare_pdfs name summary_path original_file modified_file output_file w
  = (Ret (true, None),
     {| fs := <[summary_path output_file :=
                  String.list_byte_of_string
                    (summary_text name original_file modified_file
                       [page_count_line doc1 doc2])]>
                (<[output_file := out]> (fs w));
        log := log w ++ [Info "Comparing..."; Warning "Page count differs";
                         Success "No differences found. Saved copy"] |}).
Proof.
  intros Hb1 Hdoc1 Hb2 Hdoc2 Hsave Hlen Hsame.
  assert (Hunchanged : forall i, changed doc1 doc2 i = false).
  { intros i. unfold changed.
    destruct (doc1 !! i) as [page1|] eqn:H1; [|done].
    destruct (doc2 !! i) as [page2|] eqn:H2; [|done].
    rewrite (Hsame i page1 page2 H1 H2). by rewrite String.eqb_refl. }
  assert (Hmarked : marked doc1 doc2 = doc2).
  { unfold marked. rewrite <- (list_fmap_id doc2) at 2.
    rewrite <- imap_const. apply imap_ext. intros i p _.
    by rewrite Hunchanged. }
  assert (Hnone : changed_pages doc1 doc2 = []).
  { unfold changed_pages.
    induction (seq 0 (min (length doc1) (length doc2))) as [|i l IH]; [done|].
    rewrite filter_cons_False by (by rewrite Hunchanged). exact IH. }
  rewrite (compare_pdfs_run name summary_path original_file modified_file
             output_file w b1 b2 out doc1 doc2)
    by (try done; by rewrite Hmarked).
  unfold report_lines, compare_log. rewrite Hnone.
  by rewrite (proj2 (Nat.eqb_neq _ _) Hlen).
Qed.

Lemma compare_pdfs_page_count_only_witness :
  let w := {| fs := {[ "a.pdf"%string := [x41; x42];
                       "b.pdf"%string := [x41; x42; x43] ]}; log := [] |} in
  let name := fun path : string => path in
  let summary_path := fun _ : string => "out_report.txt"%string in
  fs w !! "a.pdf"%string = Some [x41; x42]
  /\ open_pages (PdfPages := toy_pages) [x41; x42] = Some [x41; x42]
  /\ fs w !! "b.pdf"%string = Some [x41; x42; x43]
  /\ open_pages (PdfPages := toy_pages) [x41; x42; x43] = Some [x41; x42; x43]
  /\ save_pages (PdfPages := toy_pages) [x41; x42; x43] = Bytes [x41; x42; x43]
  /\ length [x41; x42] <> length [x41; x42; x43]
  /\ (forall i page1 page2, [x41; x42] !! i = Some page1 ->
        [x41; x42; x43] !! i = Some page2 ->
        get_text (PageMarks := toy_marks) page1
        = get_text (PageMarks := toy_marks) page2)
  /\ compare_pdfs (H0 := toy_marks) name summary_path
       "a.pdf" "b.pdf" "out.pdf" w
     = (Ret (true, None),
        {| fs := <["out_report.txt"%string :=
                     String.list_byte_of_string
                       (summary_text name "a.pdf" "b.pdf"
                          [page_count_line (H := toy_pages)
                             [x41; x42] [x41; x42; x43]])]>
                   (<["out.pdf"%string := [x41; x42; x43]]> (fs w));
           log := log w ++ [Info "Comparing..."; Warning "Page count differs";
                            Success "No differences found. Saved copy"] |}).
Proof.
  assert (Hsame : forall (i : nat) (page1 page2 : byte),
            [x41; x42] !! i = Some page1 ->
            [x41; x42; x43] !! i = Some page2 ->
            get_text (PageMarks := toy_marks) page1
            = get_text (PageMarks := toy_marks) page2).
  { intros [|[|i]] page1 page2 H1 H2; simpl in H1, H2; try discriminate H1;
      injection H1 as <-; injection H2 as <-; reflexivity. }
  split; [reflexivity|]. split; [reflexivity|]. split; [reflexivity|].
  split; [reflexivity|]. split; [reflexivity|]. split; [discriminate|].
  split; [exact Hsame|].
  apply (compare_pdfs_page_count_only (H0 := toy_marks)
           (fun path : string => path)
           (fun _ : string => "out_report.txt"%string)
           "a.pdf" "b.pdf" "out.pdf"
           {| fs := {[ "a.pdf"%string := [x41; x42];
                       "b.pdf"%string := [x41; x42; x43] ]}; log := [] |}
           [x41; x42] [x41; x42; x43] [x41; x42; x43]
           [x41; x42] [x41; x42; x43]);
    try reflexivity; [discriminate | exact Hsame].
Defined.

End CompareExtras.

(** ** The files [pdf_to_images] leaves behind *)

Module PdfToImagesFacts.
Import Effects EffectsFacts PyStr PyText PyRange PageChunks PageChunksFacts
  Reorder ReorderFacts PdfToImages.

Section WithRenderer.
Context `{Renderer} (stem : string -> string)
  (joinpath : string -> string -> string).
Context (doc : list Page) (input_pdf output_dir output_format : string)
  (dpi : Z).

Local Abbreviation path_of :=
  (output_path stem joinpath input_pdf output_dir output_format).
Local Abbreviation written_by :=
  (written stem joinpath doc input_pdf output_dir output_format dpi).

Lemma written_app (l1 l2 : list nat) files :
  written_by (l1 ++ l2) files = written_by l2 (written_by l1 files).
Proof. unfold written. apply foldl_app. Qed.

Lemma written_cons (p : nat) (l : list nat) files :
  written_by (p :: l) files
  = written_by l
      match doc !! p ≫= page_image output_format dpi with
      | Some b => <[path_of p := b]> files
      | None => files
      end.
Proof. reflexivity. Qed.

Lemma written_other (pages : list nat) files path :
  (forall p, p ∈ pages -> path_of p <> path) ->
  written_by pages files !! path = files !! path.
Proof.
  revert files. induction pages as [|p l IH]; intros files Hother; [done|].
  rewrite written_cons.
  rewrite IH by (intros q Hq; apply Hother; by right).
  destruct (doc !! p ≫= page_image output_format dpi); [|done].
  apply lookup_insert_ne, Hother. by left.
Qed.

Lemma written_page (pages : list nat) files p page b :
  (forall q, q ∈ pages -> path_of q = path_of p -> q = p) ->
  p ∈ pages -> doc !! p = Some page ->
  page_image output_format dpi page = Some b ->
  written_by pages files !! path_of p = Some b.
Proof.
  intros Hinj Hin Hpage Himg. revert files Hinj Hin.
  induction pages as [|q l IH]; intros files Hinj Hin.
  { by apply elem_of_nil in Hin. }
  rewrite written_cons.
  destruct (decide (p ∈ l)) as [Hl|Hl].
  { apply IH; [|done]. intros r Hr. apply Hinj. by right. }
  apply elem_of_cons in Hin as [->|Hin]; [|done].
  rewrite written_other.
  - rewrite Hpage. simpl. rewrite Himg. apply lookup_insert_eq.
  - intros r Hr Heq. apply Hl.
    rewrite <- (Hinj r ltac:(by right) Heq). done.
Qed.

Lemma render_pages_run (pages : list nat) (processed_count : nat) (w : world) :
  renderable doc output_format dpi ->
  Forall (fun p => p < length doc) pages ->
  render_pages stem joinpath doc input_pdf output_dir output_format dpi pages
    processed_count w
  = (Ret (processed_count + length pages),
     {| fs := written_by pages (fs w); log := log w |}).
Proof.
  intros Hrender Hpages. revert processed_count w.
  induction Hpages as [|p l Hp _ IH]; intros processed_count w.
  - cbn [render_pages length]. unfold ret, written. cbn [foldl].
    rewrite Nat.add_0_r. by destruct w.
  - cbn [render_pages length]. rewrite written_cons.
    apply lookup_lt_is_Some in Hp as [page Hpage].
    destruct (Hrender page (list_elem_of_lookup_2 _ _ _ Hpage)) as [b Himg].
    rewrite Hpage. cbn [mbind option_bind]. rewrite Himg.
    assert (Hstep : render_page stem joinpath doc input_pdf output_dir
                      output_format dpi p w
                    = (Ret tt, {| fs := <[path_of p := b]> (fs w);
                                  log := log w |})).
    { unfold render_page. rewrite Hpage. unfold page_image in Himg.
      destruct (String.eqb (upper output_format) "PNG").
      - by injection Himg as <-.
      - by rewrite Himg. }
    rewrite (bind_run _ _ _ _ _ Hstep), IH. cbn [fs log].
    do 2 f_equal. lia.
Qed.

Lemma worker_run (pages : list nat) (b : list byte) (w : world) :
  renderable doc output_format dpi ->
  Forall (fun p => p < length doc) pages ->
  fs w !! input_pdf = Some b -> open_pages b = Some doc ->
  _process_pdf_page_chunk stem joinpath
    (input_pdf, output_dir, output_format, dpi, pages) w
  = (Ret (length pages), {| fs := written_by pages (fs w); log := log w |}).
Proof.
  intros Hrender Hpages Hb Hdoc. unfold _process_pdf_page_chunk.
  rewrite (bind_run _ _ _ _ _ (open_document_run input_pdf b doc w Hb Hdoc)).
  by rewrite render_pages_run.
Qed.

Lemma pages_of_cons (chunks : list (list nat)) (k : nat) (l : list nat) :
  pages_of chunks (k :: l) = default [] (chunks !! k) ++ pages_of chunks l.
Proof. reflexivity. Qed.

(** The workers, in whatever order they finish, leave the images of
    their pages and a count in every future. *)
Lemma run_workers_run (chunks : list (list nat)) (completion : list nat)
    (futures : gmap nat (res nat)) (b : list byte) (w : world) :
  renderable doc output_format dpi ->
  Forall (Forall (fun p => p < length doc)) chunks ->
  (forall p, path_of p <> input_pdf) ->
  fs w !! input_pdf = Some b -> open_pages b = Some doc ->
  run_workers stem joinpath
    (map (fun page_indices =>
            (input_pdf, output_dir, output_format, dpi, page_indices)) chunks)
    completion futures w
  = (done_futures chunks completion futures,
     {| fs := written_by (pages_of chunks completion) (fs w); log := log w |}).
Proof.
  intros Hrender Hchunks Hinput. revert futures w.
  induction completion as [|k l IH]; intros futures w Hb Hdoc.
  - cbn [run_workers]. unfold done_futures, pages_of, written. simpl.
    by destruct w.
  - cbn [run_workers]. unfold done_futures. cbn [foldl].
    fold (done_futures chunks l). rewrite pages_of_cons, written_app.
    rewrite <- ExecutorFacts.fmap_map, list_lookup_fmap.
    destruct (chunks !! k) as [page_indices|] eqn:Hk; cbn [fmap option_fmap option_map default].
    + assert (Hvalid : Forall (fun p => p < length doc) page_indices).
      { eapply Forall_lookup_1 in Hchunks; [|exact Hk]. exact Hchunks. }
      rewrite (worker_run page_indices b w Hrender Hvalid Hb Hdoc).
      rewrite IH; [done| |done]. cbn [fs].
      rewrite written_other; [done|]. intros p _. apply Hinput.
    + rewrite IH by done. unfold written at 2. done.
Qed.

Lemma done_futures_cons (chunks : list (list nat)) (k : nat) (l : list nat)
    (futures : gmap nat (res nat)) :
  done_futures chunks (k :: l) futures
  = done_futures chunks l
      match chunks !! k with
      | Some page_indices => <[k := Ret (length page_indices)]> futures
      | None => futures
      end.
Proof. reflexivity. Qed.

Lemma done_futures_lookup (chunks : list (list nat)) (completion : list nat)
    (futures : gmap nat (res nat)) (k : nat) :
  k ∈ completion ->
  done_futures chunks completion futures !! k
  = match chunks !! k with
    | Some page_indices => Some (Ret (length page_indices))
    | None => futures !! k
    end.
Proof.
  revert futures. induction completion as [|j l IH]; intros futures Hin.
  { by apply elem_of_nil in Hin. }
  rewrite done_futures_cons.
  destruct (decide (k ∈ l)) as [Hl|Hl].
  - rewrite IH by done. destruct (chunks !! k) eqn:Hk; [done|].
    destruct (chunks !! j) eqn:Hj; [|done].
    rewrite lookup_insert_ne; [done|]. intros ->. congruence.
  - apply elem_of_cons in Hin as [->|Hin]; [|done].
    assert (Hrest : forall f, done_futures chunks l f !! j = f !! j).
    { clear -Hl. induction l as [|i l IH]; intros f; [done|].
      rewrite done_futures_cons.
      rewrite IH by (intros Hj; apply Hl; by right).
      destruct (chunks !! i); [|done].
      apply lookup_insert_ne. intros ->. apply Hl. by left. }
    rewrite Hrest. destruct (chunks !! j); [|done]. apply lookup_insert_eq.
Qed.

(** Reading the futures as they complete adds up the page counts. *)
Lemma as_completed_run (chunks : list (list nat)) (completion l : list nat)
    (completed_pages : nat) (w : world) :
  l ⊆ completion ->
  as_completed (done_futures chunks completion ∅) l completed_pages w
  = (Ret (completed_pages + length (pages_of chunks l)), w).
Proof.
  revert completed_pages. induction l as [|k l IH]; intros completed_pages Hsub.
  - cbn [as_completed]. unfold ret, pages_of. simpl. by rewrite Nat.add_0_r.
  - cbn [as_completed]. rewrite pages_of_cons, length_app.
    rewrite done_futures_lookup by (apply Hsub; by left).
    assert (Hl : l ⊆ completion) by (intros i Hi; apply Hsub; by right).
    destruct (chunks !! k) as [page_indices|]; cbn [default].
    + rewrite IH by done. by rewrite Nat.add_assoc.
    + rewrite lookup_empty, IH by done. done.
Qed.

Lemma pages_of_all (chunks : list (list nat)) (k : nat) :
  pages_of chunks (seq k (length chunks - k)) = concat (drop k chunks).
Proof.
  remember (length chunks - k) as n eqn:Hn. revert k Hn.
  induction n as [|n IH]; intros k Hn.
  - rewrite drop_ge by lia. done.
  - cbn [seq]. rewrite pages_of_cons, IH by lia.
    destruct (lookup_lt_is_Some_2 chunks k ltac:(lia)) as [c Hc].
    rewrite Hc. cbn [default]. by rewrite (drop_S _ _ _ Hc).
Qed.

Lemma pages_of_perm (chunks : list (list nat)) (completion : list nat) :
  completion ≡ₚ seq 0 (length chunks) ->
  pages_of chunks completion ≡ₚ concat chunks.
Proof.
  intros Hperm. unfold pages_of. rewrite Hperm.
  pose proof (pages_of_all chunks 0) as Hall.
  rewrite Nat.sub_0_r, drop_0 in Hall. unfold pages_of in Hall.
  by rewrite Hall.
Qed.

End WithRenderer.

End PdfToImagesFacts.

Module PathFacts.
Import PyText PageNumbersFacts.

Lemma list_ascii_append (a b : string) :
  String.list_ascii_of_string (String.append a b)
  = String.list_ascii_of_string a ++ String.list_ascii_of_string b.
Proof. induction a as [|c a IH]; [done|]. simpl. by rewrite IH. Qed.

Lemma list_ascii_inj (a b : string) :
  String.list_ascii_of_string a = String.list_ascii_of_string b -> a = b.
Proof.
  intros Heq. apply (f_equal String.string_of_list_ascii) in Heq.
  by rewrite !String.string_of_list_ascii_of_string in Heq.
Qed.

Lemma append_inv_head (a x y : string) :
  String.append a x = String.append a y -> x = y.
Proof. induction a as [|c a IH]; [done|]. intros [= Heq]. by apply IH. Qed.

Lemma append_inv_tail (x y s : string) :
  String.append x s = String.append y s -> x = y.
Proof.
  intros Heq. apply list_ascii_inj.
  apply (f_equal String.list_ascii_of_string) in Heq.
  rewrite !list_ascii_append in Heq. by apply app_inv_tail in Heq.
Qed.

(** A name built around the decimal form of a number determines the
    number. *)
Lemma numbered_name_inj (before after : string) (n m : Z) :
  String.append before (String.append (str_int n) after)
  = String.append before (String.append (str_int m) after) ->
  n = m.
Proof.
  intros Heq. apply append_inv_head, append_inv_tail in Heq.
  by apply str_int_inj.
Qed.

End PathFacts.

Module PdfToImagesExtras.
Import Effects EffectsFacts PyStr PyText PyRange PageChunks PageChunksFacts
  Reorder ReorderFacts PdfToImages PdfToImagesFacts PathFacts
  ReorderSamples PdfToImagesSamples.

(** X21. When the input opens, every page can be rendered and the chunks
    finish in any order, [pdf_to_images] returns [(True, None)]; the page
    counts it adds up reach the page count; every page's image is at that
    page's own path, no two pages share a path, and no other file is
    touched. *)
Theorem pdf_to_images_writes_every_page `{Renderer}
    (stem : string -> string) (joinpath : string -> string -> string)
    (input_pdf output_dir output_format : string) (dpi : Z)
    (cpu_count : option nat) (completion : list nat) (w : world)
    (b : list byte) (doc : list Page) :
  let path_of := output_path stem joinpath input_pdf output_dir output_format in
  fs w !! input_pdf = Some b -> open_pages b = Some doc ->
  renderable doc output_format dpi ->
  (forall a c, joinpath output_dir a = joinpath output_dir c -> a = c) ->
  (forall p, path_of p <> input_pdf) ->
  completion ≡ₚ seq 0 (length (pdf_to_images_chunks (length doc) cpu_count)) ->
  exists w',
    pdf_to_images stem joinpath input_pdf output_dir output_format dpi
      cpu_count completion w
    = (Ret (true, None), w')
    /\ pdf_to_images_body stem joinpath input_pdf output_dir output_format dpi
         cpu_count completion w
       = (Ret (length doc), w')
    /\ log w' = log w ++ [Info "Extracting pages..."; Success "Extracted pages"]
    /\ (forall p q, path_of p = path_of q -> p = q)
    /\ (forall p page, doc !! p = Some page ->
          fs w' !! path_of p = page_image output_format dpi page)
    /\ (forall path, (forall p, p < length doc -> path_of p <> path) ->
          fs w' !! path = fs w !! path).
Proof.
  intros path_of Hb Hdoc Hrender Hjoin Hinput Hperm.
  set (chunks := pdf_to_images_chunks (length doc) cpu_count) in *.
  assert (Hcover : concat chunks = seq 0 (length doc))
    by apply make_chunks_concat, chunk_size_pos.
  assert (Hpages : pages_of chunks completion ≡ₚ seq 0 (length doc))
    by (rewrite <- Hcover; by apply pages_of_perm).
  assert (Hlen : length (pages_of chunks completion) = length doc)
    by (rewrite Hpages; apply length_seq).
  assert (Hinj : forall p q, path_of p = path_of q -> p = q).
  { intros p q Heq. apply Hjoin, append_inv_head in Heq.
    apply (numbered_name_inj "_page_") in Heq. lia. }
  assert (Hvalid : Forall (Forall (fun p => p < length doc)) chunks).
  { apply Forall_forall. intros c Hc. apply Forall_forall. intros p Hp.
    assert (Hin : p ∈ concat chunks).
    { apply list_elem_of_In, in_concat. exists c.
      split; by apply list_elem_of_In. }
    rewrite Hcover in Hin. apply elem_of_seq in Hin. lia. }
  assert (Hbody :
    pdf_to_images_body stem joinpath input_pdf output_dir output_format dpi
      cpu_count completion w
    = (Ret (length doc),
       {| fs := written stem joinpath doc input_pdf output_dir output_format
                  dpi (pages_of chunks completion) (fs w);
          log := log w ++ [Info "Extracting pages..."; Success "Extracted pages"] |})).
  { unfold pdf_to_images_body, info. rewrite bind_emit.
    erewrite bind_run; [|apply (open_document_run input_pdf b doc); done].
    fold chunks. unfold bind at 1.
    rewrite (run_workers_run stem joinpath doc input_pdf output_dir
               output_format dpi chunks completion ∅ b
               (add_log w [Info "Extracting pages..."]) Hrender Hvalid
               Hinput Hb Hdoc).
    rewrite (as_completed_run chunks completion completion 0 _ (reflexivity _)).
    unfold success. rewrite bind_emit. unfold ret, add_log. cbn [fs log].
    rewrite Hlen, <- app_assoc. done. }
  eexists. split; [|split; [exact Hbody|split; [done|split; [exact Hinj|split]]]].
  - unfold pdf_to_images, try_except.
    by rewrite (bind_run _ _ _ _ _ Hbody).
  - intros p page Hpage. cbn [fs].
    destruct (Hrender page (list_elem_of_lookup_2 _ _ _ Hpage)) as [img Himg].
    rewrite Himg.
    apply (written_page stem joinpath doc input_pdf output_dir output_format
             dpi _ _ p page img); [|  |done|done].
    + intros q _. apply Hinj.
    + rewrite Hpages. apply elem_of_seq. apply lookup_lt_Some in Hpage. lia.
  - intros path Hother. cbn [fs]. apply written_other.
    intros p Hp. apply Hother. rewrite Hpages in Hp.
    apply elem_of_seq in Hp. lia.
Qed.

Lemma pdf_to_images_writes_every_page_witness :
  let w := {| fs := {[ "doc.pdf"%string := [x0a; x0b; x0c] ]}; log := [] |} in
  let doc := [x0a; x0b; x0c] in
  let completion := [2; 0; 1] in
  let path_of := output_path toy_stem toy_joinpath "doc.pdf" "out" "PNG" in
  fs w !! "doc.pdf"%string = Some doc
  /\ open_pages (PdfPages := toy_pages) doc = Some doc
  /\ renderable (H0 := toy_renderer) doc "PNG" 300
  /\ (forall a c, toy_joinpath "out" a = toy_joinpath "out" c -> a = c)
  /\ (forall p, path_of p <> "doc.pdf"%string)
  /\ completion ≡ₚ seq 0 (length (pdf_to_images_chunks (length doc) (Some 2)))
  /\ exists w',
       pdf_to_images (H0 := toy_renderer) toy_stem toy_joinpath
         "doc.pdf" "out" "PNG" 300 (Some 2) completion w
       = (Ret (true, None), w')
       /\ pdf_to_images_body (H0 := toy_renderer) toy_stem toy_joinpath
            "doc.pdf" "out" "PNG" 300 (Some 2) completion w
          = (Ret (length doc), w')
       /\ log w' = log w ++ [Info "Extracting pages..."; Success "Extracted pages"]
       /\ (forall p q, path_of p = path_of q -> p = q)
       /\ (forall p page, doc !! p = Some page ->
             fs w' !! path_of p
             = page_image (H0 := toy_renderer) "PNG" 300 page)
       /\ (forall path, (forall p, p < length doc -> path_of p <> path) ->
             fs w' !! path = fs w !! path).
Proof.
  assert (Hrender : renderable (H0 := toy_renderer) [x0a; x0b; x0c] "PNG" 300).
  { intros page _. by eexists. }
  assert (Hjoin : forall a c, toy_joinpath "out" a = toy_joinpath "out" c -> a = c).
  { intros a c Heq. by injection Heq. }
  assert (Hinput : forall p,
            output_path toy_stem toy_joinpath "doc.pdf" "out" "PNG" p
            <> "doc.pdf"%string).
  { intros p Heq. discriminate Heq. }
  assert (Hperm : [2; 0; 1] ≡ₚ seq 0 (length (pdf_to_images_chunks 3 (Some 2)))).
  { change (seq 0 (length (pdf_to_images_chunks 3 (Some 2))))
      with ([0; 1] ++ [2]).
    apply (Permutation_cons_append [0; 1] 2). }
  split; [reflexivity|]. split; [reflexivity|]. split; [exact Hrender|].
  split; [exact Hjoin|]. split; [exact Hinput|]. split; [exact Hperm|].
  apply (pdf_to_images_writes_every_page (H0 := toy_renderer)
           toy_stem toy_joinpath "doc.pdf" "out" "PNG" 300 (Some 2) [2; 0; 1]
           {| fs := {[ "doc.pdf"%string := [x0a; x0b; x0c] ]}; log := [] |}
           [x0a; x0b; x0c] [x0a; x0b; x0c]);
    [reflexivity | reflexivity | exact Hrender | exact Hjoin | exact Hinput
    | exact Hperm].
Defined.

(** Three pages on two cores: three chunks, finished out of order. *)
Example pdf_to_images_sample :
  fs (pdf_to_images (H0 := toy_renderer) toy_stem toy_joinpath
        "doc.pdf" "out" "PNG" 300 (Some 2) [2; 0; 1]
        {| fs := {[ "doc.pdf"%string := [x0a; x0b; x0c] ]}; log := [] |}).2
  = {[ "doc.pdf"%string := [x0a; x0b; x0c];
       "out/doc_page_1.png"%string := [x0a];
       "out/doc_page_2.png"%string := [x0b];
       "out/doc_page_3.png"%string := [x0c] ]}.
Proof. vm_compute. reflexivity. Qed.

End PdfToImagesExtras.

(** ** The unit [format_file_size] picks *)

Module UtilsFacts.
Import Utils.
Local Open Scope Q_scope.

Section Format.
Context (format_2f : Q -> string).

Lemma format_loop_small (unit : string) (rest : list string) (v : Q) :
  v < 1024 ->
  format_loop format_2f (unit :: rest) v
  = (format_2f v ++ " " ++ unit)%string.
Proof.
  intros Hv. cbn [format_loop].
  destruct (Qle_bool 1024 v) eqn:Hle; [|done].
  apply Qle_bool_iff in Hle. lra.
Qed.

Lemma format_loop_large (unit : string) (rest : list string) (v : Q) :
  1024 <= v ->
  format_loop format_2f (unit :: rest) v = format_loop format_2f rest (v / 1024).
Proof.
  intros Hv. cbn [format_loop].
  by rewrite (proj2 (Qle_bool_iff 1024 v) Hv).
Qed.

(** The loop from any unit on: the value is divided by 1024 until it is
    below 1024 or the units run out. *)
Lemma format_loop_spec (names : list string) (v : Q) :
  1 <= v ->
  exists (k : nat) (shown : Q),
    (k <= length names)%nat
    /\ format_loop format_2f names v
       = (format_2f shown ++ " " ++ nth k names "TB")%string
    /\ shown * inject_Z (1024 ^ Z.of_nat k) == v
    /\ 1 <= shown
    /\ ((k < length names)%nat -> shown < 1024).
Proof.
  revert v. induction names as [|unit rest IH]; intros v Hv.
  - exists 0%nat, v. split; [done|]. split; [done|].
    split; [apply Qmult_1_r|]. split; [done|]. simpl. lia.
  - destruct (Qlt_le_dec v 1024) as [Hsmall|Hlarge].
    + exists 0%nat, v. rewrite format_loop_small by done.
      split; [simpl; lia|]. split; [done|]. split; [apply Qmult_1_r|]. done.
    + rewrite format_loop_large by done.
      destruct (IH (v / 1024)) as (k & shown & Hk & Hfmt & Hval & H1 & Hlt).
      { apply Qle_shift_div_l; lra. }
      exists (S k), shown. split; [simpl; lia|]. split; [exact Hfmt|].
      split; [|split; [done|intros ?; apply Hlt; simpl in *; lia]].
      replace (1024 ^ Z.of_nat (S k))%Z with (1024 ^ Z.of_nat k * 1024)%Z
        by (rewrite Nat2Z.inj_succ, Z.pow_succ_r; lia).
      rewrite inject_Z_mult, Qmult_assoc, Hval. field.
Qed.

End Format.

End UtilsFacts.

Module UtilsExtras.
Import Utils UtilsFacts.
Local Open Scope Q_scope.

(** X22. For a size of at least one byte, [format_file_size] prints the
    size divided by 1024 as often as the unit says (B: 0 times, KB: 1, MB:
    2, GB: 3, TB: 4); the number printed is at least 1, and below 1024 for
    every unit but TB. *)
Theorem format_file_size_scales (format_2f : Q -> string) (size_bytes : Z) :
  (1 <= size_bytes)%Z ->
  exists (k : nat) (shown : Q),
    (k <= 4)%nat
    /\ format_file_size format_2f size_bytes
       = (format_2f shown ++ " " ++ unit_name k)%string
    /\ shown * inject_Z (1024 ^ Z.of_nat k) == inject_Z size_bytes
    /\ 1 <= shown
    /\ ((k < 4)%nat -> shown < 1024).
Proof.
  intros Hsize. unfold format_file_size, unit_name.
  apply (format_loop_spec format_2f units (inject_Z size_bytes)).
  rewrite <- (Zle_Qle 1). exact Hsize.
Qed.

Lemma format_file_size_scales_witness :
  (1 <= 1048575)%Z
  /\ exists (k : nat) (shown : Q),
       (k <= 4)%nat
       /\ format_file_size (fun _ => "?"%string) 1048575
          = ("?" ++ " " ++ unit_name k)%string
       /\ shown * inject_Z (1024 ^ Z.of_nat k) == inject_Z 1048575
       /\ 1 <= shown
       /\ ((k < 4)%nat -> shown < 1024).
Proof.
  split; [lia|].
  apply (format_file_size_scales (fun _ => "?"%string) 1048575). lia.
Defined.

End UtilsExtras.

(** ** [safe_filename] always finds a free name *)

Module SafeFilenameFacts.
Import PyText Utils PageNumbersFacts PathFacts.

Section SafeFilename.
Context (joinpath : string -> string -> string) (existing : gset string).
Context (output_dir base ext : string).
Hypothesis joinpath_inj :
  forall a c, joinpath output_dir a = joinpath output_dir c -> a = c.

Local Abbreviation candidate := (numbered joinpath output_dir base ext).

Lemma numbered_inj (i j : nat) : candidate i = candidate j -> i = j.
Proof.
  intros Heq. apply joinpath_inj, append_inv_head in Heq.
  apply (numbered_name_inj "_") in Heq. lia.
Qed.

(** Not all of the first [size existing + 1] candidates exist. *)
Lemma some_candidate_free :
  exists j, 1 <= j <= S (size existing) /\ candidate j ∉ existing.
Proof.
  destruct (decide (Forall (fun j => candidate j ∈ existing)
                      (seq 1 (S (size existing))))) as [Hall|Hsome].
  - exfalso.
    assert (Hsub : list_to_set (candidate <$> seq 1 (S (size existing)))
                   ⊆ existing).
    { intros path Hpath. apply elem_of_list_to_set, list_elem_of_fmap in Hpath
        as (j & -> & Hj).
      by apply (proj1 (Forall_forall _ _) Hall). }
    apply subseteq_size in Hsub.
    rewrite size_list_to_set, length_fmap, length_seq in Hsub; [lia|].
    apply NoDup_fmap_2; [|apply NoDup_seq].
    intros i j. apply numbered_inj.
  - apply not_Forall_Exists in Hsome; [|intros j; apply _].
    apply Exists_exists in Hsome as (j & Hj & Hfree).
    apply elem_of_seq in Hj. exists j. split; [lia|done].
Qed.

Lemma least_free_below (m : nat) :
  (exists j, 1 <= j <= m /\ candidate j ∉ existing) ->
  exists k, 1 <= k <= m /\ (candidate k ∉ existing)
            /\ forall j, 1 <= j < k -> candidate j ∈ existing.
Proof.
  induction m as [|m IH]; intros (j & Hj & Hfree); [lia|].
  destruct (decide (Exists (fun i => candidate i ∉ existing) (seq 1 m)))
    as [Hsome|Hnone].
  - apply Exists_exists in Hsome as (i & Hi & Hifree).
    apply elem_of_seq in Hi.
    destruct IH as (k & Hk & Hkfree & Hbelow); [exists i; split; [lia|done]|].
    exists k. split; [lia|done].
  - exists (S m). split; [lia|].
    assert (Hall : forall i, 1 <= i < S m -> candidate i ∈ existing).
    { intros i Hi. destruct (decide (candidate i ∈ existing)) as [|Hout]; [done|].
      exfalso. apply Hnone, Exists_exists. exists i.
      split; [apply elem_of_seq; lia|done]. }
    split; [|exact Hall].
    destruct (decide (j = S m)) as [<-|Hne]; [done|].
    exfalso. apply Hfree, Hall. lia.
Qed.

Lemma least_candidate_free :
  exists k, 1 <= k <= S (size existing) /\ (candidate k ∉ existing)
            /\ forall j, 1 <= j < k -> candidate j ∈ existing.
Proof. apply least_free_below, some_candidate_free. Qed.

(** The loop walks up to the first free candidate. *)
Lemma safe_filename_loop_run (d counter fuel : nat) (output_path : string) :
  output_path ∈ existing ->
  (forall j, counter <= j < counter + d -> candidate j ∈ existing) ->
  candidate (counter + d) ∉ existing ->
  d + 2 <= fuel ->
  safe_filename_loop joinpath existing fuel output_dir base ext counter
    output_path
  = Some (candidate (counter + d)).
Proof.
  revert counter fuel output_path.
  induction d as [|d IH]; intros counter fuel output_path Hin Hbelow Hfree Hfuel.
  - destruct fuel as [|[|fuel]]; [lia|lia|].
    cbn [safe_filename_loop]. rewrite bool_decide_eq_true_2 by done.
    rewrite Nat.add_0_r in *. by rewrite bool_decide_eq_false_2.
  - destruct fuel as [|fuel]; [lia|].
    cbn [safe_filename_loop]. rewrite bool_decide_eq_true_2 by done.
    replace (counter + S d) with (S counter + d) in * by lia.
    apply IH; [apply Hbelow; lia| |done|lia].
    intros j Hj. apply Hbelow. lia.
Qed.

End SafeFilename.

End SafeFilenameFacts.

Module SafeFilenameExtras.
Import PyText Utils SafeFilenameFacts PdfToImagesSamples.

(** X23. [safe_filename] comes to an end after at most one test more
    than there are existing paths plus one, and the path it returns does
    not exist: the requested one when that is free, otherwise the one
    with the smallest counter, from 1 up, that is free. *)
Theorem safe_filename_finds_free_name
    (joinpath : string -> string -> string) (stem suffix : string -> string)
    (existing : gset string) (fuel : nat) (filename output_dir : string) :
  (forall a c, joinpath output_dir a = joinpath output_dir c -> a = c) ->
  size existing + 2 <= fuel ->
  let output_path := joinpath output_dir filename in
  let candidate :=
    numbered joinpath output_dir (stem output_path) (suffix output_path) in
  exists path,
    safe_filename joinpath stem suffix existing fuel filename output_dir
    = Some path
    /\ (path ∉ existing)
    /\ (output_path ∉ existing -> path = output_path)
    /\ (output_path ∈ existing ->
        exists k, 1 <= k /\ path = candidate k
                  /\ forall j, 1 <= j < k -> candidate j ∈ existing).
Proof.
  intros Hjoin Hfuel output_path candidate. unfold safe_filename.
  fold output_path.
  destruct (decide (output_path ∈ existing)) as [Hin|Hout].
  - rewrite bool_decide_eq_true_2 by done. cbn [negb].
    destruct (least_candidate_free joinpath existing output_dir
                (stem output_path) (suffix output_path) Hjoin)
      as (k & Hk & Hfree & Hbelow).
    exists (candidate k). split; [|split; [done|split; [done|]]].
    + pose proof (safe_filename_loop_run joinpath existing output_dir
                    (stem output_path) (suffix output_path) (k - 1) 1 fuel
                    output_path Hin) as Hrun.
      replace (1 + (k - 1)) with k in Hrun by lia.
      apply Hrun; [|done|lia]. intros j Hj. apply Hbelow. lia.
    + intros _. exists k. split; [lia|]. split; [done|exact Hbelow].
  - rewrite bool_decide_eq_false_2 by done. cbn [negb].
    exists output_path. split; [done|]. split; [done|]. split; [done|].
    intros Hin. done.
Qed.

Lemma safe_filename_finds_free_name_witness :
  let existing : gset string :=
    {[ "out/a.txt"%string; "out/a_1.txt"%string ]} in
  let stem := fun _ : string => "a"%string in
  let suffix := fun _ : string => ".txt"%string in
  let output_path := toy_joinpath "out" "a.txt" in
  let candidate :=
    numbered toy_joinpath "out" (stem output_path) (suffix output_path) in
  (forall a c, toy_joinpath "out" a = toy_joinpath "out" c -> a = c)
  /\ size existing + 2 <= 4
  /\ exists path,
       safe_filename toy_joinpath stem suffix existing 4 "a.txt" "out"
       = Some path
       /\ (path ∉ existing)
       /\ (output_path ∉ existing -> path = output_path)
       /\ (output_path ∈ existing ->
           exists k, 1 <= k /\ path = candidate k
                     /\ forall j, 1 <= j < k -> candidate j ∈ existing).
Proof.
  assert (Hjoin : forall a c, toy_joinpath "out" a = toy_joinpath "out" c -> a = c).
  { intros a c Heq. by injection Heq. }
  assert (Hsize : size ({[ "out/a.txt"%string; "out/a_1.txt"%string ]}
                          : gset string) + 2 <= 4).
  { rewrite size_union by set_solver. rewrite !size_singleton. lia. }
  split; [exact Hjoin|]. split; [exact Hsize|].
  apply (safe_filename_finds_free_name toy_joinpath
           (fun _ : string => "a"%string) (fun _ : string => ".txt"%string)
           {[ "out/a.txt"%string; "out/a_1.txt"%string ]} 4 "a.txt" "out");
    [exact Hjoin | exact Hsize].
Defined.

(** Two names taken: the third try is free. *)
Example safe_filename_sample :
  safe_filename toy_joinpath (fun _ => "a"%string) (fun _ => ".txt"%string)
    {[ "out/a.txt"%string; "out/a_1.txt"%string ]} 4 "a.txt" "out"
  = Some "out/a_2.txt"%string.
Proof. vm_compute. reflexivity. Qed.

End SafeFilenameExtras.

(** ** [batch_image_resize] reports success whatever the images do *)

Module BatchFacts.
Import Effects EffectsFacts PyStr PyText ImageProcessor Batch.

Section WithPillow.
Context `{Pillow} (glob : string -> string -> list string)
  (stem : string -> string) (joinpath : string -> string -> string).







End WithPillow.

End BatchFacts.

Module BatchExtras.
Import Effects EffectsFacts PyStr PyText ImageProcessor Batch BatchFacts
  Samples PdfToImagesSamples BatchSamples.



(** The only image is missing when the worker opens it: the batch still
    answers [(True, None)], with a warning as its last message. *)
Example batch_image_resize_all_failed :
  let run := batch_image_resize (H := toy_pillow) toy_glob toy_stem
               toy_joinpath "in" "out" (Some 50%Z) None "JPEG" [0]
               {| fs := ∅; log := [] |} in
  fst <$> run = Some (Ret (true, None))
  /\ (fun r => last (log (snd r))) <$> run
     = Some (Some (Warning "Batch processing complete: some failed")).
Proof. split; reflexivity. Qed.

End BatchExtras.
